(** * FPL FFmpeg player demo: packet queue, frame queue, clocks and sync

    A shallow embedding of the playback core of
    [demos/FPL_FFMpeg/fpl_ffmpeg.cpp]: the serial-carrying packet queue, the
    ring of decoded frames, the three drift-corrected clocks, the choice of
    the master clock, the video delay computation, the reader's seek and
    back-pressure steps, and the properties they satisfy.

    C++ [double] values are Rocq's primitive binary64 floats, so every
    evaluation below is the IEEE-754 computation the program performs.
    Fixed-width integers are [Z] with the wrap-around written out. *)

From Stdlib Require Import ZArith Floats List Bool Lia.
Import ListNotations.

Set Warnings "-inexact-float".

Local Open Scope Z_scope.

(* ================================================================== *)
(** ** Fixed-width integers *)
(* ================================================================== *)

Definition INT32_MAX : Z := 2147483647.
Definition INT32_MIN : Z := -2147483648.

(** Two's-complement reduction to [int32_t]. *)
Definition wrap_int32 (z : Z) : Z := (z + 2 ^ 31) mod 2 ^ 32 - 2 ^ 31.

(** Conversion to [uint32_t] / [uint64_t] (also: unsigned wrap-around). *)
Definition to_uint32 (z : Z) : Z := z mod 2 ^ 32.
Definition to_uint64 (z : Z) : Z := z mod 2 ^ 64.

Definition in_int32 (z : Z) : Prop := INT32_MIN <= z <= INT32_MAX.

Definition INT64_MAX : Z := 2 ^ 63 - 1.
Definition INT64_MIN : Z := - 2 ^ 63.
Definition wrap_int64 (z : Z) : Z := (z + 2 ^ 63) mod 2 ^ 64 - 2 ^ 63.

(* ================================================================== *)
(** ** Doubles *)
(* ================================================================== *)

Definition double := float.

Definition NAN : double := nan.
Definition isnan (x : double) : bool := is_nan x.
Definition fabs (x : double) : double := abs x.

(** [(double)z] for an integer [z]: the nearest binary64 value, ties to
    even. *)
Definition double_of_Z (z : Z) : double :=
  SF2Prim (binary_normalize prec emax z 0 false).

(** Modelled from the spec: the macros [fplMax] and [fplMin] come from
    [final_platform_layer.h], which is not among the sources; they are the
    usual comparison-and-select macros (the spec's "down to 0.900" and "up
    to 1.010"). *)
Definition fplMax (a b : double) : double := if (b <? a)%float then a else b.
Definition fplMin (a b : double) : double := if (a <? b)%float then a else b.

(** Modelled from the spec: [FFMAX] comes from FFmpeg's headers, which are
    not among the sources; it is [((a) > (b) ? (a) : (b))], the spec's
    [max(0, last_duration + diff)]. *)
Definition FFMAX (a b : double) : double := if (b <? a)%float then a else b.


(** [(int)x] for a double [x]: truncation toward zero; the conversion has
    no defined result for NaN, infinities and values outside [int]. *)
Definition int_of_double (x : double) : option Z :=
  match Prim2SF x with
  | S754_zero _ => Some 0
  | S754_finite s m e =>
      let a := if 0 <=? e then Zpos m * 2 ^ e else Zpos m / 2 ^ (- e) in
      let z := if s then - a else a in
      if (INT32_MIN <=? z) && (z <=? INT32_MAX) then Some z else None
  | _ => None
  end.

(* ================================================================== *)
(** ** The environment: monotonic clock and allocator *)
(* ================================================================== *)

(** The program reads the wall clock through
    [ffmpeg.av_gettime_relative()] and allocates packet nodes and frames
    through [av_mallocz] / [av_frame_alloc]. Both are oracles of the
    environment: the [n]-th reading of the clock (in microseconds) and
    whether the [n]-th allocation succeeds. *)
Record World := mkWorld {
  gettime : nat -> Z;
  time_calls : nat;
  alloc_ok : nat -> bool;
  alloc_calls : nat
}.

Definition M (A : Type) : Type := World -> A * World.

Definition ret {A} (a : A) : M A := fun w => (a, w).

Definition bind {A B} (c : M A) (k : A -> M B) : M B :=
  fun w => let (a, w') := c w in k a w'.

Notation "x <- c ;; k" := (bind c (fun x => k))
  (at level 61, c at next level, right associativity).

Definition av_gettime_relative : M Z :=
  fun w => (gettime w (time_calls w),
            mkWorld (gettime w) (S (time_calls w)) (alloc_ok w) (alloc_calls w)).

Definition allocate : M bool :=
  fun w => (alloc_ok w (alloc_calls w),
            mkWorld (gettime w) (time_calls w) (alloc_ok w) (S (alloc_calls w))).

(** Modelled from the spec: the constants of FFmpeg's headers, which are
    not among the sources (microseconds per second; the "absent"
    timestamp). *)
Definition AV_TIME_BASE : Z := 1000000.
Definition AV_NOPTS_VALUE : Z := - 2 ^ 63.

(** [ffmpeg.av_gettime_relative() / (double)AV_TIME_BASE] *)
Definition time_seconds (t : Z) : double :=
  (double_of_Z t / double_of_Z AV_TIME_BASE)%float.

(* ================================================================== *)
(** ** Packet queue *)
(* ================================================================== *)

(** What [AVPacket::data] points to: nothing, the global flush packet
    itself (the sentinel [IsFlushPacket] compares against), or a payload. *)
Inductive DataPtr : Type :=
| NullData
| FlushSentinel
| Payload (addr : Z).

Module AVPacket.
Record t := mk {
  data : DataPtr;
  size : Z;          (* int *)
  duration : Z;      (* int64_t *)
  stream_index : Z;  (* int *)
  pts : Z;           (* int64_t *)
  dts : Z            (* int64_t *)
}.
End AVPacket.

(** [globalFlushPacket] after [av_init_packet] and
    [globalFlushPacket.data = (uint8_t * )&globalFlushPacket] in [main]. *)
Definition globalFlushPacket : AVPacket.t :=
  AVPacket.mk FlushSentinel 0 0 0 AV_NOPTS_VALUE AV_NOPTS_VALUE.

(** A node of the linked list; [next] is the list structure itself. *)
Module PacketList.
Record t := mk {
  packet : AVPacket.t;
  serial : Z         (* int32_t *)
}.
End PacketList.

(** Modelled from the spec: the declaration of [AVPacket] is not among the
    sources; [sizeof(PacketList)] on x64 with FFmpeg 4.2.2 is an 88-byte
    [AVPacket], the [next] pointer and the serial, padded to 8 bytes (the
    spec's "list-node overhead"). No property below depends on the value. *)
Definition sizeof_PacketList : Z := 104.

Module PacketQueue.
Record t := mk {
  packets : list PacketList.t;  (* first ... last *)
  size : Z;                     (* uint64_t *)
  duration : Z;                 (* uint64_t *)
  packetCount : Z;              (* int32_t *)
  serial : Z;                   (* int32_t *)
  addedSignal : bool;
  freeSignal : bool
}.
End PacketQueue.

Definition IsFlushPacket (packet : PacketList.t) : bool :=
  match AVPacket.data (PacketList.packet packet) with
  | FlushSentinel => true
  | _ => false
  end.

Definition FlushPacketQueue (queue : PacketQueue.t) : PacketQueue.t :=
  PacketQueue.mk [] 0 0 0
    (PacketQueue.serial queue)
    (PacketQueue.addedSignal queue) (PacketQueue.freeSignal queue).

(** The serial the node is tagged with, and the queue has afterwards. *)
Definition push_serial (queue : PacketQueue.t) (packet : PacketList.t) : Z :=
  if IsFlushPacket packet
  then wrap_int32 (PacketQueue.serial queue + 1)
  else PacketQueue.serial queue.

Definition PushPacket (queue : PacketQueue.t) (packet : PacketList.t)
  : PacketQueue.t :=
  let serial := push_serial queue packet in
  let node := PacketList.mk (PacketList.packet packet) serial in
  PacketQueue.mk
    (PacketQueue.packets queue ++ [node])
    (to_uint64 (PacketQueue.size queue
       + to_uint64 (AVPacket.size (PacketList.packet packet) + sizeof_PacketList)))
    (to_uint64 (PacketQueue.duration queue
       + AVPacket.duration (PacketList.packet packet)))
    (wrap_int32 (PacketQueue.packetCount queue + 1))
    serial
    true
    (PacketQueue.freeSignal queue).

Definition PopPacket (queue : PacketQueue.t)
  : option (PacketList.t * PacketQueue.t) :=
  match PacketQueue.packets queue with
  | [] => None
  | p :: n =>
      Some (p,
        PacketQueue.mk n
          (to_uint64 (PacketQueue.size queue
             - to_uint64 (AVPacket.size (PacketList.packet p) + sizeof_PacketList)))
          (to_uint64 (PacketQueue.duration queue
             - AVPacket.duration (PacketList.packet p)))
          (wrap_int32 (PacketQueue.packetCount queue - 1))
          (PacketQueue.serial queue)
          (PacketQueue.addedSignal queue)
          (PacketQueue.freeSignal queue))
  end.

(** A freshly allocated node is zeroed ([av_mallocz]). *)
Definition zeroed_packet : AVPacket.t := AVPacket.mk NullData 0 0 0 0 0.

(** Modelled from the spec: [av_init_packet] belongs to the codec facade,
    which is not among the sources; it resets the timestamps, the duration
    and the stream index and leaves [data] and [size]. *)
Definition av_init_packet (p : AVPacket.t) : AVPacket.t :=
  AVPacket.mk (AVPacket.data p) (AVPacket.size p) 0 0
    AV_NOPTS_VALUE AV_NOPTS_VALUE.

Definition PushNullPacket (queue : PacketQueue.t) (streamIndex : Z)
  : M (bool * PacketQueue.t) :=
  ok <- allocate ;;
  if ok : bool then
    let p := av_init_packet zeroed_packet in
    let p := AVPacket.mk NullData 0 (AVPacket.duration p) streamIndex
               (AVPacket.pts p) (AVPacket.dts p) in
    ret (true, PushPacket queue (PacketList.mk p 0))
  else ret (false, queue).

Definition PushFlushPacket (queue : PacketQueue.t) : M (bool * PacketQueue.t) :=
  ok <- allocate ;;
  if ok : bool then
    ret (true, PushPacket queue (PacketList.mk globalFlushPacket 0))
  else ret (false, queue).

(** [assert(PushFlushPacket(queue))] with assertions enabled; the boolean
    is the asserted value. *)
Definition StartPacketQueue (queue : PacketQueue.t) : M (bool * PacketQueue.t) :=
  PushFlushPacket queue.

(** [AddPacketToDecoder], on the decoder's packet queue. *)
Definition AddPacket (queue : PacketQueue.t) (sourcePacket : AVPacket.t)
  : PacketQueue.t :=
  PushPacket queue (PacketList.mk sourcePacket 0).

(** *** Sequences of queue operations *)

Inductive QueueOp : Type :=
| OpPushPacket (packet : PacketList.t)
| OpAddPacket (sourcePacket : AVPacket.t)
| OpPushNullPacket (streamIndex : Z)
| OpPushFlushPacket
| OpStartPacketQueue
| OpPopPacket
| OpFlushPacketQueue.

(** One operation: the node it handed to [PushPacket], if any, and the
    queue afterwards. *)
Definition run_op (op : QueueOp) (queue : PacketQueue.t)
  : M (option PacketList.t * PacketQueue.t) :=
  match op with
  | OpPushPacket p => ret (Some p, PushPacket queue p)
  | OpAddPacket src => ret (Some (PacketList.mk src 0), AddPacket queue src)
  | OpPushNullPacket i =>
      r <- PushNullPacket queue i ;;
      ret (if fst r
           then Some (PacketList.mk
                        (AVPacket.mk NullData 0 0 i AV_NOPTS_VALUE AV_NOPTS_VALUE) 0)
           else None, snd r)
  | OpPushFlushPacket =>
      r <- PushFlushPacket queue ;;
      ret (if fst r then Some (PacketList.mk globalFlushPacket 0) else None, snd r)
  | OpStartPacketQueue =>
      r <- StartPacketQueue queue ;;
      ret (if fst r then Some (PacketList.mk globalFlushPacket 0) else None, snd r)
  | OpPopPacket =>
      ret (None, match PopPacket queue with
                 | Some (_, q) => q
                 | None => queue
                 end)
  | OpFlushPacketQueue => ret (None, FlushPacketQueue queue)
  end.

Record QueueEvent := mkEvent {
  ev_before : PacketQueue.t;
  ev_op : QueueOp;
  ev_pushed : option PacketList.t;
  ev_after : PacketQueue.t
}.

(** A run: the events in order, and the final queue. *)
Fixpoint run_ops (ops : list QueueOp) (queue : PacketQueue.t)
  : M (list QueueEvent * PacketQueue.t) :=
  match ops with
  | [] => ret ([], queue)
  | op :: rest =>
      r <- run_op op queue ;;
      t <- run_ops rest (snd r) ;;
      ret (mkEvent queue op (fst r) (snd r) :: fst t, snd t)
  end.

Definition pushed_flush (e : QueueEvent) : bool :=
  match ev_pushed e with
  | Some p => IsFlushPacket p
  | None => false
  end.

(** How many flush packets a run pushed. *)
Definition flush_pushes (events : list QueueEvent) : Z :=
  Z.of_nat (length (filter pushed_flush events)).

(* ================================================================== *)
(** ** Frame queue *)
(* ================================================================== *)

Definition MAX_VIDEO_FRAME_QUEUE_COUNT : Z := 4.
Definition MAX_AUDIO_FRAME_QUEUE_COUNT : Z := 8.
Definition MAX_FRAME_QUEUE_COUNT : Z := 8.

Module Frame.
Record t := mk {
  frame : option Z;   (* the buffer the AVFrame references, if any *)
  pts : double;
  duration : double;
  pos : Z;            (* int64_t *)
  serial : Z;         (* int32_t *)
  width : Z;
  height : Z;
  isUploaded : bool
}.
End Frame.

(** A zero-initialised slot whose [AVFrame] has been allocated. *)
Definition empty_frame : Frame.t := Frame.mk None 0%float 0%float 0 0 0 0 false.

(** [FreeFrameData]: [av_frame_unref]. *)
Definition FreeFrameData (f : Frame.t) : Frame.t :=
  Frame.mk None (Frame.pts f) (Frame.duration f) (Frame.pos f)
    (Frame.serial f) (Frame.width f) (Frame.height f) (Frame.isUploaded f).

Module FrameQueue.
Record t := mk {
  frames : list Frame.t;
  readIndex : Z;        (* int32_t *)
  writeIndex : Z;       (* int32_t *)
  count : Z;            (* int32_t *)
  capacity : Z;         (* int32_t *)
  keepLast : Z;         (* int32_t *)
  readIndexShown : Z;   (* int32_t *)
  signal : bool;
  isValid : bool
}.
End FrameQueue.

(** Update of [frames[i]]; nothing is modelled outside the array. *)
Fixpoint update_nth {A} (n : nat) (f : A -> A) (l : list A) : list A :=
  match l, n with
  | [], _ => []
  | x :: r, O => f x :: r
  | x :: r, S n' => x :: update_nth n' f r
  end.

(** The allocation loop of [InitFrameQueue]: slots [0 .. n-1] get their
    [AVFrame]; the first failed allocation stops it. *)
Fixpoint allocate_frames (n : nat) : M bool :=
  match n with
  | O => ret true
  | S n' => ok <- allocate ;;
            if ok : bool then allocate_frames n' else ret false
  end.

(** [fplMin(capacity, MAX_FRAME_QUEUE_COUNT)] compares an [int32_t] with a
    [uint32_t], hence as unsigned values. *)
Definition InitFrameQueue (capacity : Z) (keepLast : Z)
  : M (bool * FrameQueue.t) :=
  let cap := if to_uint32 capacity <? MAX_FRAME_QUEUE_COUNT
             then wrap_int32 (to_uint32 capacity) else MAX_FRAME_QUEUE_COUNT in
  let zero := FrameQueue.mk (repeat empty_frame (Z.to_nat MAX_FRAME_QUEUE_COUNT))
                0 0 0 cap 0 0 false false in
  ok <- allocate_frames (Z.to_nat cap) ;;
  if ok : bool then
    ret (true,
         FrameQueue.mk (FrameQueue.frames zero) 0 0 0 cap
           (if keepLast =? 0 then 0 else 1) 0 false true)
  else ret (false, zero).

(** The index of the slot a peek returns. *)
Definition PeekFrameQueue (queue : FrameQueue.t) : Z :=
  Z.rem (wrap_int32 (FrameQueue.readIndex queue + FrameQueue.readIndexShown queue))
        (FrameQueue.capacity queue).

Definition PeekFrameQueueNext (queue : FrameQueue.t) : Z :=
  Z.rem (wrap_int32 (FrameQueue.readIndex queue + FrameQueue.readIndexShown queue + 1))
        (FrameQueue.capacity queue).

Definition PeekFrameQueueLast (queue : FrameQueue.t) : Z :=
  FrameQueue.readIndex queue.

(** [stopped1] and [stopped2] are the two reads of the volatile
    [*queue.stopped]; the result is the index of the slot. *)
Definition PeekWritableFromFrameQueue (queue : FrameQueue.t)
  (stopped1 stopped2 : bool) : option Z :=
  if (FrameQueue.capacity queue <=? FrameQueue.count queue) || stopped1
  then None
  else if stopped2 then None
  else Some (FrameQueue.writeIndex queue).

Definition PeekReadableFromFrameQueue (queue : FrameQueue.t)
  (stopped1 stopped2 : bool) : option Z :=
  if (wrap_int32 (FrameQueue.count queue - FrameQueue.readIndexShown queue) <=? 0)
     || stopped1
  then None
  else if stopped2 then None
  else Some (PeekFrameQueue queue).

Definition NextWritable (queue : FrameQueue.t) : FrameQueue.t :=
  FrameQueue.mk
    (FrameQueue.frames queue)
    (FrameQueue.readIndex queue)
    (Z.rem (wrap_int32 (FrameQueue.writeIndex queue + 1)) (FrameQueue.capacity queue))
    (wrap_int32 (FrameQueue.count queue + 1))
    (FrameQueue.capacity queue)
    (FrameQueue.keepLast queue)
    (FrameQueue.readIndexShown queue)
    true
    (FrameQueue.isValid queue).

Definition NextReadable (queue : FrameQueue.t) : FrameQueue.t :=
  if negb (FrameQueue.keepLast queue =? 0) && (FrameQueue.readIndexShown queue =? 0)
  then
    FrameQueue.mk
      (FrameQueue.frames queue) (FrameQueue.readIndex queue)
      (FrameQueue.writeIndex queue) (FrameQueue.count queue)
      (FrameQueue.capacity queue) (FrameQueue.keepLast queue)
      1
      (FrameQueue.signal queue) (FrameQueue.isValid queue)
  else
    FrameQueue.mk
      (update_nth (Z.to_nat (FrameQueue.readIndex queue)) FreeFrameData
         (FrameQueue.frames queue))
      (Z.rem (wrap_int32 (FrameQueue.readIndex queue + 1)) (FrameQueue.capacity queue))
      (FrameQueue.writeIndex queue)
      (wrap_int32 (FrameQueue.count queue - 1))
      (FrameQueue.capacity queue)
      (FrameQueue.keepLast queue)
      (FrameQueue.readIndexShown queue)
      true
      (FrameQueue.isValid queue).

Definition GetFrameQueueRemainingCount (queue : FrameQueue.t) : Z :=
  wrap_int32 (FrameQueue.count queue - FrameQueue.readIndexShown queue).

(** *** Sequences of ring operations

    The producer calls [NextWritable] for a slot that
    [PeekWritableFromFrameQueue] handed out, the consumer [NextReadable]
    for a frame that [PeekReadableFromFrameQueue] handed out. [holds_slot]
    and [holds_frame] record an outstanding successful peek of either. *)

Inductive FrameOp : Type :=
| OpPeekWritable (stopped1 stopped2 : bool)
| OpNextWritable
| OpPeekReadable (stopped1 stopped2 : bool)
| OpNextReadable.

Record Ring := mkRing {
  ring_queue : FrameQueue.t;
  holds_slot : bool;
  holds_frame : bool
}.

(** [None]: the operation is not preceded by its successful peek. *)
Definition ring_step (op : FrameOp) (r : Ring) : option Ring :=
  match op with
  | OpPeekWritable s1 s2 =>
      match PeekWritableFromFrameQueue (ring_queue r) s1 s2 with
      | Some _ => Some (mkRing (ring_queue r) true (holds_frame r))
      | None => Some r
      end
  | OpNextWritable =>
      if holds_slot r
      then Some (mkRing (NextWritable (ring_queue r)) false (holds_frame r))
      else None
  | OpPeekReadable s1 s2 =>
      match PeekReadableFromFrameQueue (ring_queue r) s1 s2 with
      | Some _ => Some (mkRing (ring_queue r) (holds_slot r) true)
      | None => Some r
      end
  | OpNextReadable =>
      if holds_frame r
      then Some (mkRing (NextReadable (ring_queue r)) (holds_slot r) false)
      else None
  end.

Fixpoint ring_run (ops : list FrameOp) (r : Ring) : option Ring :=
  match ops with
  | [] => Some r
  | op :: rest =>
      match ring_step op r with
      | Some r' => ring_run rest r'
      | None => None
      end
  end.

(* ================================================================== *)
(** ** Clock *)
(* ================================================================== *)

(** The cells an [int32_t *queueSerial] of a clock points to. *)
Inductive SerialRef : Type :=
| VideoQueueSerial     (* &state.video.decoder.packetsQueue.serial *)
| AudioQueueSerial     (* &state.audio.decoder.packetsQueue.serial *)
| ExternalClockSerial. (* &state.externalClock.serial *)

Module Clock.
Record t := mk {
  pts : double;
  ptsDrift : double;
  lastUpdated : double;
  speed : double;
  queueSerial : SerialRef;
  serial : Z;          (* int32_t *)
  isPaused : bool
}.
End Clock.

Inductive AVSyncType : Type :=
| AudioMaster
| VideoMaster
| ExternalClock.

(** The memory a clock reads through its pointer. *)
Definition Memory := SerialRef -> Z.

Definition GetClock (mem : Memory) (clock : Clock.t) : M double :=
  if negb (mem (Clock.queueSerial clock) =? Clock.serial clock) then ret NAN
  else if Clock.isPaused clock then ret (Clock.pts clock)
  else
    t <- av_gettime_relative ;;
    let time := time_seconds t in
    ret (Clock.ptsDrift clock + time
         - (time - Clock.lastUpdated clock) * (1.0 - Clock.speed clock))%float.

Definition SetClockAt (clock : Clock.t) (pts : double) (serial : Z)
  (time : double) : Clock.t :=
  Clock.mk pts (pts - time)%float time (Clock.speed clock)
    (Clock.queueSerial clock) serial (Clock.isPaused clock).

Definition SetClock (clock : Clock.t) (pts : double) (serial : Z) : M Clock.t :=
  t <- av_gettime_relative ;;
  ret (SetClockAt clock pts serial (time_seconds t)).

Definition with_speed (clock : Clock.t) (speed : double) : Clock.t :=
  Clock.mk (Clock.pts clock) (Clock.ptsDrift clock) (Clock.lastUpdated clock)
    speed (Clock.queueSerial clock) (Clock.serial clock) (Clock.isPaused clock).

Definition with_isPaused (clock : Clock.t) (p : bool) : Clock.t :=
  Clock.mk (Clock.pts clock) (Clock.ptsDrift clock) (Clock.lastUpdated clock)
    (Clock.speed clock) (Clock.queueSerial clock) (Clock.serial clock) p.

(** A clock that points to its own serial reads it back after the write
    in [SetClock]; [mem] is the memory before the call. *)
Definition SetClockSpeed (mem : Memory) (clock : Clock.t) (speed : double)
  : M Clock.t :=
  v <- GetClock mem clock ;;
  c <- SetClock clock v (Clock.serial clock) ;;
  ret (with_speed c speed).

(** [InitClock] writes every field of the clock. *)
Definition InitClock (queueSerial : SerialRef) : M Clock.t :=
  SetClock (Clock.mk 0%float 0%float 0%float 1.0%float queueSerial 0 false)
    NAN (-1).

Definition AV_NOSYNC_THRESHOLD : double := 10.0%float.

Definition SyncClockToSlave (mem : Memory) (c slave : Clock.t) : M Clock.t :=
  clock <- GetClock mem c ;;
  slaveClock <- GetClock mem slave ;;
  if negb (isnan slaveClock)
     && (isnan clock || (AV_NOSYNC_THRESHOLD <? fabs (clock - slaveClock))%float)
  then SetClock c slaveClock (Clock.serial slave)
  else ret c.

(* ================================================================== *)
(** ** Streams, decoders and the player state *)
(* ================================================================== *)

Module AVRational.
Record t := mk { num : Z; den : Z }.
End AVRational.

(** Modelled from the spec: [av_q2d] comes from FFmpeg's headers, which are
    not among the sources; it converts a time base to seconds per unit,
    [a.num / (double) a.den]. *)
Definition av_q2d (a : AVRational.t) : double :=
  (double_of_Z (AVRational.num a) / double_of_Z (AVRational.den a))%float.

Module AVStream.
Record t := mk {
  disposition : Z;
  time_base : AVRational.t;
  avg_frame_rate : AVRational.t
}.
End AVStream.

(** Modelled from the spec: flags of FFmpeg's headers, which are not among
    the sources ([AV_DISPOSITION_ATTACHED_PIC], the seek flags
    [ANY | BYTE | BACKWARD]). *)
Definition AV_DISPOSITION_ATTACHED_PIC : Z := 1024.   (* 0x0400 *)
Definition AVSEEK_FLAG_BACKWARD : Z := 1.
Definition AVSEEK_FLAG_BYTE : Z := 2.
Definition AVSEEK_FLAG_ANY : Z := 4.
(** [AVERROR(ENOSYS)] with the Windows C runtime's [ENOSYS] (40). *)
Definition AVERROR_ENOSYS : Z := -40.

(** [stream] is a pointer: [None] is [nullptr]. *)
Module MediaStream.
Record t := mk {
  stream : option AVStream.t;
  streamIndex : Z;     (* int32_t *)
  isValid : bool
}.
End MediaStream.

Module ReaderContext.
Record t := mk {
  resumeSignal : bool;
  stopRequest : bool;
  isEOF : bool
}.
End ReaderContext.

Module Decoder.
Record t := mk {
  packetsQueue : PacketQueue.t;
  frameQueue : FrameQueue.t;
  resumeSignal : bool;
  stopRequest : bool;
  isEOF : bool;
  pktSerial : Z;        (* int32_t *)
  finishedSerial : Z    (* int32_t *)
}.
End Decoder.

Module VideoContext.
Record t := mk {
  stream : MediaStream.t;
  decoder : Decoder.t;
  clock : Clock.t
}.
End VideoContext.

Module AudioContext.
Record t := mk {
  stream : MediaStream.t;
  decoder : Decoder.t;
  clock : Clock.t;
  audioClock : double;
  audioClockSerial : Z  (* int32_t *)
}.
End AudioContext.

Module SeekState.
Record t := mk {
  pos : Z;         (* int64_t *)
  rel : Z;         (* int64_t *)
  seekFlags : Z;   (* int32_t *)
  isRequired : bool
}.
End SeekState.

(** The fields of [PlayerState] the playback core reads or writes;
    rendering, fonts, settings and the format context are left out. *)
Module PlayerState.
Record t := mk {
  reader : ReaderContext.t;
  video : VideoContext.t;
  audio : AudioContext.t;
  externalClock : Clock.t;
  seek : SeekState.t;
  frameTimer : double;
  maxFrameDuration : double;
  pauseClock : double;
  syncType : AVSyncType;
  loop : Z;              (* int *)
  readPauseReturn : Z;   (* int *)
  step : Z;              (* int *)
  pauseNumFrames : Z;    (* int64_t *)
  isInfiniteBuffer : bool;
  isRealTime : bool;
  isPaused : bool;
  lastPaused : bool;
  seekByBytes : bool
}.
End PlayerState.

Definition video_queue (state : PlayerState.t) : PacketQueue.t :=
  Decoder.packetsQueue (VideoContext.decoder (PlayerState.video state)).

Definition audio_queue (state : PlayerState.t) : PacketQueue.t :=
  Decoder.packetsQueue (AudioContext.decoder (PlayerState.audio state)).

Definition video_clock (state : PlayerState.t) : Clock.t :=
  VideoContext.clock (PlayerState.video state).

Definition audio_clock (state : PlayerState.t) : Clock.t :=
  AudioContext.clock (PlayerState.audio state).

Definition video_valid (state : PlayerState.t) : bool :=
  MediaStream.isValid (VideoContext.stream (PlayerState.video state)).

Definition audio_valid (state : PlayerState.t) : bool :=
  MediaStream.isValid (AudioContext.stream (PlayerState.audio state)).

(** What the three serial cells hold in a player state. *)
Definition load (state : PlayerState.t) : Memory :=
  fun r => match r with
           | VideoQueueSerial => PacketQueue.serial (video_queue state)
           | AudioQueueSerial => PacketQueue.serial (audio_queue state)
           | ExternalClockSerial => Clock.serial (PlayerState.externalClock state)
           end.

(** Field updates. *)
Definition with_decoder_queue (d : Decoder.t) (q : PacketQueue.t) : Decoder.t :=
  Decoder.mk q (Decoder.frameQueue d) (Decoder.resumeSignal d)
    (Decoder.stopRequest d) (Decoder.isEOF d) (Decoder.pktSerial d)
    (Decoder.finishedSerial d).

Definition resume_decoder (d : Decoder.t) : Decoder.t :=
  Decoder.mk (Decoder.packetsQueue d) (Decoder.frameQueue d) true
    (Decoder.stopRequest d) false (Decoder.pktSerial d)
    (Decoder.finishedSerial d).

Definition with_video_decoder (v : VideoContext.t) (d : Decoder.t) : VideoContext.t :=
  VideoContext.mk (VideoContext.stream v) d (VideoContext.clock v).

Definition with_video_clock (v : VideoContext.t) (c : Clock.t) : VideoContext.t :=
  VideoContext.mk (VideoContext.stream v) (VideoContext.decoder v) c.

Definition with_audio_decoder (a : AudioContext.t) (d : Decoder.t) : AudioContext.t :=
  AudioContext.mk (AudioContext.stream a) d (AudioContext.clock a)
    (AudioContext.audioClock a) (AudioContext.audioClockSerial a).

Definition with_audio_clock (a : AudioContext.t) (c : Clock.t) : AudioContext.t :=
  AudioContext.mk (AudioContext.stream a) (AudioContext.decoder a) c
    (AudioContext.audioClock a) (AudioContext.audioClockSerial a).

Definition with_video (state : PlayerState.t) (v : VideoContext.t) : PlayerState.t :=
  let 'PlayerState.mk r _ a e s ft mfd pc sy lo rp stp pnf ib rt ip lp sb := state in
  PlayerState.mk r v a e s ft mfd pc sy lo rp stp pnf ib rt ip lp sb.

Definition with_audio (state : PlayerState.t) (a : AudioContext.t) : PlayerState.t :=
  let 'PlayerState.mk r v _ e s ft mfd pc sy lo rp stp pnf ib rt ip lp sb := state in
  PlayerState.mk r v a e s ft mfd pc sy lo rp stp pnf ib rt ip lp sb.

Definition with_externalClock (state : PlayerState.t) (e : Clock.t) : PlayerState.t :=
  let 'PlayerState.mk r v a _ s ft mfd pc sy lo rp stp pnf ib rt ip lp sb := state in
  PlayerState.mk r v a e s ft mfd pc sy lo rp stp pnf ib rt ip lp sb.

Definition with_reader (state : PlayerState.t) (r : ReaderContext.t) : PlayerState.t :=
  let 'PlayerState.mk _ v a e s ft mfd pc sy lo rp stp pnf ib rt ip lp sb := state in
  PlayerState.mk r v a e s ft mfd pc sy lo rp stp pnf ib rt ip lp sb.

Definition with_seek (state : PlayerState.t) (s : SeekState.t) : PlayerState.t :=
  let 'PlayerState.mk r v a e _ ft mfd pc sy lo rp stp pnf ib rt ip lp sb := state in
  PlayerState.mk r v a e s ft mfd pc sy lo rp stp pnf ib rt ip lp sb.

Definition with_frameTimer (state : PlayerState.t) (ft : double) : PlayerState.t :=
  let 'PlayerState.mk r v a e s _ mfd pc sy lo rp stp pnf ib rt ip lp sb := state in
  PlayerState.mk r v a e s ft mfd pc sy lo rp stp pnf ib rt ip lp sb.

Definition with_step (state : PlayerState.t) (stp : Z) : PlayerState.t :=
  let 'PlayerState.mk r v a e s ft mfd pc sy lo rp _ pnf ib rt ip lp sb := state in
  PlayerState.mk r v a e s ft mfd pc sy lo rp stp pnf ib rt ip lp sb.

Definition with_isPaused_state (state : PlayerState.t) (ip : bool) : PlayerState.t :=
  let 'PlayerState.mk r v a e s ft mfd pc sy lo rp stp pnf ib rt _ lp sb := state in
  PlayerState.mk r v a e s ft mfd pc sy lo rp stp pnf ib rt ip lp sb.

Definition with_pause_record (state : PlayerState.t) (pnf : Z) (pc : double)
  : PlayerState.t :=
  let 'PlayerState.mk r v a e s ft mfd _ sy lo rp stp _ ib rt ip lp sb := state in
  PlayerState.mk r v a e s ft mfd pc sy lo rp stp pnf ib rt ip lp sb.

(* ================================================================== *)
(** ** Master clock, external clock speed and video delay *)
(* ================================================================== *)

Definition MAX_PACKET_QUEUE_SIZE : Z := 16 * 1024 * 1024.
Definition MIN_PACKET_FRAMES : Z := 25.
Definition EXTERNAL_CLOCK_MIN_FRAMES : Z := 2.
Definition EXTERNAL_CLOCK_MAX_FRAMES : Z := 10.
Definition EXTERNAL_CLOCK_SPEED_MIN : double := 0.900%float.
Definition EXTERNAL_CLOCK_SPEED_MAX : double := 1.010%float.
Definition EXTERNAL_CLOCK_SPEED_STEP : double := 0.001%float.
Definition AV_SYNC_THRESHOLD_MIN : double := 0.04%float.
Definition AV_SYNC_THRESHOLD_MAX : double := 0.1%float.
Definition AV_SYNC_FRAMEDUP_THRESHOLD : double := 0.1%float.

(** [None]: the stream pointer is dereferenced while null. The packet
    count is compared with an unsigned constant, hence as [uint32_t]. *)
Definition StreamHasEnoughPackets (stream : option AVStream.t)
  (streamIndex : Z) (queue : PacketQueue.t) : option bool :=
  if streamIndex <? 0 then Some true
  else
    match stream with
    | None => None
    | Some s =>
        Some (negb (Z.land (AVStream.disposition s) AV_DISPOSITION_ATTACHED_PIC =? 0)
              || ((MIN_PACKET_FRAMES <? to_uint32 (PacketQueue.packetCount queue))
                  && ((PacketQueue.duration queue =? 0)
                      || (1.0 <? av_q2d (AVStream.time_base s)
                                 * double_of_Z (PacketQueue.duration queue))%float)))
    end.

Definition GetMasterSyncType (state : PlayerState.t) : AVSyncType :=
  match PlayerState.syncType state with
  | VideoMaster => if video_valid state then VideoMaster else AudioMaster
  | AudioMaster => if audio_valid state then AudioMaster else ExternalClock
  | ExternalClock => ExternalClock
  end.

Definition frame_rate_of (ms : MediaStream.t) : option (option double) :=
  if MediaStream.isValid ms then
    match MediaStream.stream ms with
    | None => None
    | Some s =>
        if negb (AVRational.den (AVStream.avg_frame_rate s) =? 0)
        then Some (Some (av_q2d (AVStream.avg_frame_rate s)))
        else Some None
    end
  else Some None.

(** [None]: a null stream pointer is dereferenced. *)
Definition GetMasterFrameRate (state : PlayerState.t) : option double :=
  match frame_rate_of (VideoContext.stream (PlayerState.video state)) with
  | None => None
  | Some (Some r) => Some r
  | Some None =>
      match frame_rate_of (AudioContext.stream (PlayerState.audio state)) with
      | None => None
      | Some (Some r) => Some r
      | Some None => Some 0.0%float
      end
  end.

Definition GetMasterClock (state : PlayerState.t) : M double :=
  match GetMasterSyncType state with
  | VideoMaster => GetClock (load state) (video_clock state)
  | AudioMaster => GetClock (load state) (audio_clock state)
  | ExternalClock => GetClock (load state) (PlayerState.externalClock state)
  end.

(** The two guards of [UpdateExternalClockSpeed]; the packet counts are
    compared with unsigned constants, hence as [uint32_t]. *)
Definition queue_starved (state : PlayerState.t) : bool :=
  (video_valid state
   && (to_uint32 (PacketQueue.packetCount (video_queue state))
       <=? EXTERNAL_CLOCK_MIN_FRAMES))
  || (audio_valid state
      && (to_uint32 (PacketQueue.packetCount (audio_queue state))
          <=? EXTERNAL_CLOCK_MIN_FRAMES)).

Definition queues_filled (state : PlayerState.t) : bool :=
  (negb (video_valid state)
   || (EXTERNAL_CLOCK_MAX_FRAMES
       <? to_uint32 (PacketQueue.packetCount (video_queue state))))
  && (negb (audio_valid state)
      || (EXTERNAL_CLOCK_MAX_FRAMES
          <? to_uint32 (PacketQueue.packetCount (audio_queue state)))).

Definition set_external_speed (state : PlayerState.t) (speed : double)
  : M PlayerState.t :=
  c <- SetClockSpeed (load state) (PlayerState.externalClock state) speed ;;
  ret (with_externalClock state c).

Definition UpdateExternalClockSpeed (state : PlayerState.t) : M PlayerState.t :=
  let speed := Clock.speed (PlayerState.externalClock state) in
  if queue_starved state then
    set_external_speed state
      (fplMax EXTERNAL_CLOCK_SPEED_MIN (speed - EXTERNAL_CLOCK_SPEED_STEP)%float)
  else if queues_filled state then
    set_external_speed state
      (fplMin EXTERNAL_CLOCK_SPEED_MAX (speed + EXTERNAL_CLOCK_SPEED_STEP)%float)
  else if negb (speed =? 1.0)%float then
    set_external_speed state
      (speed + EXTERNAL_CLOCK_SPEED_STEP * (1.0 - speed) / fabs (1.0 - speed))%float
  else ret state.

Definition GetFrameDuration (state : PlayerState.t) (cur next : Frame.t)
  : double :=
  if Frame.serial cur =? Frame.serial next then
    let duration := (Frame.pts next - Frame.pts cur)%float in
    if isnan duration || (duration <=? 0)%float
       || (PlayerState.maxFrameDuration state <? duration)%float
    then Frame.duration cur
    else duration
  else 0.0%float.

Definition ComputeVideoDelay (state : PlayerState.t) (delay : double)
  : M double :=
  match GetMasterSyncType state with
  | VideoMaster => ret delay
  | _ =>
      videoClock <- GetClock (load state) (video_clock state) ;;
      masterClock <- GetMasterClock state ;;
      let diff := (videoClock - masterClock)%float in
      let syncThreshold :=
        fplMax AV_SYNC_THRESHOLD_MIN (fplMin AV_SYNC_THRESHOLD_MAX delay) in
      if negb (isnan diff)
         && (fabs diff <? PlayerState.maxFrameDuration state)%float
      then
        if (diff <=? - syncThreshold)%float then
          ret (FFMAX 0%float (delay + diff)%float)
        else if (syncThreshold <=? diff)%float
                && (AV_SYNC_FRAMEDUP_THRESHOLD <? delay)%float then
          ret (delay + diff)%float
        else if (syncThreshold <=? diff)%float then
          ret (2 * delay)%float
        else ret delay
      else ret delay
  end.

Definition UpdateVideoClock (state : PlayerState.t) (pts : double) (serial : Z)
  : M PlayerState.t :=
  c <- SetClock (video_clock state) pts serial ;;
  let state := with_video state (with_video_clock (PlayerState.video state) c) in
  e <- SyncClockToSlave (load state) (PlayerState.externalClock state)
         (video_clock state) ;;
  ret (with_externalClock state e).

(** The three [InitClock] calls of [LoadMedia]. *)
Definition init_clocks (state : PlayerState.t) : M PlayerState.t :=
  vc <- InitClock VideoQueueSerial ;;
  ac <- InitClock AudioQueueSerial ;;
  ec <- InitClock ExternalClockSerial ;;
  ret (with_externalClock
         (with_audio
            (with_video state (with_video_clock (PlayerState.video state) vc))
            (AudioContext.mk
               (AudioContext.stream (PlayerState.audio state))
               (AudioContext.decoder (PlayerState.audio state))
               ac
               (AudioContext.audioClock (PlayerState.audio state))
               (-1)))
         ec).

(* ================================================================== *)
(** ** Pause, seek and the reader's steps *)
(* ================================================================== *)

Definition set_paused (state : PlayerState.t) (p : bool) : PlayerState.t :=
  let state := with_isPaused_state state p in
  let state := with_audio state
                 (with_audio_clock (PlayerState.audio state)
                    (with_isPaused (audio_clock state) p)) in
  let state := with_video state
                 (with_video_clock (PlayerState.video state)
                    (with_isPaused (video_clock state) p)) in
  with_externalClock state (with_isPaused (PlayerState.externalClock state) p).

(** [None]: a null stream pointer is dereferenced, or the conversion to
    [int] has no defined result. The macro [fplMax] evaluates its second
    argument, the master clock, a second time when it selects it. *)
Definition StreamTogglePause (state : PlayerState.t) : M (option PlayerState.t) :=
  state <- (if PlayerState.isPaused state then
              t <- av_gettime_relative ;;
              let state :=
                with_frameTimer state
                  (PlayerState.frameTimer state
                   + (time_seconds t - Clock.lastUpdated (video_clock state)))%float in
              let vc :=
                if negb (PlayerState.readPauseReturn state =? AVERROR_ENOSYS)
                then with_isPaused (video_clock state) false
                else video_clock state in
              let state := with_video state (with_video_clock (PlayerState.video state) vc) in
              v <- GetClock (load state) (video_clock state) ;;
              c <- SetClock (video_clock state) v (Clock.serial (video_clock state)) ;;
              ret (with_video state (with_video_clock (PlayerState.video state) c))
            else ret state) ;;
  v <- GetClock (load state) (PlayerState.externalClock state) ;;
  e <- SetClock (PlayerState.externalClock state) v
         (Clock.serial (PlayerState.externalClock state)) ;;
  let state := with_externalClock state e in
  let state := set_paused state (negb (PlayerState.isPaused state)) in
  if PlayerState.isPaused state then
    match GetMasterFrameRate state with
    | None => ret None
    | Some frameRate =>
        let frameRate :=
          if isnan frameRate || (frameRate <? 0)%float then 0%float else frameRate in
        m <- GetMasterClock state ;;
        clockCurrent <- (if (m <? 0.0)%float then ret 0.0%float
                         else GetMasterClock state) ;;
        let clockCurrent :=
          if isnan clockCurrent || (clockCurrent <? 0)%float
          then 0%float else clockCurrent in
        if negb (frameRate =? 0)%float then
          match int_of_double (clockCurrent / (1.0 / frameRate))%float with
          | None => ret None
          | Some n => ret (Some (with_pause_record state n clockCurrent))
          end
        else ret (Some (with_pause_record state 0 clockCurrent))
    end
  else ret (Some state).

Definition SeekStream (state : PlayerState.t) (pos rel : Z) : PlayerState.t :=
  if negb (SeekState.isRequired (PlayerState.seek state)) then
    let flags := if PlayerState.seekByBytes state
                 then Z.lor AVSEEK_FLAG_ANY AVSEEK_FLAG_BYTE
                 else AVSEEK_FLAG_ANY in
    let state := with_seek state (SeekState.mk pos rel flags true) in
    with_reader state
      (ReaderContext.mk true
         (ReaderContext.stopRequest (PlayerState.reader state))
         (ReaderContext.isEOF (PlayerState.reader state)))
  else state.

Definition StepToNextFrame (state : PlayerState.t) : M (option PlayerState.t) :=
  r <- (if PlayerState.isPaused state then StreamTogglePause state
        else ret (Some state)) ;;
  ret (option_map (fun s => with_step s 1) r).

(** The arguments [PacketReadThreadProc] passes to [avformat_seek_file]:
    [(seekMin, seekTarget, seekMax, seekFlags)]. *)
Definition seek_arguments (state : PlayerState.t) : Z * Z * Z * Z :=
  let seek := PlayerState.seek state in
  let seekTarget := SeekState.pos seek in
  let seekMin := if 0 <? SeekState.rel seek
                 then wrap_int64 (wrap_int64 (seekTarget - SeekState.rel seek) + 2)
                 else INT64_MIN in
  let seekMax := if SeekState.rel seek <? 0
                 then wrap_int64 (wrap_int64 (seekTarget - SeekState.rel seek) - 2)
                 else INT64_MAX in
  let seekFlags := if SeekState.rel seek <? 0
                   then Z.lor (SeekState.seekFlags seek) AVSEEK_FLAG_BACKWARD
                   else SeekState.seekFlags seek in
  (seekMin, seekTarget, seekMax, seekFlags).

(** What a successful seek does to one decoder: flush its packet queue,
    push a flush packet, clear its EOF flag and raise its resume signal. *)
Definition flush_decoder (d : Decoder.t) : M Decoder.t :=
  r <- PushFlushPacket (FlushPacketQueue (Decoder.packetsQueue d)) ;;
  ret (resume_decoder (with_decoder_queue d (snd r))).

(** The "Seeking" block of one iteration of [PacketReadThreadProc];
    [seekResult] is what [avformat_seek_file] returned. *)
Definition PacketReadThreadProc_seek (state : PlayerState.t) (seekResult : Z)
  : M (option PlayerState.t) :=
  if SeekState.isRequired (PlayerState.seek state) then
    let seekTarget := SeekState.pos (PlayerState.seek state) in
    state <- (if seekResult <? 0 then ret state
              else
                state <- (if audio_valid state then
                            d <- flush_decoder (AudioContext.decoder (PlayerState.audio state)) ;;
                            ret (with_audio state (with_audio_decoder (PlayerState.audio state) d))
                          else ret state) ;;
                state <- (if video_valid state then
                            d <- flush_decoder (VideoContext.decoder (PlayerState.video state)) ;;
                            ret (with_video state (with_video_decoder (PlayerState.video state) d))
                          else ret state) ;;
                e <- (if negb (Z.land (SeekState.seekFlags (PlayerState.seek state))
                                 AVSEEK_FLAG_BYTE =? 0)
                      then SetClock (PlayerState.externalClock state) NAN 0
                      else SetClock (PlayerState.externalClock state)
                             (double_of_Z seekTarget / double_of_Z AV_TIME_BASE)%float 0) ;;
                ret (with_externalClock state e)) ;;
    let seek := PlayerState.seek state in
    let state := with_seek state
                   (SeekState.mk (SeekState.pos seek) (SeekState.rel seek)
                      (SeekState.seekFlags seek) false) in
    let state := with_reader state
                   (ReaderContext.mk
                      (ReaderContext.resumeSignal (PlayerState.reader state))
                      (ReaderContext.stopRequest (PlayerState.reader state))
                      false) in
    if PlayerState.isPaused state then StepToNextFrame state
    else ret (Some state)
  else ret (Some state).

(** The "Limit the queue?" test of [PacketReadThreadProc]; [None]: a
    null stream pointer is dereferenced. *)
Definition limit_queue (state : PlayerState.t) : option bool :=
  if negb (PlayerState.isInfiniteBuffer state)
     && (MAX_PACKET_QUEUE_SIZE
         <? to_uint64 (PacketQueue.size (audio_queue state)
                       + PacketQueue.size (video_queue state)))
  then Some true
  else
    match StreamHasEnoughPackets
            (MediaStream.stream (AudioContext.stream (PlayerState.audio state)))
            (MediaStream.streamIndex (AudioContext.stream (PlayerState.audio state)))
            (audio_queue state) with
    | None => None
    | Some false => Some false
    | Some true =>
        StreamHasEnoughPackets
          (MediaStream.stream (VideoContext.stream (PlayerState.video state)))
          (MediaStream.streamIndex (VideoContext.stream (PlayerState.video state)))
          (video_queue state)
    end.

(** What the reader does next in an iteration. *)
Inductive ReaderStep : Type :=
| SleepAndContinue (milliseconds : Z)  (* skipWait = true; sleep; continue *)
| ReadOn.                              (* go on to read a packet *)

Definition PacketReadThreadProc_limit (state : PlayerState.t)
  : option ReaderStep :=
  option_map (fun b : bool => if b then SleepAndContinue 10 else ReadOn)
    (limit_queue state).

(* ================================================================== *)
(** ** Sample states and the vocabulary of the properties *)
(* ================================================================== *)

(** *** Sample states *)

(** A world whose clock starts at one second and advances a millisecond
    per reading, and whose allocations all succeed. *)
Definition sample_world : World :=
  mkWorld (fun n => 1000000 + 1000 * Z.of_nat n) 0 (fun _ => true) 0.

Definition zero_queue : PacketQueue.t := PacketQueue.mk [] 0 0 0 0 false false.

Definition zero_frame_queue : FrameQueue.t :=
  FrameQueue.mk (repeat empty_frame 8) 0 0 0 0 0 0 false false.

Definition zero_decoder : Decoder.t :=
  Decoder.mk zero_queue zero_frame_queue false false false (-1) 0.

Definition zero_clock (r : SerialRef) : Clock.t :=
  Clock.mk 0%float 0%float 0%float 0%float r 0 false.

Definition no_stream : MediaStream.t := MediaStream.mk None (-1) false.

Definition sample_stream (index : Z) : MediaStream.t :=
  MediaStream.mk
    (Some (AVStream.mk 0 (AVRational.mk 1 1000) (AVRational.mk 25 1)))
    index true.

(** A player whose streams are [vs] and [as_], before [init_clocks]. *)
Definition blank_player (vs as_ : MediaStream.t) (sync : AVSyncType)
  : PlayerState.t :=
  PlayerState.mk
    (ReaderContext.mk false false false)
    (VideoContext.mk vs zero_decoder (zero_clock VideoQueueSerial))
    (AudioContext.mk as_ zero_decoder (zero_clock AudioQueueSerial) 0%float 0)
    (zero_clock ExternalClockSerial)
    (SeekState.mk 0 0 0 false)
    0%float 3600.0%float 0%float sync 0 0 0 0 false false false false false.

(** The same player once [LoadMedia] has initialised its clocks. *)
Definition loaded_player (vs as_ : MediaStream.t) (sync : AVSyncType)
  : PlayerState.t :=
  fst (init_clocks (blank_player vs as_ sync) sample_world).

(** *** Frame duration *)

(** The gap [d] between two presentation times is usable: not NaN,
    positive and at most [maxFrameDuration]. *)
Definition valid_gap (maxFrameDuration d : double) : bool :=
  negb (isnan d) && (0 <? d)%float && (d <=? maxFrameDuration)%float.

(** The duration as the specification words it: the gap when the serials
    match and the gap is valid, the first frame's duration otherwise. *)
Definition frame_duration_spec (maxFrameDuration : double) (a b : Frame.t)
  : double :=
  let d := (Frame.pts b - Frame.pts a)%float in
  if (Frame.serial a =? Frame.serial b) && valid_gap maxFrameDuration d
  then d else Frame.duration a.

Definition frame_at (pts duration : double) (serial : Z) : Frame.t :=
  Frame.mk (Some 1) pts duration 0 serial 640 480 false.

Arguments frame_at (pts duration)%_float serial%_Z.
Arguments frame_duration_spec maxFrameDuration%_float a b.

(** *** Packet queue: the serial discipline *)

(** The tag of the node at the tail of the queue. *)
Definition last_tag (queue : PacketQueue.t) : option Z :=
  option_map PacketList.serial (last (map Some (PacketQueue.packets queue)) None).

(** The payload of the node at the tail of the queue. *)
Definition last_packet (queue : PacketQueue.t) : option AVPacket.t :=
  option_map PacketList.packet (last (map Some (PacketQueue.packets queue)) None).

(** What one event of a run has to look like. *)
Definition event_disciplined (e : QueueEvent) : Prop :=
  let s := PacketQueue.serial (ev_before e) in
  let s' := PacketQueue.serial (ev_after e) in
  match ev_pushed e with
  | Some p =>
      last_packet (ev_after e) = Some (PacketList.packet p)
      /\ if IsFlushPacket p
         then s' = s + 1 /\ last_tag (ev_after e) = Some (s + 1)
         else s' = s /\ last_tag (ev_after e) = Some s
  | None => s' = s
  end
  /\ match ev_op e with
     | OpFlushPacketQueue =>
         PacketQueue.packets (ev_after e) = []
         /\ PacketQueue.size (ev_after e) = 0
         /\ PacketQueue.duration (ev_after e) = 0
         /\ PacketQueue.packetCount (ev_after e) = 0
     | _ => True
     end.

Definition sample_ops : list QueueOp :=
  [OpStartPacketQueue;
   OpAddPacket (AVPacket.mk (Payload 4096) 1500 40 0 0 0);
   OpPushNullPacket 0;
   OpFlushPacketQueue;
   OpPushFlushPacket;
   OpPopPacket].

(** *** Frame queue: the ring invariants *)

Definition ring_invariant (queue : FrameQueue.t) : Prop :=
  0 <= FrameQueue.count queue <= FrameQueue.capacity queue
  /\ 0 <= FrameQueue.count queue - FrameQueue.readIndexShown queue
  /\ (FrameQueue.readIndexShown queue = 0 \/ FrameQueue.readIndexShown queue = 1).

(** The invariant together with what an outstanding peek guarantees. *)
Definition ring_ok (r : Ring) : Prop :=
  ring_invariant (ring_queue r)
  /\ FrameQueue.capacity (ring_queue r) <= MAX_FRAME_QUEUE_COUNT
  /\ (holds_slot r = true ->
      FrameQueue.count (ring_queue r) < FrameQueue.capacity (ring_queue r))
  /\ (holds_frame r = true ->
      0 < FrameQueue.count (ring_queue r)
          - FrameQueue.readIndexShown (ring_queue r)).

(** The video queue: three frames written, the first shown and released,
    two more written. *)
Definition sample_ring_ops : list FrameOp :=
  [OpPeekWritable false false; OpNextWritable;
   OpPeekWritable false false; OpNextWritable;
   OpPeekReadable false false;
   OpPeekWritable false false; OpNextWritable;
   OpNextReadable;
   OpPeekReadable false false; OpNextReadable;
   OpPeekWritable false false; OpNextWritable;
   OpPeekWritable false false; OpNextWritable].

Definition sample_ring : FrameQueue.t :=
  snd (fst (InitFrameQueue MAX_VIDEO_FRAME_QUEUE_COUNT 1 sample_world)).

(** *** Clocks *)

(** The value [GetClock] computes from a running clock at time [t]. *)
Definition drift_reading (clock : Clock.t) (t : Z) : double :=
  (Clock.ptsDrift clock + time_seconds t
   - (time_seconds t - Clock.lastUpdated clock) * (1.0 - Clock.speed clock))%float.

(** A player with both streams, right after [LoadMedia]. *)
Definition after_load : PlayerState.t :=
  loaded_player (sample_stream 0) (sample_stream 1) AudioMaster.

(** The same player with a byte-based seek to offset 5000 pending. *)
Definition byte_seek_pending : PlayerState.t :=
  with_seek after_load
    (SeekState.mk 5000 0 (Z.lor AVSEEK_FLAG_ANY AVSEEK_FLAG_BYTE) true).

(** ... and once the reader has carried it out successfully. *)
Definition after_byte_seek : option PlayerState.t :=
  fst (PacketReadThreadProc_seek byte_seek_pending 0 sample_world).

Definition external_reading (state : PlayerState.t) : double :=
  fst (GetClock (load state) (PlayerState.externalClock state) sample_world).

(** A video clock anchored at 2.5 s, read while paused, before and after
    the queue's serial has moved on. *)
Definition paused_clock : Clock.t :=
  Clock.mk 2.5%float 1.5%float 1.0%float 1.0%float VideoQueueSerial 3 true.

(** When the specification snaps the clock: its own reading is NaN or the
    two readings are more than [AV_NOSYNC_THRESHOLD] apart. *)
Definition snap_spec (clock slaveClock : double) : bool :=
  isnan clock || (AV_NOSYNC_THRESHOLD <? fabs (clock - slaveClock))%float.

(** When the code snaps it: the other reading must not be NaN either. *)
Definition snap_condition (clock slaveClock : double) : bool :=
  negb (isnan slaveClock) && snap_spec clock slaveClock.

(** The audio queue has seen four flush packets while the audio clock was
    last set for serial 3: the audio clock reads NaN. *)
Definition stale_audio : PlayerState.t :=
  let a := PlayerState.audio after_load in
  with_audio after_load
    (AudioContext.mk
       (AudioContext.stream a)
       (with_decoder_queue (AudioContext.decoder a)
          (snd (fst (run_ops
                       [OpStartPacketQueue; OpPushFlushPacket;
                        OpPushFlushPacket; OpPushFlushPacket]
                       zero_queue sample_world))))
       (SetClockAt (AudioContext.clock a) 1.0%float 3 1.0%float)
       1.0%float 3).

(** *** Video delay *)

(** [x] confined to [[lo, hi]], as the specification writes the sync
    threshold. *)
Definition clamp (x lo hi : double) : double :=
  if (x <? lo)%float then lo else if (hi <? x)%float then hi else x.

(** What [ComputeVideoDelay] returns when the master is not the video
    clock, from the difference of the clocks. *)
Definition corrected_delay (maxFrameDuration delay diff : double) : double :=
  let threshold := clamp delay AV_SYNC_THRESHOLD_MIN AV_SYNC_THRESHOLD_MAX in
  if negb (isnan diff) && (fabs diff <? maxFrameDuration)%float then
    if (diff <=? - threshold)%float then FFMAX 0%float (delay + diff)%float
    else if (threshold <=? diff)%float && (AV_SYNC_FRAMEDUP_THRESHOLD <? delay)%float
         then (delay + diff)%float
    else if (threshold <=? diff)%float then (2 * delay)%float
    else delay
  else delay.

(** Audio is the master; the video clock reads 1.0 s and the audio clock
    1.25 s while both are paused. *)
Definition video_behind : PlayerState.t :=
  let v := PlayerState.video after_load in
  let a := PlayerState.audio after_load in
  with_audio
    (with_video after_load
       (with_video_clock v
          (Clock.mk 1.0%float 0%float 0%float 1.0%float VideoQueueSerial 0 true)))
    (with_audio_clock a
       (Clock.mk 1.25%float 0%float 0%float 1.0%float AudioQueueSerial 0 true)).

(** *** The reader's back-pressure gate *)

Definition attached_pic (s : AVStream.t) : bool :=
  negb (Z.land (AVStream.disposition s) AV_DISPOSITION_ATTACHED_PIC =? 0).

(** The queued duration in seconds. *)
Definition queued_seconds (s : AVStream.t) (queue : PacketQueue.t) : double :=
  (av_q2d (AVStream.time_base s) * double_of_Z (PacketQueue.duration queue))%float.

(** "Enough packets" as the specification words it: an invalid index, an
    attached picture, or at least 25 packets and at least one second. *)
Definition enough_spec (s : AVStream.t) (streamIndex : Z) (queue : PacketQueue.t)
  : bool :=
  (streamIndex <? 0)
  || attached_pic s
  || ((MIN_PACKET_FRAMES <=? PacketQueue.packetCount queue)
      && (1.0 <=? queued_seconds s queue)%float).

(** The gate as the specification words it. *)
Definition gate_spec (sa sv : AVStream.t) (state : PlayerState.t) : bool :=
  (MAX_PACKET_QUEUE_SIZE
   <? PacketQueue.size (audio_queue state) + PacketQueue.size (video_queue state))
  || (enough_spec sa
        (MediaStream.streamIndex (AudioContext.stream (PlayerState.audio state)))
        (audio_queue state)
      && enough_spec sv
           (MediaStream.streamIndex (VideoContext.stream (PlayerState.video state)))
           (video_queue state)).

(** "Enough packets" as the code has it: more than 25 packets, and a
    queued duration that is zero or more than one second. *)
Definition enough_packets (ms : MediaStream.t) (queue : PacketQueue.t) : bool :=
  (MediaStream.streamIndex ms <? 0)
  || match MediaStream.stream ms with
     | Some s =>
         attached_pic s
         || ((MIN_PACKET_FRAMES <? to_uint32 (PacketQueue.packetCount queue))
             && ((PacketQueue.duration queue =? 0)
                 || (1.0 <? queued_seconds s queue)%float))
     | None => false
     end.

(** The gate as the code has it: the byte budget only counts when the
    buffer is not infinite. *)
Definition gate (state : PlayerState.t) : bool :=
  (negb (PlayerState.isInfiniteBuffer state)
   && (MAX_PACKET_QUEUE_SIZE
       <? to_uint64 (PacketQueue.size (audio_queue state)
                     + PacketQueue.size (video_queue state))))
  || (enough_packets (AudioContext.stream (PlayerState.audio state))
        (audio_queue state)
      && enough_packets (VideoContext.stream (PlayerState.video state))
           (video_queue state)).

(** What [OpenStreamComponent] establishes: a stream with a valid index
    has its [AVStream]. *)
Definition stream_opened (ms : MediaStream.t) : Prop :=
  MediaStream.streamIndex ms < 0 \/ MediaStream.stream ms <> None.

(** A queue that received [n] packets of 1500 bytes and 80 ms each. *)
Definition queue_of (n : nat) : PacketQueue.t :=
  snd (fst (run_ops (repeat (OpAddPacket (AVPacket.mk (Payload 4096) 1500 80 0 0 0)) n)
              zero_queue sample_world)).

Definition sample_avstream : AVStream.t :=
  AVStream.mk 0 (AVRational.mk 1 1000) (AVRational.mk 25 1).

(** Both queues hold exactly 25 packets, two seconds of media. *)
Definition both_at_25 : PlayerState.t :=
  let v := PlayerState.video after_load in
  let a := PlayerState.audio after_load in
  with_audio
    (with_video after_load
       (with_video_decoder v (with_decoder_queue (VideoContext.decoder v) (queue_of 25))))
    (with_audio_decoder a (with_decoder_queue (AudioContext.decoder a) (queue_of 25))).

(** Both queues hold 26 packets, 2.08 seconds of media. *)
Definition both_at_26 : PlayerState.t :=
  let v := PlayerState.video after_load in
  let a := PlayerState.audio after_load in
  with_audio
    (with_video after_load
       (with_video_decoder v (with_decoder_queue (VideoContext.decoder v) (queue_of 26))))
    (with_audio_decoder a (with_decoder_queue (AudioContext.decoder a) (queue_of 26))).

(** *** A failed seek *)

(** The state a failed seek leaves behind when the player is running:
    the request is cleared and so is the reader's EOF flag. *)
Definition seek_request_cleared (state : PlayerState.t) : PlayerState.t :=
  let seek := PlayerState.seek state in
  let state := with_seek state
                 (SeekState.mk (SeekState.pos seek) (SeekState.rel seek)
                    (SeekState.seekFlags seek) false) in
  with_reader state
    (ReaderContext.mk
       (ReaderContext.resumeSignal (PlayerState.reader state))
       (ReaderContext.stopRequest (PlayerState.reader state))
       false).

(** The parts of the player a pause toggle never touches. *)
Definition same_decoders (s s' : PlayerState.t) : Prop :=
  VideoContext.decoder (PlayerState.video s') = VideoContext.decoder (PlayerState.video s)
  /\ AudioContext.decoder (PlayerState.audio s') = AudioContext.decoder (PlayerState.audio s)
  /\ PlayerState.seek s' = PlayerState.seek s
  /\ PlayerState.reader s' = PlayerState.reader s.

(** A running player that has reached the end of the file and is asked
    to seek to the fifth second. *)
Definition seek_pending_at_eof : PlayerState.t :=
  with_reader
    (with_seek after_load (SeekState.mk 5000000 0 AVSEEK_FLAG_ANY true))
    (ReaderContext.mk false false true).

(** *** External clock speed *)

(** The three adjustments of the speed. *)
Definition slow_down (speed : double) : double :=
  fplMax EXTERNAL_CLOCK_SPEED_MIN (speed - EXTERNAL_CLOCK_SPEED_STEP)%float.

Definition speed_up (speed : double) : double :=
  fplMin EXTERNAL_CLOCK_SPEED_MAX (speed + EXTERNAL_CLOCK_SPEED_STEP)%float.

Definition nudge (speed : double) : double :=
  if negb (speed =? 1.0)%float
  then (speed + EXTERNAL_CLOCK_SPEED_STEP * (1.0 - speed) / fabs (1.0 - speed))%float
  else speed.

(** "Either queue holds at most two packets", as the specification words
    the first case. *)
Definition starved_spec (state : PlayerState.t) : bool :=
  (PacketQueue.packetCount (video_queue state) <=? EXTERNAL_CLOCK_MIN_FRAMES)
  || (PacketQueue.packetCount (audio_queue state) <=? EXTERNAL_CLOCK_MIN_FRAMES).

(** The first case as the code has it: a starved queue of a valid stream. *)
Definition starved (state : PlayerState.t) : bool :=
  (video_valid state
   && (PacketQueue.packetCount (video_queue state) <=? EXTERNAL_CLOCK_MIN_FRAMES))
  || (audio_valid state
      && (PacketQueue.packetCount (audio_queue state) <=? EXTERNAL_CLOCK_MIN_FRAMES)).

(** The second case: every valid stream has more than ten packets queued. *)
Definition filled (state : PlayerState.t) : bool :=
  (negb (video_valid state)
   || (EXTERNAL_CLOCK_MAX_FRAMES <? PacketQueue.packetCount (video_queue state)))
  && (negb (audio_valid state)
      || (EXTERNAL_CLOCK_MAX_FRAMES <? PacketQueue.packetCount (audio_queue state))).

Definition next_speed (state : PlayerState.t) : double :=
  let speed := Clock.speed (PlayerState.externalClock state) in
  if starved state then slow_down speed
  else if filled state then speed_up speed
  else nudge speed.

Definition external_speed (state : PlayerState.t) : double :=
  Clock.speed (PlayerState.externalClock state).

(** The speeds the external clock takes when it starts at 1.0 and is only
    changed by [UpdateExternalClockSpeed]. *)
Inductive speed_reachable : double -> Prop :=
| speed_initial : speed_reachable 1.0%float
| speed_updated (state : PlayerState.t) (w : World) :
    speed_reachable (external_speed state) ->
    speed_reachable (external_speed (fst (UpdateExternalClockSpeed state w))).

Definition memb (x : double) (l : list double) : bool :=
  existsb (fun y => PrimFloat.Leibniz.eqb x y) l.

Fixpoint add_new (xs seen fresh : list double) : list double * list double :=
  match xs with
  | [] => (seen, fresh)
  | x :: r => if memb x seen then add_new r seen fresh
              else add_new r (x :: seen) (x :: fresh)
  end.

(** Breadth-first closure of [frontier] under the three adjustments. *)
Fixpoint speed_closure (fuel : nat) (seen frontier : list double) : list double :=
  match fuel with
  | O => seen
  | S fuel' =>
      match frontier with
      | [] => seen
      | _ =>
          let next := flat_map (fun s => [slow_down s; speed_up s; nudge s]) frontier in
          let (seen', fresh) := add_new next seen [] in
          speed_closure fuel' seen' fresh
      end
  end.

Definition reachable_speeds : list double :=
  Eval vm_compute in speed_closure 1000 [1.0%float] [1.0%float].

Definition speeds_closed (l : list double) : bool :=
  forallb (fun s => memb (slow_down s) l && memb (speed_up s) l && memb (nudge s) l) l.

Definition speeds_bounded (l : list double) : bool :=
  forallb (fun s => (EXTERNAL_CLOCK_SPEED_MIN <=? s)%float
                    && (s <=? EXTERNAL_CLOCK_SPEED_MAX)%float) l.

(** A player of an audio-only stream: no video stream and an empty video
    queue, twenty audio packets queued, the external clock at speed 1.0. *)
Definition audio_only : PlayerState.t :=
  let s := loaded_player no_stream (sample_stream 0) ExternalClock in
  let a := PlayerState.audio s in
  with_audio s
    (with_audio_decoder a (with_decoder_queue (AudioContext.decoder a) (queue_of 20))).

(** *** Packet queue: accounting, tags and the decoder's packet fetch *)

(** The bytes [PushPacket] and [PopPacket] book for a node. *)
Definition node_bytes (p : PacketList.t) : Z :=
  AVPacket.size (PacketList.packet p) + sizeof_PacketList.

Definition total_bytes (l : list PacketList.t) : Z :=
  fold_right (fun p acc => node_bytes p + acc) 0 l.

Definition total_duration (l : list PacketList.t) : Z :=
  fold_right (fun p acc => AVPacket.duration (PacketList.packet p) + acc) 0 l.

(** The aggregates of the queue agree with the nodes it holds. *)
Definition accounted (queue : PacketQueue.t) : Prop :=
  PacketQueue.size queue = to_uint64 (total_bytes (PacketQueue.packets queue))
  /\ PacketQueue.duration queue
     = to_uint64 (total_duration (PacketQueue.packets queue))
  /\ PacketQueue.packetCount queue
     = wrap_int32 (Z.of_nat (length (PacketQueue.packets queue))).

(** Tags never decrease from head to tail, and a flush packet's tag is
    greater than the tag of every node queued before it. *)
Fixpoint tags_ordered (l : list PacketList.t) : Prop :=
  match l with
  | [] => True
  | p :: rest =>
      Forall (fun x => PacketList.serial p <= PacketList.serial x
                       /\ (IsFlushPacket x = true ->
                           PacketList.serial p < PacketList.serial x)) rest
      /\ tags_ordered rest
  end.

(** The serial barrier of a queue: ordered tags, none beyond the queue's
    serial, and the tail node tagged with the queue's serial. *)
Definition barrier (queue : PacketQueue.t) : Prop :=
  tags_ordered (PacketQueue.packets queue)
  /\ Forall (fun x => PacketList.serial x <= PacketQueue.serial queue)
       (PacketQueue.packets queue)
  /\ (PacketQueue.packets queue = []
      \/ last_tag queue = Some (PacketQueue.serial queue)).

(** The packet fetch of [DecodeFrame]:
    [do { take the pending packet, or pop one and adopt its serial }
     while (queue.serial != pktSerial)].
    [pending] is [frameQueue.pendingPacket] when [hasPendingPacket] is set.
    The result is the packet the loop leaves in [pkt] ([None]: the queue ran
    empty and [DecodeFrame] returns [RequireMorePackets]), the queue and
    [pktSerial] afterwards. One packet leaves the queue per iteration, so
    the loop is a recursion on the queued nodes. *)
Fixpoint fetch_from (nodes : list PacketList.t) (queue : PacketQueue.t)
  (pktSerial : Z) : option PacketList.t * PacketQueue.t * Z :=
  match nodes with
  | [] => (None, queue, pktSerial)
  | _ :: rest =>
      match PopPacket queue with
      | None => (None, queue, pktSerial)
      | Some (pkt, queue') =>
          let pktSerial' := PacketList.serial pkt in
          if negb (PacketQueue.serial queue' =? pktSerial')
          then fetch_from rest queue' pktSerial'
          else (Some pkt, queue', pktSerial')
      end
  end.

Definition fetch_packet (pending : option PacketList.t)
  (queue : PacketQueue.t) (pktSerial : Z)
  : option PacketList.t * PacketQueue.t * Z :=
  match pending with
  | Some pkt =>
      if negb (PacketQueue.serial queue =? pktSerial)
      then fetch_from (PacketQueue.packets queue) queue pktSerial
      else (Some pkt, queue, pktSerial)
  | None => fetch_from (PacketQueue.packets queue) queue pktSerial
  end.

(** A queue holding two data packets of serial 1, then a flush packet and
    a data packet of serial 2. *)
Definition queue_across_flush : PacketQueue.t :=
  snd (fst (run_ops
              [OpStartPacketQueue;
               OpAddPacket (AVPacket.mk (Payload 4096) 1500 40 0 0 0);
               OpAddPacket (AVPacket.mk (Payload 8192) 900 40 0 40 40);
               OpPushFlushPacket;
               OpAddPacket (AVPacket.mk (Payload 12288) 700 40 0 5000 5000);
               OpPopPacket]
              zero_queue sample_world)).

(** *** Frame queue: slots and the frames they hold *)

(** A decoded [AVFrame] as the decoders hand it over: the buffer it
    references and the fields [QueueSamples] reads. *)
Module AVFrame.
Record t := mk {
  buffer : option Z;
  pts : Z;           (* int64_t *)
  pkt_pos : Z;       (* int64_t *)
  nb_samples : Z;    (* int *)
  sample_rate : Z    (* int *)
}.
End AVFrame.

(** [AddFrameToDecoder]: [av_frame_move_ref] hands the source's buffer to
    the slot's [AVFrame], then [NextWritable]. *)
Definition AddFrameToDecoder (queue : FrameQueue.t) (slot : Z)
  (srcFrame : AVFrame.t) : FrameQueue.t :=
  NextWritable
    (FrameQueue.mk
       (update_nth (Z.to_nat slot)
          (fun f => Frame.mk (AVFrame.buffer srcFrame) (Frame.pts f)
                      (Frame.duration f) (Frame.pos f) (Frame.serial f)
                      (Frame.width f) (Frame.height f) (Frame.isUploaded f))
          (FrameQueue.frames queue))
       (FrameQueue.readIndex queue) (FrameQueue.writeIndex queue)
       (FrameQueue.count queue) (FrameQueue.capacity queue)
       (FrameQueue.keepLast queue) (FrameQueue.readIndexShown queue)
       (FrameQueue.signal queue) (FrameQueue.isValid queue)).

(** What [QueueSamples] writes into the target slot before it hands the
    buffer over. *)
Definition samples_frame (sourceFrame : AVFrame.t) (serial : Z) (f : Frame.t)
  : Frame.t :=
  Frame.mk (Frame.frame f)
    (if AVFrame.pts sourceFrame =? AV_NOPTS_VALUE then NAN
     else (double_of_Z (AVFrame.pts sourceFrame)
           * av_q2d (AVRational.mk 1 (AVFrame.sample_rate sourceFrame)))%float)
    (av_q2d (AVRational.mk (AVFrame.nb_samples sourceFrame)
               (AVFrame.sample_rate sourceFrame)))
    (AVFrame.pkt_pos sourceFrame)
    serial
    (Frame.width f) (Frame.height f) (Frame.isUploaded f).

(** [QueueSamples] on the slot [PeekWritableFromFrameQueue] returned. *)
Definition QueueSamples (queue : FrameQueue.t) (sourceFrame : AVFrame.t)
  (slot : Z) (serial : Z) : FrameQueue.t :=
  AddFrameToDecoder
    (FrameQueue.mk
       (update_nth (Z.to_nat slot) (samples_frame sourceFrame serial)
          (FrameQueue.frames queue))
       (FrameQueue.readIndex queue) (FrameQueue.writeIndex queue)
       (FrameQueue.count queue) (FrameQueue.capacity queue)
       (FrameQueue.keepLast queue) (FrameQueue.readIndexShown queue)
       (FrameQueue.signal queue) (FrameQueue.isValid queue))
    slot sourceFrame.

(** The frame [QueueSamples] leaves in the slot. *)
Definition queued_samples (sourceFrame : AVFrame.t) (serial : Z) (f : Frame.t)
  : Frame.t :=
  let g := samples_frame sourceFrame serial f in
  Frame.mk (AVFrame.buffer sourceFrame) (Frame.pts g) (Frame.duration g)
    (Frame.pos g) (Frame.serial g) (Frame.width g) (Frame.height g)
    (Frame.isUploaded g).

(** The slots that hold the [count] frames of the queue, oldest first. *)
Definition held_slots (queue : FrameQueue.t) : list Z :=
  map (fun k => (FrameQueue.readIndex queue + Z.of_nat k)
                mod FrameQueue.capacity queue)
    (seq 0 (Z.to_nat (FrameQueue.count queue))).

Definition slot_frame (queue : FrameQueue.t) (slot : Z) : Frame.t :=
  nth (Z.to_nat slot) (FrameQueue.frames queue) empty_frame.

(** The frames of the queue, oldest first. *)
Definition held_frames (queue : FrameQueue.t) : list Frame.t :=
  map (slot_frame queue) (held_slots queue).

(** The indices are slots of the ring, and the write index is [count]
    slots after the read index. *)
Definition ring_indexed (queue : FrameQueue.t) : Prop :=
  0 < FrameQueue.capacity queue <= Z.of_nat (length (FrameQueue.frames queue))
  /\ 0 <= FrameQueue.readIndex queue < FrameQueue.capacity queue
  /\ 0 <= FrameQueue.writeIndex queue < FrameQueue.capacity queue
  /\ FrameQueue.writeIndex queue
     = (FrameQueue.readIndex queue + FrameQueue.count queue)
       mod FrameQueue.capacity queue.

(** An audio frame of 1024 samples at 48 kHz. *)
Definition sample_avframe (id pts : Z) : AVFrame.t :=
  AVFrame.mk (Some id) pts 0 1024 48000.

(** The audio ring after three frames were queued and the first was shown
    and released. *)
Definition audio_ring : FrameQueue.t :=
  let q0 := snd (fst (InitFrameQueue MAX_AUDIO_FRAME_QUEUE_COUNT 1 sample_world)) in
  let q1 := QueueSamples q0 (sample_avframe 1 0) (FrameQueue.writeIndex q0) 1 in
  let q2 := QueueSamples q1 (sample_avframe 2 1024) (FrameQueue.writeIndex q1) 1 in
  let q3 := QueueSamples q2 (sample_avframe 3 2048) (FrameQueue.writeIndex q2) 1 in
  NextReadable (NextReadable q3).

(** *** Seeking *)

(** The target of a seek lies inside the window handed to
    [avformat_seek_file]. *)
Definition target_in_window (arguments : Z * Z * Z * Z) : Prop :=
  let '(seekMin, seekTarget, seekMax, _) := arguments in
  seekMin <= seekTarget <= seekMax.

(** A player asked to seek 10 s forward to the 15th second. *)
Definition forward_seek : PlayerState.t :=
  SeekStream after_load 15000000 10000000.

(** *** Pausing and resuming *)

(** What re-anchoring a clock keeps of it. *)
Definition clock_kept (c c' : Clock.t) : Prop :=
  Clock.serial c' = Clock.serial c
  /\ Clock.queueSerial c' = Clock.queueSerial c
  /\ Clock.speed c' = Clock.speed c.

(** What a pause toggle keeps of the player: the decoders, the seek
    request, the reader, the streams, the synchronisation settings, and of
    each clock its serial, its pointer and its speed. *)
Definition pause_frame (s s' : PlayerState.t) : Prop :=
  same_decoders s s'
  /\ VideoContext.stream (PlayerState.video s')
     = VideoContext.stream (PlayerState.video s)
  /\ AudioContext.stream (PlayerState.audio s')
     = AudioContext.stream (PlayerState.audio s)
  /\ PlayerState.syncType s' = PlayerState.syncType s
  /\ PlayerState.step s' = PlayerState.step s
  /\ clock_kept (video_clock s) (video_clock s')
  /\ clock_kept (audio_clock s) (audio_clock s')
  /\ clock_kept (PlayerState.externalClock s) (PlayerState.externalClock s').

(** The player's pause flag and the flags of its three clocks are [p]. *)
Definition pause_flags (s : PlayerState.t) (p : bool) : Prop :=
  PlayerState.isPaused s = p
  /\ Clock.isPaused (video_clock s) = p
  /\ Clock.isPaused (audio_clock s) = p
  /\ Clock.isPaused (PlayerState.externalClock s) = p.

(** A decomposed double that is not a negative finite number. *)
Definition not_negative (x : spec_float) : Prop :=
  match x with
  | S754_finite true _ _ => False
  | _ => True
  end.

(** The freshly loaded player, paused by the user. *)
Definition paused_player : option PlayerState.t :=
  fst (StreamTogglePause after_load sample_world).

(** *** A successful seek *)

(** The packet queue of a decoder after a seek: nothing but the flush
    packet, tagged with the serial that follows the old one. *)
Definition seek_flushed (queue : PacketQueue.t) : PacketQueue.t :=
  PacketQueue.mk
    [PacketList.mk globalFlushPacket (PacketQueue.serial queue + 1)]
    sizeof_PacketList 0 1 (PacketQueue.serial queue + 1)
    true (PacketQueue.freeSignal queue).

(** The decoder woken up on the queue [queue]. *)
Definition restarted (d : Decoder.t) (queue : PacketQueue.t) : Decoder.t :=
  Decoder.mk queue (Decoder.frameQueue d) true (Decoder.stopRequest d) false
    (Decoder.pktSerial d) (Decoder.finishedSerial d).

(** What the seek leaves of a decoder's queue when the flush packet could
    ([ok]) or could not be allocated. *)
Definition queue_after_seek (ok : bool) (queue : PacketQueue.t) : PacketQueue.t :=
  if ok then seek_flushed queue else FlushPacketQueue queue.

(** The world after one more allocation. *)
Definition allocated (w : World) : World :=
  mkWorld (gettime w) (time_calls w) (alloc_ok w) (S (alloc_calls w)).

(** A running player with a seek to the fifth second pending, whose
    clocks were last set for serial 0 of their queues. *)
Definition seek_pending_running : PlayerState.t :=
  with_seek video_behind (SeekState.mk 5000000 0 AVSEEK_FLAG_ANY true).

(** *** External clock speed: settling *)

(** [n] refreshes in a row, each calling [UpdateExternalClockSpeed]. *)
Fixpoint refreshes (n : nat) (state : PlayerState.t) : M PlayerState.t :=
  match n with
  | O => ret state
  | S k => s <- UpdateExternalClockSpeed state ;; refreshes k s
  end.

Fixpoint nudges (n : nat) (speed : double) : double :=
  match n with
  | O => speed
  | S k => nudges k (nudge speed)
  end.

Definition distinct (l : list double) : list double :=
  fold_right (fun x acc => if memb x acc then acc else x :: acc) [] l.

(** Where the reachable speeds are after a hundred nudges. *)
Definition settled_speeds : list double :=
  Eval vm_compute in distinct (map (nudges 100) reachable_speeds).

Definition speeds_settle (l : list double) : bool :=
  forallb (fun s => memb (nudges 100 s) settled_speeds) l.

(** The settled speeds are closed under a nudge, lie within a step of 1.0
    and come back after two nudges. *)
Definition speeds_settled (l : list double) : bool :=
  forallb (fun s => memb (nudge s) l
                    && (0.999 <=? s)%float && (s <=? 1.001)%float
                    && PrimFloat.Leibniz.eqb (nudge (nudge s)) s) l.

(** The audio-only player after eleven refreshes with a full queue, its
    queue back at five packets: the speed is at its upper bound. *)
Definition sped_up : PlayerState.t :=
  let s := fst (refreshes 11 audio_only sample_world) in
  let a := PlayerState.audio s in
  with_audio s
    (with_audio_decoder a (with_decoder_queue (AudioContext.decoder a) (queue_of 5))).

(** *** Flipping a picture *)

(** Arithmetic on [int] whose overflow has no defined result. *)
Definition checked_int (z : Z) : option Z :=
  if (INT32_MIN <=? z) && (z <=? INT32_MAX) then Some z else None.

(** [a / b] on [int]: truncation toward zero; no result for [b == 0] and
    for [INT_MIN / -1]. *)
Definition int_div (a b : Z) : option Z :=
  if b =? 0 then None else checked_int (Z.quot a b).

(** The index [h] of the last row of a plane whose line size is [hi],
    where the first plane's line size is [h0]. *)
Definition last_row (h0 hi height : Z) : option Z :=
  if negb (hi =? h0) then
    match int_div h0 hi with
    | Some div =>
        match int_div height div with
        | Some q => checked_int (q - 1)
        | None => None
        end
    | None => None
    end
  else checked_int (height - 1).

(** The loop of [FlipSourcePicture] from plane [8 - n] on. A plane is its
    [srcData] pointer (an address) and its [srcLineSize]; [None]: an
    operation without defined result, or a read past the arrays. *)
Fixpoint flip_planes (n : nat) (h0 height : Z) (planes : list (Z * Z))
  : option (list (Z * Z)) :=
  match n with
  | O => Some planes
  | S k =>
      match planes with
      | [] => None
      | (data, hi) :: rest =>
          if hi =? 0 then Some planes
          else
            match last_row h0 hi height with
            | None => None
            | Some h =>
                match checked_int (hi * h), checked_int (- hi) with
                | Some offset, Some flipped =>
                    match flip_planes k h0 height rest with
                    | Some rest' => Some ((data + offset, flipped) :: rest')
                    | None => None
                    end
                | _, _ => None
                end
            end
      end
  end.

Definition FlipSourcePicture (planes : list (Z * Z)) (height : Z)
  : option (list (Z * Z)) :=
  match planes with
  | [] => None
  | (_, h0) :: _ => flip_planes 8 h0 height planes
  end.

(** The three planes of a 640x480 YUV 4:2:0 picture at address 4096. *)
Definition yuv420_planes : list (Z * Z) :=
  [(4096, 640); (311296, 320); (388096, 320);
   (0, 0); (0, 0); (0, 0); (0, 0); (0, 0)].

(** *** Audio synchronisation *)

Definition AV_AUDIO_DIFF_AVG_NB : Z := 20.
Definition AV_SAMPLE_CORRECTION_PERCENT_MAX : Z := 10.

(** The fields of [AudioContext] that only [SyncronizeAudio] reads or
    writes, with the sample rate of [audioSource] ([uint32_t]). *)
Module AudioSync.
Record t := mk {
  audioDiffAvgCount : Z;      (* int32_t *)
  audioDiffCum : double;
  audioDiffAbgCoef : double;
  audioDiffThreshold : double;
  sampleRate : Z              (* uint32_t *)
}.
End AudioSync.

(** Modelled from the spec: [av_clip] comes from FFmpeg's headers, which
    are not among the sources; it clips [a] into [amin .. amax]. *)
Definition av_clip (a amin amax : Z) : Z :=
  if a <? amin then amin else if amax <? a then amax else a.

(** [None]: the conversion of the correction to [int] has no defined
    result. The sample count is a [uint32_t], so the sums and products
    with it are computed modulo 2^32 before they are stored in an [int].
    The audio clock is read before the master clock. *)
Definition SyncronizeAudio (state : PlayerState.t) (sync : AudioSync.t)
  (sampleCount : Z) : M (option (Z * AudioSync.t)) :=
  let result := wrap_int32 sampleCount in
  match GetMasterSyncType state with
  | AudioMaster => ret (Some (result, sync))
  | _ =>
      audioClock <- GetClock (load state) (audio_clock state) ;;
      masterClock <- GetMasterClock state ;;
      let diff := (audioClock - masterClock)%float in
      if negb (isnan diff) && (fabs diff <? AV_NOSYNC_THRESHOLD)%float then
        let cum := (diff + AudioSync.audioDiffAbgCoef sync
                           * AudioSync.audioDiffCum sync)%float in
        let sync := AudioSync.mk (AudioSync.audioDiffAvgCount sync) cum
                      (AudioSync.audioDiffAbgCoef sync)
                      (AudioSync.audioDiffThreshold sync)
                      (AudioSync.sampleRate sync) in
        if AudioSync.audioDiffAvgCount sync <? AV_AUDIO_DIFF_AVG_NB then
          ret (Some (result,
                     AudioSync.mk
                       (wrap_int32 (AudioSync.audioDiffAvgCount sync + 1)) cum
                       (AudioSync.audioDiffAbgCoef sync)
                       (AudioSync.audioDiffThreshold sync)
                       (AudioSync.sampleRate sync)))
        else
          let avgDiff := (cum * (1.0 - AudioSync.audioDiffAbgCoef sync))%float in
          if (AudioSync.audioDiffThreshold sync <=? fabs avgDiff)%float then
            match int_of_double
                    (diff * double_of_Z (AudioSync.sampleRate sync))%float with
            | None => ret None
            | Some correction =>
                let result := wrap_int32 (to_uint32 (sampleCount + correction)) in
                let min_nb_samples :=
                  wrap_int32
                    (to_uint32 (sampleCount
                                * (100 - AV_SAMPLE_CORRECTION_PERCENT_MAX)) / 100) in
                let max_nb_samples :=
                  wrap_int32
                    (to_uint32 (sampleCount
                                * (100 + AV_SAMPLE_CORRECTION_PERCENT_MAX)) / 100) in
                ret (Some (av_clip result min_nb_samples max_nb_samples, sync))
            end
          else ret (Some (result, sync))
      else
        ret (Some (result,
                   AudioSync.mk 0 0%float
                     (AudioSync.audioDiffAbgCoef sync)
                     (AudioSync.audioDiffThreshold sync)
                     (AudioSync.sampleRate sync)))
  end.

(** A filter that has seen its twenty measures, with a difference of
    a quarter second accumulated, at 48 kHz. *)
Definition measured_sync : AudioSync.t :=
  AudioSync.mk 20 0.25%float 0.794%float 0.02%float 48000.

(** The video clock 0.25 s behind the audio clock, the video being the
    master. *)
Definition audio_ahead : PlayerState.t :=
  let 'PlayerState.mk r v a e s ft mfd pc _ lo rp stp pnf ib rt ip lp sb :=
    video_behind in
  PlayerState.mk r v a e s ft mfd pc VideoMaster lo rp stp pnf ib rt ip lp sb.

(** *** Sample formats *)

(** Modelled from the spec: the two enumerations are declared in headers
    that are not among the sources. The constructors are the values the
    switches of [MapAudioFormatType], [MapAVSampleFormat] and
    [IsPlanarAVSampleFormat] name; [..._other] stands for any other value
    of the enumeration. *)
Inductive fplAudioFormatType : Type :=
| fplAudioFormatType_None
| fplAudioFormatType_U8
| fplAudioFormatType_S16
| fplAudioFormatType_S32
| fplAudioFormatType_S64
| fplAudioFormatType_F32
| fplAudioFormatType_F64
| fplAudioFormatType_other.

Inductive AVSampleFormat : Type :=
| AV_SAMPLE_FMT_NONE
| AV_SAMPLE_FMT_U8
| AV_SAMPLE_FMT_S16
| AV_SAMPLE_FMT_S32
| AV_SAMPLE_FMT_S64
| AV_SAMPLE_FMT_FLT
| AV_SAMPLE_FMT_DBL
| AV_SAMPLE_FMT_U8P
| AV_SAMPLE_FMT_S16P
| AV_SAMPLE_FMT_S32P
| AV_SAMPLE_FMT_S64P
| AV_SAMPLE_FMT_FLTP
| AV_SAMPLE_FMT_DBLP
| AV_SAMPLE_FMT_other.

Definition MapAudioFormatType (format : fplAudioFormatType) : AVSampleFormat :=
  match format with
  | fplAudioFormatType_U8 => AV_SAMPLE_FMT_U8
  | fplAudioFormatType_S16 => AV_SAMPLE_FMT_S16
  | fplAudioFormatType_S32 => AV_SAMPLE_FMT_S32
  | fplAudioFormatType_F32 => AV_SAMPLE_FMT_FLT
  | fplAudioFormatType_F64 => AV_SAMPLE_FMT_DBL
  | _ => AV_SAMPLE_FMT_NONE
  end.

Definition MapAVSampleFormat (format : AVSampleFormat) : fplAudioFormatType :=
  match format with
  | AV_SAMPLE_FMT_U8 | AV_SAMPLE_FMT_U8P => fplAudioFormatType_U8
  | AV_SAMPLE_FMT_S16 | AV_SAMPLE_FMT_S16P => fplAudioFormatType_S16
  | AV_SAMPLE_FMT_S32 | AV_SAMPLE_FMT_S32P => fplAudioFormatType_S32
  | AV_SAMPLE_FMT_S64 | AV_SAMPLE_FMT_S64P => fplAudioFormatType_S64
  | AV_SAMPLE_FMT_FLT | AV_SAMPLE_FMT_FLTP => fplAudioFormatType_F32
  | AV_SAMPLE_FMT_DBL | AV_SAMPLE_FMT_DBLP => fplAudioFormatType_F64
  | _ => fplAudioFormatType_None
  end.

Definition IsPlanarAVSampleFormat (format : AVSampleFormat) : bool :=
  match format with
  | AV_SAMPLE_FMT_U8P | AV_SAMPLE_FMT_S16P | AV_SAMPLE_FMT_S32P
  | AV_SAMPLE_FMT_S64P | AV_SAMPLE_FMT_FLTP | AV_SAMPLE_FMT_DBLP => true
  | _ => false
  end.

(** *** The refresh loop: frames of an old serial *)

(** The head of the [retry] loop of [VideoRefresh]: while a frame remains
    and the frame a peek returns does not carry the serial of the packet
    queue, it is released with [NextReadable]. [None]: [fuel] rounds did
    not end the loop. *)
Fixpoint VideoRefresh_skip_stale (fuel : nat) (queueSerial : Z)
  (queue : FrameQueue.t) : option FrameQueue.t :=
  match fuel with
  | O => None
  | S k =>
      if 0 <? GetFrameQueueRemainingCount queue then
        if negb (Frame.serial (slot_frame queue (PeekFrameQueue queue))
                 =? queueSerial)
        then VideoRefresh_skip_stale k queueSerial (NextReadable queue)
        else Some queue
      else Some queue
  end.

(** The frames that are still to be shown, oldest first. *)
Definition pending_frames (queue : FrameQueue.t) : list Frame.t :=
  skipn (Z.to_nat (FrameQueue.readIndexShown queue)) (held_frames queue).

(** The frames from the first one of serial [serial] on. *)
Fixpoint drop_stale (serial : Z) (l : list Frame.t) : list Frame.t :=
  match l with
  | [] => []
  | f :: r => if Frame.serial f =? serial then l else drop_stale serial r
  end.

(** A video ring that holds two frames decoded before a seek (serial 1)
    and one decoded after it (serial 2). *)
Definition ring_across_seek : FrameQueue.t :=
  let q0 := snd (fst (InitFrameQueue MAX_VIDEO_FRAME_QUEUE_COUNT 1 sample_world)) in
  let q1 := QueueSamples q0 (sample_avframe 1 0) (FrameQueue.writeIndex q0) 1 in
  let q2 := QueueSamples q1 (sample_avframe 2 1024) (FrameQueue.writeIndex q1) 1 in
  QueueSamples q2 (sample_avframe 3 0) (FrameQueue.writeIndex q2) 2.

(** *** The reader at the end of the file *)

(** [PushNullPacket] on the packet queue of a decoder. *)
Definition push_null (d : Decoder.t) (streamIndex : Z) : M Decoder.t :=
  r <- PushNullPacket (Decoder.packetsQueue d) streamIndex ;;
  ret (with_decoder_queue d (snd r)).

(** The branch of [PacketReadThreadProc] for an [av_read_frame] that
    reports the end of the file. *)
Definition PacketReadThreadProc_eof (state : PlayerState.t) : M PlayerState.t :=
  if negb (ReaderContext.isEOF (PlayerState.reader state)) then
    state <- (if video_valid state then
                d <- push_null (VideoContext.decoder (PlayerState.video state))
                       (MediaStream.streamIndex
                          (VideoContext.stream (PlayerState.video state))) ;;
                ret (with_video state
                       (with_video_decoder (PlayerState.video state) d))
              else ret state) ;;
    state <- (if audio_valid state then
                d <- push_null (AudioContext.decoder (PlayerState.audio state))
                       (MediaStream.streamIndex
                          (AudioContext.stream (PlayerState.audio state))) ;;
                ret (with_audio state
                       (with_audio_decoder (PlayerState.audio state) d))
              else ret state) ;;
    ret (with_reader state
           (ReaderContext.mk
              (ReaderContext.resumeSignal (PlayerState.reader state))
              (ReaderContext.stopRequest (PlayerState.reader state))
              true))
  else ret state.

(** The null packet that tells the decoder of stream [streamIndex] to
    drain. *)
Definition null_packet (streamIndex : Z) : AVPacket.t :=
  AVPacket.mk NullData 0 0 streamIndex AV_NOPTS_VALUE AV_NOPTS_VALUE.

(** The queue with the null packet behind its packets. *)
Definition drained (queue : PacketQueue.t) (streamIndex : Z) : PacketQueue.t :=
  PushPacket queue (PacketList.mk (null_packet streamIndex) 0).

(** *** The audio callback: frame accounting *)

(** The fields of [AudioContext] that carry converted audio from one
    callback to the next; [pendingAudioFrame] is the slot of the frame
    queue it points to, [None] for [nullptr]. *)
Module AudioBuffer.
Record t := mk {
  conversionAudioFramesRemaining : Z;   (* uint32_t *)
  conversionAudioFrameIndex : Z;        (* uint32_t *)
  pendingAudioFrame : option Z
}.
End AudioBuffer.

Definition WriteSilenceSamples (audio : AudioBuffer.t) (remainingFrameCount : Z)
  : AudioBuffer.t :=
  AudioBuffer.mk remainingFrameCount 0 (AudioBuffer.pendingAudioFrame audio).

(** What a callback is given: the number of frames asked for, the pause
    flag, the serial of the audio packet queue, the stop flag the frame
    queue reads, and the value the [n]-th call of [swr_convert] returns. *)
Record CallbackInput := mkCallbackInput {
  frameCount : Z;             (* uint32_t *)
  cb_isPaused : bool;
  cb_queueSerial : Z;
  cb_stopped : bool;
  swr_convert : nat -> Z      (* int *)
}.

(** The variables of the [while] loop of [AudioReadCallback]. A copy is
    recorded as (first frame in the conversion buffer, first frame in the
    output, number of frames). *)
Record Playback := mkPlayback {
  pb_audio : AudioBuffer.t;
  pb_queue : FrameQueue.t;
  remainingFrameCount : Z;    (* uint32_t *)
  pb_result : Z;              (* uint32_t *)
  pb_converted : nat;         (* calls of swr_convert so far *)
  pb_copies : list (Z * Z * Z)
}.

Inductive Flow : Type :=
| NextRound    (* the end of the body, or [continue] *)
| LeaveLoop.   (* [break] *)

(** "Consume audio in conversion buffer before we do anything else". *)
Definition consume_converted (input : CallbackInput) (p : Playback) : Playback :=
  let audio := pb_audio p in
  if 0 <? AudioBuffer.conversionAudioFramesRemaining audio then
    let maxFramesToRead := AudioBuffer.conversionAudioFramesRemaining audio in
    let framesToRead := if remainingFrameCount p <? maxFramesToRead
                        then remainingFrameCount p else maxFramesToRead in
    mkPlayback
      (AudioBuffer.mk
         (to_uint32 (AudioBuffer.conversionAudioFramesRemaining audio - framesToRead))
         (to_uint32 (AudioBuffer.conversionAudioFrameIndex audio + framesToRead))
         (AudioBuffer.pendingAudioFrame audio))
      (pb_queue p)
      (to_uint32 (remainingFrameCount p - framesToRead))
      (to_uint32 (pb_result p + framesToRead))
      (pb_converted p)
      (pb_copies p
       ++ [(AudioBuffer.conversionAudioFrameIndex audio,
            to_uint32 (frameCount input - remainingFrameCount p),
            framesToRead)])
  else p.

(** "Convert entire pending frame into conversion buffer"; the samples
    themselves, the audio clock and the filter of [SyncronizeAudio], whose
    result only sizes the conversion, are not part of this model. *)
Definition convert_pending (input : CallbackInput) (p : Playback)
  : Flow * Playback :=
  match AudioBuffer.pendingAudioFrame (pb_audio p) with
  | Some _ =>
      let samplesPerChannel := swr_convert input (pb_converted p) in
      let queue := NextReadable (pb_queue p) in
      if samplesPerChannel <=? 0 then
        (LeaveLoop,
         mkPlayback
           (AudioBuffer.mk
              (AudioBuffer.conversionAudioFramesRemaining (pb_audio p))
              (AudioBuffer.conversionAudioFrameIndex (pb_audio p)) None)
           queue (remainingFrameCount p) (pb_result p) (S (pb_converted p))
           (pb_copies p))
      else
        (NextRound,
         mkPlayback (AudioBuffer.mk (to_uint32 samplesPerChannel) 0 None)
           queue (remainingFrameCount p) (pb_result p) (S (pb_converted p))
           (pb_copies p))
  | None => (NextRound, p)
  end.

(** The last block of the body: take the next frame of the queue, skip
    it when its serial is old, or write silence when there is none. *)
Definition fetch_frame (input : CallbackInput) (p : Playback) : Flow * Playback :=
  let audio := pb_audio p in
  match AudioBuffer.pendingAudioFrame audio with
  | None =>
      if AudioBuffer.conversionAudioFramesRemaining audio =? 0 then
        match (if negb (cb_isPaused input)
               then PeekReadableFromFrameQueue (pb_queue p)
                      (cb_stopped input) (cb_stopped input)
               else None) with
        | Some newAudioFrame =>
            if negb (Frame.serial (slot_frame (pb_queue p) newAudioFrame)
                     =? cb_queueSerial input)
            then
              (NextRound,
               mkPlayback audio (NextReadable (pb_queue p))
                 (remainingFrameCount p) (pb_result p) (pb_converted p)
                 (pb_copies p))
            else
              (NextRound,
               mkPlayback (AudioBuffer.mk 0 0 (Some newAudioFrame)) (pb_queue p)
                 (remainingFrameCount p) (pb_result p) (pb_converted p)
                 (pb_copies p))
        | None =>
            if 0 <? remainingFrameCount p then
              (NextRound,
               mkPlayback (WriteSilenceSamples audio (remainingFrameCount p))
                 (pb_queue p) (remainingFrameCount p) (pb_result p)
                 (pb_converted p) (pb_copies p))
            else (LeaveLoop, p)
        end
      else (NextRound, p)
  | Some _ => (NextRound, p)
  end.

(** One round of the loop body. *)
Definition callback_round (input : CallbackInput) (p : Playback)
  : Flow * Playback :=
  let p :=
    if cb_isPaused input
    then mkPlayback (WriteSilenceSamples (pb_audio p) (remainingFrameCount p))
           (pb_queue p) (remainingFrameCount p) (pb_result p) (pb_converted p)
           (pb_copies p)
    else p in
  let p := consume_converted input p in
  if remainingFrameCount p =? 0 then (LeaveLoop, p)
  else
    match convert_pending input p with
    | (LeaveLoop, p) => (LeaveLoop, p)
    | (NextRound, p) => fetch_frame input p
    end.

(** The loop; [None]: [fuel] rounds did not end it. *)
Fixpoint callback_loop (fuel : nat) (input : CallbackInput) (p : Playback)
  : option Playback :=
  match fuel with
  | O => None
  | S k =>
      if 0 <? remainingFrameCount p then
        match callback_round input p with
        | (NextRound, p') => callback_loop k input p'
        | (LeaveLoop, p') => Some p'
        end
      else Some p
  end.

(** The frames [AudioReadCallback] reports, with the state it leaves. *)
Definition AudioReadCallback_frames (fuel : nat) (input : CallbackInput)
  (streamIsValid : bool) (audio : AudioBuffer.t) (queue : FrameQueue.t)
  : option Playback :=
  let start := mkPlayback audio queue (frameCount input) 0 0 [] in
  if streamIsValid then callback_loop fuel input start else Some start.

(** The frames of the queue that are still to be played. *)
Definition frames_to_play (queue : FrameQueue.t) : Z :=
  FrameQueue.count queue - FrameQueue.readIndexShown queue.

(** How far the loop is from its end: the frames still asked for weigh
    more than anything else, then the frames of the queue, then a frame
    that is not pending yet and a conversion buffer that is empty. *)
Definition rounds_left (bound : Z) (p : Playback) : Z :=
  remainingFrameCount p * (4 * bound + 4)
  + 4 * frames_to_play (pb_queue p)
  + (match AudioBuffer.pendingAudioFrame (pb_audio p) with
     | None => 2 | Some _ => 0 end)
  + (if AudioBuffer.conversionAudioFramesRemaining (pb_audio p) =? 0
     then 1 else 0).

(** The copies fill the output from frame [start] on, one behind the
    other: the frame behind the last copy, if they do. *)
Fixpoint filled_upto (start : Z) (copies : list (Z * Z * Z)) : option Z :=
  match copies with
  | [] => Some start
  | (_, destination, frames) :: rest =>
      if (destination =? start) && (0 <? frames)
      then filled_upto (start + frames) rest
      else None
  end.

(** What every round keeps. *)
Definition playback_invariant (input : CallbackInput) (bound : Z)
  (p : Playback) : Prop :=
  ring_indexed (pb_queue p)
  /\ ring_invariant (pb_queue p)
  /\ FrameQueue.capacity (pb_queue p) <= MAX_FRAME_QUEUE_COUNT
  /\ frames_to_play (pb_queue p) <= bound
  /\ frameCount input < 2 ^ 32
  /\ (forall n, swr_convert input n <= INT32_MAX)
  /\ 0 <= remainingFrameCount p
  /\ 0 <= pb_result p
  /\ pb_result p + remainingFrameCount p = frameCount input
  /\ 0 <= AudioBuffer.conversionAudioFramesRemaining (pb_audio p) < 2 ^ 32
  /\ (AudioBuffer.pendingAudioFrame (pb_audio p) <> None ->
      AudioBuffer.conversionAudioFramesRemaining (pb_audio p) = 0
      /\ cb_isPaused input = false
      /\ 0 < frames_to_play (pb_queue p))
  /\ filled_upto 0 (pb_copies p) = Some (pb_result p).

(** A callback for 64 frames on a running player whose audio packet
    queue is at serial 1; every conversion yields 40 frames. *)
Definition sample_callback : CallbackInput :=
  mkCallbackInput 64 false 1 false (fun _ => 40).

(** *** The video refresh *)

(** What [VideoRefresh] reads and writes besides the fields of
    [PlayerState] above: [forceRefresh], [frame_drops_late] and the two
    settings, its two reference parameters, and the slots it hands to
    [RenderVideoFrame]. *)
Module Refresh.
Record t := mk {
  forceRefresh : Z;        (* volatile uint32_t *)
  frameDrop : Z;           (* int32_t, settings.frameDrop *)
  isVideoDisabled : bool;  (* settings.isVideoDisabled *)
  frame_drops_late : Z;    (* int *)
  remainingTime : double;  (* double &remainingTime *)
  displayCount : Z;        (* int &displayCount *)
  rendered : list Z
}.
End Refresh.

Definition video_frames (state : PlayerState.t) : FrameQueue.t :=
  Decoder.frameQueue (VideoContext.decoder (PlayerState.video state)).

Definition with_video_frames (state : PlayerState.t) (queue : FrameQueue.t)
  : PlayerState.t :=
  let d := VideoContext.decoder (PlayerState.video state) in
  with_video state
    (with_video_decoder (PlayerState.video state)
       (Decoder.mk (Decoder.packetsQueue d) queue (Decoder.resumeSignal d)
          (Decoder.stopRequest d) (Decoder.isEOF d) (Decoder.pktSerial d)
          (Decoder.finishedSerial d))).

Definition with_remainingTime (r : Refresh.t) (t : double) : Refresh.t :=
  Refresh.mk (Refresh.forceRefresh r) (Refresh.frameDrop r)
    (Refresh.isVideoDisabled r) (Refresh.frame_drops_late r) t
    (Refresh.displayCount r) (Refresh.rendered r).

Definition with_forceRefresh (r : Refresh.t) (f : Z) : Refresh.t :=
  Refresh.mk f (Refresh.frameDrop r) (Refresh.isVideoDisabled r)
    (Refresh.frame_drops_late r) (Refresh.remainingTime r)
    (Refresh.displayCount r) (Refresh.rendered r).

Definition count_late_drop (r : Refresh.t) : Refresh.t :=
  Refresh.mk (Refresh.forceRefresh r) (Refresh.frameDrop r)
    (Refresh.isVideoDisabled r) (wrap_int32 (Refresh.frame_drops_late r + 1))
    (Refresh.remainingTime r) (Refresh.displayCount r) (Refresh.rendered r).

Definition is_ExternalClock (t : AVSyncType) : bool :=
  match t with ExternalClock => true | _ => false end.

Definition is_VideoMaster (t : AVSyncType) : bool :=
  match t with VideoMaster => true | _ => false end.

(** Where one pass over the code behind [retry:] ends. *)
Inductive RefreshStep : Type :=
| GotoRetry (state : PlayerState.t) (r : Refresh.t)
| GotoDisplay (state : PlayerState.t) (r : Refresh.t)
| NoPauseResult.   (* [StreamTogglePause] has no defined result *)

(** "When we got more than one frame we may drop this frame entirely". *)
Definition drops_late (state : PlayerState.t) (r : Refresh.t) (vp : Frame.t)
  (time : double) : bool :=
  let queue := video_frames state in
  if 1 <? GetFrameQueueRemainingCount queue then
    let nextvp := slot_frame queue (PeekFrameQueueNext queue) in
    let duration := GetFrameDuration state vp nextvp in
    (PlayerState.step state =? 0)
    && ((0 <? Refresh.frameDrop r)
        || (negb (Refresh.frameDrop r =? 0)
            && negb (is_VideoMaster (GetMasterSyncType state))))
    && (PlayerState.frameTimer state + duration <? time)%float
  else false.

(** "Reset frame timer when serial from current and last frame are
    different". *)
Definition reset_frame_timer (state : PlayerState.t) (lastvp vp : Frame.t)
  : M PlayerState.t :=
  if negb (Frame.serial lastvp =? Frame.serial vp) then
    t <- av_gettime_relative ;;
    ret (with_frameTimer state (time_seconds t))
  else ret state.

(** "Accumulate frame timer by the computed delay", and what follows up
    to [display:]: the video clock is set, the frame is dropped when it is
    late or released to be shown. *)
Definition advance_frame (state : PlayerState.t) (r : Refresh.t) (vp : Frame.t)
  (delay time : double) : M RefreshStep :=
  let state :=
    with_frameTimer state (PlayerState.frameTimer state + delay)%float in
  let state :=
    if (0 <? delay)%float
       && (AV_SYNC_THRESHOLD_MAX <? time - PlayerState.frameTimer state)%float
    then with_frameTimer state time else state in
  state <- (if negb (isnan (Frame.pts vp))
            then UpdateVideoClock state (Frame.pts vp) (Frame.serial vp)
            else ret state) ;;
  if drops_late state r vp time then
    ret (GotoRetry
           (with_video_frames state (NextReadable (video_frames state)))
           (count_late_drop r))
  else
    let state := with_video_frames state (NextReadable (video_frames state)) in
    let r := with_forceRefresh r 1 in
    if negb (PlayerState.step state =? 0) && negb (PlayerState.isPaused state)
    then
      toggled <- StreamTogglePause state ;;
      match toggled with
      | Some state => ret (GotoDisplay state r)
      | None => ret NoPauseResult
      end
    else ret (GotoDisplay state r).

(** "Compute duration and delay", and the wait for the frame's time. *)
Definition time_frame (state : PlayerState.t) (r : Refresh.t)
  (lastvp vp : Frame.t) : M RefreshStep :=
  let lastDuration := GetFrameDuration state lastvp vp in
  delay <- ComputeVideoDelay state lastDuration ;;
  t <- av_gettime_relative ;;
  let time := time_seconds t in
  if (time <? PlayerState.frameTimer state + delay)%float then
    ret (GotoDisplay state
           (with_remainingTime r
              (fplMin (PlayerState.frameTimer state + delay - time)%float
                 (Refresh.remainingTime r))))
  else advance_frame state r vp delay time.

(** The code between [retry:] and [display:]. *)
Definition VideoRefresh_frame (state : PlayerState.t) (r : Refresh.t)
  : M RefreshStep :=
  let queue := video_frames state in
  if 0 <? GetFrameQueueRemainingCount queue then
    let lastvp := slot_frame queue (PeekFrameQueueLast queue) in
    let vp := slot_frame queue (PeekFrameQueue queue) in
    if negb (Frame.serial vp =? PacketQueue.serial (video_queue state)) then
      ret (GotoRetry (with_video_frames state (NextReadable queue)) r)
    else
      state <- reset_frame_timer state lastvp vp ;;
      if PlayerState.isPaused state then ret (GotoDisplay state r)
      else time_frame state r lastvp vp
  else ret (GotoDisplay state r).

(** How a run of [VideoRefresh] ends. *)
Inductive Run (A : Type) : Type :=
| Returned (a : A)
| NoResult     (* an operation without defined result was reached *)
| NoFuel.      (* the rounds granted did not end the [retry] loop *)

Arguments Returned {A} a.
Arguments NoResult {A}.
Arguments NoFuel {A}.

Fixpoint VideoRefresh_retry (fuel : nat) (state : PlayerState.t) (r : Refresh.t)
  : M (Run (PlayerState.t * Refresh.t)) :=
  match fuel with
  | O => ret NoFuel
  | S k =>
      step <- VideoRefresh_frame state r ;;
      match step with
      | GotoRetry state r => VideoRefresh_retry k state r
      | GotoDisplay state r => ret (Returned (state, r))
      | NoPauseResult => ret NoResult
      end
  end.

(** [RenderVideoFrame], as far as the player state goes: the frame last
    shown is uploaded. *)
Definition RenderVideoFrame (state : PlayerState.t) : PlayerState.t :=
  let queue := video_frames state in
  with_video_frames state
    (FrameQueue.mk
       (update_nth (Z.to_nat (PeekFrameQueueLast queue))
          (fun f => Frame.mk (Frame.frame f) (Frame.pts f) (Frame.duration f)
                      (Frame.pos f) (Frame.serial f) (Frame.width f)
                      (Frame.height f) true)
          (FrameQueue.frames queue))
       (FrameQueue.readIndex queue) (FrameQueue.writeIndex queue)
       (FrameQueue.count queue) (FrameQueue.capacity queue)
       (FrameQueue.keepLast queue) (FrameQueue.readIndexShown queue)
       (FrameQueue.signal queue) (FrameQueue.isValid queue)).

(** The code behind [display:]. *)
Definition VideoRefresh_display (state : PlayerState.t) (r : Refresh.t)
  : PlayerState.t * Refresh.t :=
  let queue := video_frames state in
  if negb (Refresh.isVideoDisabled r)
     && negb (Refresh.forceRefresh r =? 0)
     && negb (FrameQueue.readIndexShown queue =? 0)
  then
    (RenderVideoFrame state,
     Refresh.mk (Refresh.forceRefresh r) (Refresh.frameDrop r)
       (Refresh.isVideoDisabled r) (Refresh.frame_drops_late r)
       (Refresh.remainingTime r) (wrap_int32 (Refresh.displayCount r + 1))
       (Refresh.rendered r ++ [PeekFrameQueueLast queue]))
  else if FrameQueue.count queue <? FrameQueue.capacity queue then
    (with_video_frames state
       (FrameQueue.mk (FrameQueue.frames queue) (FrameQueue.readIndex queue)
          (FrameQueue.writeIndex queue) (FrameQueue.count queue)
          (FrameQueue.capacity queue) (FrameQueue.keepLast queue)
          (FrameQueue.readIndexShown queue) true (FrameQueue.isValid queue)),
     r)
  else (state, r).

Definition VideoRefresh (fuel : nat) (state : PlayerState.t) (r : Refresh.t)
  : M (Run (PlayerState.t * Refresh.t)) :=
  state <- (if negb (PlayerState.isPaused state)
               && is_ExternalClock (GetMasterSyncType state)
               && PlayerState.isRealTime state
            then UpdateExternalClockSpeed state
            else ret state) ;;
  out <- (if video_valid state then
            out <- VideoRefresh_retry fuel state r ;;
            ret (match out with
                 | Returned (state, r) => Returned (VideoRefresh_display state r)
                 | NoResult => NoResult
                 | NoFuel => NoFuel
                 end)
          else ret (Returned (state, r))) ;;
  ret (match out with
       | Returned (state, r) => Returned (state, with_forceRefresh r 0)
       | NoResult => NoResult
       | NoFuel => NoFuel
       end).

(** What a refresh keeps of the player: the packet queues, the audio
    side, the video stream, the stepping and pause flags, the seek request
    and the reader; the video clock is left alone or set for the serial of
    the video packet queue. *)
Definition refresh_kept (s s' : PlayerState.t) : Prop :=
  video_queue s' = video_queue s
  /\ PlayerState.audio s' = PlayerState.audio s
  /\ VideoContext.stream (PlayerState.video s')
     = VideoContext.stream (PlayerState.video s)
  /\ PlayerState.step s' = PlayerState.step s
  /\ PlayerState.isPaused s' = PlayerState.isPaused s
  /\ PlayerState.seek s' = PlayerState.seek s
  /\ PlayerState.reader s' = PlayerState.reader s
  /\ (video_clock s' = video_clock s
      \/ Clock.serial (video_clock s') = PacketQueue.serial (video_queue s)).

(** The invariants of a frame queue, together. *)
Definition ring_facts (queue : FrameQueue.t) : Prop :=
  ring_indexed queue
  /\ ring_invariant queue
  /\ FrameQueue.capacity queue <= MAX_FRAME_QUEUE_COUNT.

(** [l'] is what is left of [l] once some of its first elements are gone. *)
Definition rest_of {A} (l' l : list A) : Prop := exists k, l' = skipn k l.

(** What a refresh keeps of its bookkeeping between [retry:] and
    [display:], apart from the remaining time. *)
Definition refresh_counted (r r' : Refresh.t) : Prop :=
  Refresh.isVideoDisabled r' = Refresh.isVideoDisabled r
  /\ Refresh.displayCount r' = Refresh.displayCount r
  /\ Refresh.rendered r' = Refresh.rendered r
  /\ Refresh.frameDrop r' = Refresh.frameDrop r
  /\ isnan (Refresh.remainingTime r') = false
  /\ (Refresh.remainingTime r' <=? Refresh.remainingTime r)%float = true.

(** What one pass over the code behind [retry:] keeps: on [goto retry]
    the frame in front was taken off the queue and the remaining time is
    untouched; on the way to [display:] the queue is as it was or lost the
    frame in front. *)
Definition frame_step_kept (s : PlayerState.t) (r : Refresh.t)
  (out : RefreshStep) : Prop :=
  match out with
  | GotoRetry s' r' =>
      refresh_kept s s'
      /\ refresh_counted r r'
      /\ Refresh.remainingTime r' = Refresh.remainingTime r
      /\ 0 < frames_to_play (video_frames s)
      /\ video_frames s' = NextReadable (video_frames s)
  | GotoDisplay s' r' =>
      refresh_kept s s'
      /\ refresh_counted r r'
      /\ (video_frames s' = video_frames s
          \/ (0 < frames_to_play (video_frames s)
              /\ video_frames s' = NextReadable (video_frames s)))
  | NoPauseResult => False
  end.

(** The loaded player after a seek: its video packet queue is
    [queue_across_flush], at serial 2, while the video ring
    [ring_across_seek] still holds two frames of serial 1 before the one of
    serial 2. [sample_refresh] is the bookkeeping of the main loop before it
    calls [VideoRefresh]: frame dropping as [InitSettings] sets it,
    [DEFAULT_REFRESH_RATE] as the remaining time. *)
Definition refreshing_player : PlayerState.t :=
  let v := PlayerState.video after_load in
  with_video_frames
    (with_video after_load
       (with_video_decoder v
          (with_decoder_queue (VideoContext.decoder v) queue_across_flush)))
    ring_across_seek.

Definition sample_refresh : Refresh.t :=
  Refresh.mk 0 1 false 0 0.01%float 0 [].

(** *** Anchored clocks, the pending packet, a seek request *)

(** A clock that [SetClock] set during a run from world [w] to world
    [w']: its drift is its pts minus the time of the update, and that time
    is one of the readings of the wall clock taken during the run. *)
Definition anchored_between (c : Clock.t) (w w' : World) : Prop :=
  Clock.ptsDrift c = (Clock.pts c - Clock.lastUpdated c)%float
  /\ exists n : nat,
       (time_calls w <= n < time_calls w')%nat
       /\ Clock.lastUpdated c = time_seconds (gettime w n).

(** The player of [seek_pending_at_eof], paused. *)
Definition seek_pending_paused : PlayerState.t :=
  set_paused seek_pending_at_eof true.

(** The pending packet of a decoder, when there is one, is the packet
    fetched last: its tag is [pktSerial]. *)
Definition pending_tagged (pending : option PacketList.t) (pktSerial : Z)
  : Prop :=
  forall pkt, pending = Some pkt -> PacketList.serial pkt = pktSerial.

(** What [DecodeFrame] leaves pending behind the packet fetch: the packet
    itself when it is no flush packet and [avcodec_send_packet] answered
    [AVERROR(EAGAIN)] ([eagain]); every other packet goes back to the
    reader. *)
Definition resubmit (eagain : bool) (pkt : option PacketList.t)
  : option PacketList.t :=
  match pkt with
  | Some p => if IsFlushPacket p then None
              else if eagain then Some p else None
  | None => None
  end.

(** A data packet of serial 1 that the decoder could not send and kept
    pending. *)
Definition stale_pending : PacketList.t :=
  PacketList.mk (AVPacket.mk (Payload 4096) 1500 40 0 0 0) 1.

(** [s'] differs from [s] in the seek record and the reader's resume
    signal at most. *)
Definition only_seek_and_resume (s s' : PlayerState.t) : Prop :=
  ReaderContext.stopRequest (PlayerState.reader s')
  = ReaderContext.stopRequest (PlayerState.reader s)
  /\ ReaderContext.isEOF (PlayerState.reader s')
     = ReaderContext.isEOF (PlayerState.reader s)
  /\ PlayerState.video s' = PlayerState.video s
  /\ PlayerState.audio s' = PlayerState.audio s
  /\ PlayerState.externalClock s' = PlayerState.externalClock s
  /\ PlayerState.frameTimer s' = PlayerState.frameTimer s
  /\ PlayerState.maxFrameDuration s' = PlayerState.maxFrameDuration s
  /\ PlayerState.pauseClock s' = PlayerState.pauseClock s
  /\ PlayerState.syncType s' = PlayerState.syncType s
  /\ PlayerState.loop s' = PlayerState.loop s
  /\ PlayerState.readPauseReturn s' = PlayerState.readPauseReturn s
  /\ PlayerState.step s' = PlayerState.step s
  /\ PlayerState.pauseNumFrames s' = PlayerState.pauseNumFrames s
  /\ PlayerState.isInfiniteBuffer s' = PlayerState.isInfiniteBuffer s
  /\ PlayerState.isRealTime s' = PlayerState.isRealTime s
  /\ PlayerState.isPaused s' = PlayerState.isPaused s
  /\ PlayerState.lastPaused s' = PlayerState.lastPaused s
  /\ PlayerState.seekByBytes s' = PlayerState.seekByBytes s.


(* ================================================================== *)
(** ** Facts on fixed-width integers and doubles *)
(* ================================================================== *)

Lemma wrap_int32_id z : in_int32 z -> wrap_int32 z = z.
Proof.
  unfold in_int32, wrap_int32, INT32_MIN, INT32_MAX. intros H.
  rewrite Z.mod_small; lia.
Qed.

Lemma wrap_int32_range z : in_int32 (wrap_int32 z).
Proof.
  unfold in_int32, wrap_int32, INT32_MIN, INT32_MAX.
  pose proof (Z.mod_pos_bound (z + 2 ^ 31) (2 ^ 32)). lia.
Qed.

Lemma to_uint32_id z : 0 <= z < 2 ^ 32 -> to_uint32 z = z.
Proof. intros H. unfold to_uint32. apply Z.mod_small; exact H. Qed.

(** *** Order facts on binary64

    The comparison of two floats is the lexicographic comparison of their
    (sign, exponent, mantissa) decompositions, so the facts below follow by
    case analysis on the decomposition. *)

Ltac sf_cases :=
  repeat match goal with
  | |- context [Z.compare ?a ?b] => destruct (Z.compare_spec a b)
  | H : context [Z.compare ?a ?b] |- _ => destruct (Z.compare_spec a b)
  | |- context [Pos.compare_cont Eq ?a ?b] =>
      change (Pos.compare_cont Eq a b) with (Pos.compare a b);
      destruct (Pos.compare_spec a b)
  | H : context [Pos.compare_cont Eq ?a ?b] |- _ =>
      change (Pos.compare_cont Eq a b) with (Pos.compare a b) in H;
      destruct (Pos.compare_spec a b)
  end;
  simpl in *; subst; try congruence; try lia.

Ltac sf_destruct x :=
  destruct x as [[|]|[|]| |[|] ? ?]; simpl in *; try congruence.

Lemma SFleb_ltb_false a b : SFleb a b = true -> SFltb b a = false.
Proof.
  unfold SFleb, SFltb. sf_destruct a; sf_destruct b; sf_cases.
Qed.

Lemma SFltb_leb a b : SFltb a b = true -> SFleb a b = true.
Proof. unfold SFleb, SFltb. destruct (SFcompare a b) as [[| |]|]; congruence. Qed.

Lemma SFleb_false_ltb a b :
  a <> S754_nan -> b <> S754_nan -> SFleb a b = false -> SFltb b a = true.
Proof.
  unfold SFleb, SFltb. sf_destruct a; sf_destruct b; sf_cases.
Qed.

Lemma SFltb_false_leb a b :
  a <> S754_nan -> b <> S754_nan -> SFltb a b = false -> SFleb b a = true.
Proof.
  unfold SFleb, SFltb. sf_destruct a; sf_destruct b; sf_cases.
Qed.

Lemma SFleb_opp_false t a :
  SFltb (S754_zero false) t = true -> SFleb t a = true ->
  SFleb a (SFopp t) = false.
Proof.
  unfold SFleb, SFltb. sf_destruct t; sf_destruct a; sf_cases.
Qed.

Lemma SFabs_ltb_inside a t :
  SFltb (SFabs a) t = true ->
  SFleb a (SFopp t) = false /\ SFleb t a = false.
Proof.
  unfold SFleb, SFltb. sf_destruct t; sf_destruct a; split; sf_cases.
Qed.

Lemma SFltb_leb_trans a b c :
  SFltb a b = true -> SFleb b c = true -> SFltb a c = true.
Proof.
  unfold SFleb, SFltb. sf_destruct a; sf_destruct b; sf_destruct c; sf_cases.
Qed.

Lemma SFltb_trans a b c :
  SFltb a b = true -> SFltb b c = true -> SFltb a c = true.
Proof.
  unfold SFltb. sf_destruct a; sf_destruct b; sf_destruct c; sf_cases.
Qed.

Lemma isnan_Prim2SF x : isnan x = true <-> Prim2SF x = S754_nan.
Proof.
  unfold isnan, is_nan. rewrite FloatAxioms.eqb_spec. unfold SFeqb.
  destruct (Prim2SF x) as [[|]|[|]| |[|] m e]; simpl;
    rewrite ?Z.compare_refl;
    try (change (Pos.compare_cont Eq m m) with (Pos.compare m m);
         rewrite Pos.compare_refl); simpl; split; congruence.
Qed.

Lemma isnan_false_Prim2SF x : isnan x = false <-> Prim2SF x <> S754_nan.
Proof.
  rewrite <- isnan_Prim2SF. destruct (isnan x); split; congruence.
Qed.

Lemma leb_ltb_false x y : (x <=? y)%float = true -> (y <? x)%float = false.
Proof. rewrite leb_spec, ltb_spec. apply SFleb_ltb_false. Qed.

Lemma ltb_leb x y : (x <? y)%float = true -> (x <=? y)%float = true.
Proof. rewrite leb_spec, ltb_spec. apply SFltb_leb. Qed.

Lemma leb_false_ltb x y :
  isnan x = false -> isnan y = false ->
  (x <=? y)%float = false -> (y <? x)%float = true.
Proof.
  rewrite leb_spec, ltb_spec, !isnan_false_Prim2SF. apply SFleb_false_ltb.
Qed.

Lemma ltb_false_leb x y :
  isnan x = false -> isnan y = false ->
  (x <? y)%float = false -> (y <=? x)%float = true.
Proof.
  rewrite leb_spec, ltb_spec, !isnan_false_Prim2SF. apply SFltb_false_leb.
Qed.

Lemma leb_opp_false t x :
  (0 <? t)%float = true -> (t <=? x)%float = true ->
  (x <=? - t)%float = false.
Proof.
  rewrite ltb_spec, !leb_spec, opp_spec. apply SFleb_opp_false.
Qed.

Lemma fabs_ltb_inside x t :
  (fabs x <? t)%float = true ->
  (x <=? - t)%float = false /\ (t <=? x)%float = false.
Proof.
  unfold fabs. rewrite ltb_spec, !leb_spec, opp_spec, abs_spec.
  apply SFabs_ltb_inside.
Qed.

Lemma ltb_leb_trans x y z :
  (x <? y)%float = true -> (y <=? z)%float = true -> (x <? z)%float = true.
Proof. rewrite !ltb_spec, leb_spec. apply SFltb_leb_trans. Qed.

Lemma ltb_trans x y z :
  (x <? y)%float = true -> (y <? z)%float = true -> (x <? z)%float = true.
Proof. rewrite !ltb_spec. apply SFltb_trans. Qed.

Lemma leb_isnan_l x y : (x <=? y)%float = true -> isnan x = false.
Proof.
  rewrite leb_spec, isnan_false_Prim2SF. unfold SFleb.
  destruct (Prim2SF x); simpl; congruence.
Qed.

(* ================================================================== *)
(** ** Master clock selection *)
(* ================================================================== *)

(** C10 -- A request for the video master on a player without a valid
    video stream is answered with the audio master whether or not the
    audio stream is valid; the fallback never goes on to the external
    clock, and [GetMasterClock] then reads the audio clock. *)
Theorem GetMasterSyncType_video_falls_back_to_audio :
  forall state : PlayerState.t,
    PlayerState.syncType state = VideoMaster ->
    video_valid state = false ->
    GetMasterSyncType state = AudioMaster
    /\ GetMasterClock state = GetClock (load state) (audio_clock state).
Proof.
  intros state Hsync Hvideo.
  assert (E : GetMasterSyncType state = AudioMaster).
  { unfold GetMasterSyncType. rewrite Hsync, Hvideo. reflexivity. }
  split; [exact E|].
  unfold GetMasterClock. rewrite E. reflexivity.
Qed.

(** A player with neither stream: the audio clock is still the master. *)
Lemma GetMasterSyncType_video_falls_back_to_audio_witness :
  audio_valid (loaded_player no_stream no_stream VideoMaster) = false
  /\ GetMasterSyncType (loaded_player no_stream no_stream VideoMaster)
     = AudioMaster
  /\ GetMasterClock (loaded_player no_stream no_stream VideoMaster)
     = GetClock (load (loaded_player no_stream no_stream VideoMaster))
         (audio_clock (loaded_player no_stream no_stream VideoMaster)).
Proof.
  split; [reflexivity|].
  apply (GetMasterSyncType_video_falls_back_to_audio
           (loaded_player no_stream no_stream VideoMaster));
    reflexivity.
Defined.

(* ================================================================== *)
(** ** Frame duration *)
(* ================================================================== *)

(** Two frames on either side of a flush: the code answers [0.0], not the
    first frame's duration of [0.04]. *)
Lemma GetFrameDuration_across_serials :
  GetFrameDuration (blank_player no_stream no_stream AudioMaster)
    (frame_at 1.0 0.04 1) (frame_at 1.04 0.04 2) = 0.0%float
  /\ frame_duration_spec 3600.0
       (frame_at 1.0 0.04 1) (frame_at 1.04 0.04 2) = 0.04%float
  /\ (0.0 =? 0.04)%float = false.
Proof. repeat split; reflexivity. Qed.

(** C4 (amended) -- [GetFrameDuration] returns [b.pts - a.pts] when the
    serials match and that gap is valid (not NaN, positive, at most
    [maxFrameDuration]), the first frame's duration when the serials match
    and the gap is not valid, and [0.0] when the serials differ. *)
Theorem GetFrameDuration_cases :
  forall (state : PlayerState.t) (a b : Frame.t),
    isnan (PlayerState.maxFrameDuration state) = false ->
    GetFrameDuration state a b =
      if Frame.serial a =? Frame.serial b then
        if valid_gap (PlayerState.maxFrameDuration state)
             (Frame.pts b - Frame.pts a)%float
        then (Frame.pts b - Frame.pts a)%float
        else Frame.duration a
      else 0.0%float.
Proof.
  intros state a b Hmax. unfold GetFrameDuration, valid_gap.
  destruct (Frame.serial a =? Frame.serial b); [|reflexivity].
  set (d := (Frame.pts b - Frame.pts a)%float).
  destruct (isnan d) eqn:Hnan; simpl; [reflexivity|].
  destruct (d <=? 0)%float eqn:Hle; simpl.
  - rewrite (leb_ltb_false _ _ Hle). reflexivity.
  - rewrite (leb_false_ltb d 0%float Hnan eq_refl Hle). simpl.
    destruct (PlayerState.maxFrameDuration state <? d)%float eqn:Hlt.
    + destruct (d <=? PlayerState.maxFrameDuration state)%float eqn:Hle2;
        [|reflexivity].
      rewrite (leb_ltb_false _ _ Hle2) in Hlt. discriminate Hlt.
    + rewrite (ltb_false_leb _ _ Hmax Hnan Hlt). reflexivity.
Qed.

Lemma GetFrameDuration_cases_witness :
  GetFrameDuration (blank_player no_stream no_stream AudioMaster)
    (frame_at 1.0 0.5 1) (frame_at 1.25 0.5 1) = 0.25%float.
Proof.
  rewrite (GetFrameDuration_cases
             (blank_player no_stream no_stream AudioMaster)
             (frame_at 1.0 0.5 1) (frame_at 1.25 0.5 1) eq_refl).
  reflexivity.
Defined.

(* ================================================================== *)
(** ** Packet queue: the serial discipline *)
(* ================================================================== *)

Lemma last_snoc_some {A} (l : list A) (x : A) :
  last (map Some (l ++ [x])) None = Some x.
Proof.
  rewrite map_app. simpl. apply last_last.
Qed.

Lemma PushPacket_serial queue p :
  PacketQueue.serial (PushPacket queue p) = push_serial queue p.
Proof. reflexivity. Qed.

Lemma PushPacket_last_tag queue p :
  last_tag (PushPacket queue p) = Some (push_serial queue p).
Proof. unfold last_tag, PushPacket. simpl. rewrite last_snoc_some. reflexivity. Qed.

Lemma PushPacket_last_packet queue p :
  last_packet (PushPacket queue p) = Some (PacketList.packet p).
Proof. unfold last_packet, PushPacket. simpl. rewrite last_snoc_some. reflexivity. Qed.

Lemma push_serial_flush queue p :
  in_int32 (PacketQueue.serial queue) ->
  PacketQueue.serial queue < INT32_MAX ->
  IsFlushPacket p = true ->
  push_serial queue p = PacketQueue.serial queue + 1.
Proof.
  intros Hr Hlt Hf. unfold push_serial. rewrite Hf.
  apply wrap_int32_id. unfold in_int32, INT32_MIN, INT32_MAX in *. lia.
Qed.

Lemma push_serial_data queue p :
  IsFlushPacket p = false -> push_serial queue p = PacketQueue.serial queue.
Proof. intros Hf. unfold push_serial. rewrite Hf. reflexivity. Qed.

(** A push, seen as an event, is disciplined when the serial has room. *)
Lemma push_event_disciplined queue op p :
  in_int32 (PacketQueue.serial queue) ->
  (IsFlushPacket p = true -> PacketQueue.serial queue < INT32_MAX) ->
  op <> OpFlushPacketQueue ->
  event_disciplined (mkEvent queue op (Some p) (PushPacket queue p)).
Proof.
  intros Hr Hroom Hop. unfold event_disciplined.
  cbn [ev_before ev_after ev_pushed ev_op]. split.
  - split; [apply PushPacket_last_packet|].
    rewrite PushPacket_last_tag, PushPacket_serial.
    destruct (IsFlushPacket p) eqn:Hf.
    + rewrite (push_serial_flush queue p Hr (Hroom eq_refl) Hf). split; reflexivity.
    + rewrite (push_serial_data queue p Hf). split; reflexivity.
  - destruct op; try exact I. congruence.
Qed.

Lemma flush_pushes_cons e events :
  flush_pushes (e :: events)
  = (if pushed_flush e then 1 else 0) + flush_pushes events.
Proof.
  unfold flush_pushes. cbn [filter].
  destruct (pushed_flush e); cbn [length]; rewrite ?Nat2Z.inj_succ; lia.
Qed.

Lemma flush_pushes_nonneg events : 0 <= flush_pushes events.
Proof. unfold flush_pushes. lia. Qed.

(** One operation, as an event. *)
Lemma run_op_disciplined op queue w :
  in_int32 (PacketQueue.serial queue) ->
  (pushed_flush (mkEvent queue op (fst (fst (run_op op queue w)))
                   (snd (fst (run_op op queue w)))) = true ->
   PacketQueue.serial queue < INT32_MAX) ->
  event_disciplined (mkEvent queue op (fst (fst (run_op op queue w)))
                       (snd (fst (run_op op queue w)))).
Proof.
  intros Hr Hroom.
  destruct op;
    unfold run_op, StartPacketQueue, PushNullPacket, PushFlushPacket, AddPacket,
      bind, ret, allocate, pushed_flush in *;
    cbn [fst snd ev_pushed av_init_packet zeroed_packet] in *;
    try destruct (alloc_ok w (alloc_calls w));
    cbn [fst snd ev_pushed] in *;
    try (apply push_event_disciplined;
         [exact Hr|first [exact Hroom|discriminate]|discriminate]);
    try (split; [reflexivity|exact I]).
  all: unfold event_disciplined, PopPacket; simpl;
    try destruct (PacketQueue.packets queue); simpl; repeat split.
Qed.

Lemma event_disciplined_serial e :
  event_disciplined e ->
  PacketQueue.serial (ev_after e)
  = PacketQueue.serial (ev_before e) + (if pushed_flush e then 1 else 0).
Proof.
  unfold event_disciplined, pushed_flush. intros [H _].
  destruct (ev_pushed e) as [p|]; [|lia].
  destruct H as [_ H]. destruct (IsFlushPacket p); destruct H as [H _]; lia.
Qed.

(** C1 -- Along every run of queue operations whose flush pushes keep the
    serial within [int32_t]: a data or null packet is tagged with the
    current serial and leaves it unchanged; a flush packet is tagged with
    the serial plus one, which becomes the queue's serial; [flush()] empties
    the queue and zeroes size, duration and packet count without touching
    the serial; so the serial never decreases and grows by exactly the
    number of flush packets pushed. *)
Theorem PacketQueue_serial_discipline :
  forall (ops : list QueueOp) (queue : PacketQueue.t) (w : World),
    in_int32 (PacketQueue.serial queue) ->
    PacketQueue.serial queue + flush_pushes (fst (fst (run_ops ops queue w)))
      <= INT32_MAX ->
    Forall event_disciplined (fst (fst (run_ops ops queue w)))
    /\ Forall (fun e => PacketQueue.serial (ev_before e)
                        <= PacketQueue.serial (ev_after e))
         (fst (fst (run_ops ops queue w)))
    /\ PacketQueue.serial (snd (fst (run_ops ops queue w)))
       = PacketQueue.serial queue
         + flush_pushes (fst (fst (run_ops ops queue w))).
Proof.
  induction ops as [|op rest IH]; intros queue w Hr Hroom.
  - simpl. repeat split; try constructor. unfold flush_pushes. simpl. lia.
  - cbn [run_ops] in *. unfold bind, ret in *.
    destruct (run_op op queue w) as [[pushed q1] w1] eqn:Hop.
    cbn [fst snd] in *.
    destruct (run_ops rest q1 w1) as [[events q2] w2] eqn:Hrest.
    cbn [fst snd] in *. rewrite flush_pushes_cons in *.
    pose proof (flush_pushes_nonneg events) as Hnn.
    assert (Hev : event_disciplined (mkEvent queue op pushed q1)).
    { pose proof (run_op_disciplined op queue w Hr) as H.
      rewrite Hop in H. cbn [fst snd] in H. apply H. intros Hf.
      rewrite Hf in Hroom. lia. }
    pose proof (event_disciplined_serial _ Hev) as Hs.
    cbn [ev_before ev_after] in Hs.
    assert (Hr1 : in_int32 (PacketQueue.serial q1)).
    { unfold in_int32, INT32_MIN, INT32_MAX in *.
      destruct (pushed_flush (mkEvent queue op pushed q1)); lia. }
    specialize (IH q1 w1 Hr1). rewrite Hrest in IH. cbn [fst snd] in IH.
    destruct IH as (IH1 & IH2 & IH3); [lia|].
    repeat split.
    + constructor; assumption.
    + constructor; [cbn [ev_before ev_after]; destruct (pushed_flush _); lia
                   |assumption].
    + lia.
Qed.

(** A queue is started, filled, flushed and sent a flush packet: two flush
    packets, serial two. *)
Lemma PacketQueue_serial_discipline_witness :
  PacketQueue.serial (snd (fst (run_ops sample_ops zero_queue sample_world))) = 2
  /\ Forall event_disciplined (fst (fst (run_ops sample_ops zero_queue sample_world))).
Proof.
  assert (Hr : in_int32 (PacketQueue.serial zero_queue))
    by (unfold in_int32, INT32_MIN, INT32_MAX; simpl; lia).
  assert (Hroom :
    PacketQueue.serial zero_queue
    + flush_pushes (fst (fst (run_ops sample_ops zero_queue sample_world)))
    <= INT32_MAX) by (vm_compute; discriminate).
  destruct (PacketQueue_serial_discipline sample_ops zero_queue sample_world Hr Hroom)
    as (Hd & _ & Hs).
  split; [rewrite Hs; reflexivity|exact Hd].
Defined.

(* ================================================================== *)
(** ** Frame queue: the ring invariants *)
(* ================================================================== *)

Ltac int32_small :=
  unfold in_int32, INT32_MIN, INT32_MAX, MAX_FRAME_QUEUE_COUNT in *; lia.

Lemma ring_step_ok op r r' :
  ring_ok r -> ring_step op r = Some r' -> ring_ok r'.
Proof.
  unfold ring_ok, ring_invariant.
  intros ((Hc & Hrem & Hshown) & Hcap & Hslot & Hframe) Hstep.
  destruct r as [q slot frm]. cbn [ring_queue holds_slot holds_frame] in *.
  destruct op; cbn [ring_step ring_queue holds_slot holds_frame] in Hstep.
  - unfold PeekWritableFromFrameQueue in Hstep.
    destruct (FrameQueue.capacity q <=? FrameQueue.count q) eqn:Hfull;
      cbn [orb] in Hstep.
    + injection Hstep as <-. cbn. auto.
    + apply Z.leb_gt in Hfull.
      destruct stopped1; cbn [orb] in Hstep;
        [|destruct stopped2]; injection Hstep as <-; cbn; auto 10.
  - destruct slot; [|discriminate Hstep]. injection Hstep as <-.
    specialize (Hslot eq_refl). cbn.
    rewrite (wrap_int32_id (FrameQueue.count q + 1)) by int32_small.
    repeat split; try lia; try discriminate.
  - unfold PeekReadableFromFrameQueue in Hstep.
    rewrite (wrap_int32_id (FrameQueue.count q - FrameQueue.readIndexShown q))
      in Hstep by int32_small.
    destruct (FrameQueue.count q - FrameQueue.readIndexShown q <=? 0) eqn:Hempty;
      cbn [orb] in Hstep.
    + injection Hstep as <-. cbn. auto.
    + apply Z.leb_gt in Hempty.
      destruct stopped1; cbn [orb] in Hstep;
        [|destruct stopped2]; injection Hstep as <-; cbn; auto 10.
  - destruct frm; [|discriminate Hstep]. injection Hstep as <-.
    specialize (Hframe eq_refl). unfold NextReadable.
    destruct (negb (FrameQueue.keepLast q =? 0) && (FrameQueue.readIndexShown q =? 0))
      eqn:Hkeep; cbn.
    + apply andb_prop in Hkeep. destruct Hkeep as [_ Hz].
      apply Z.eqb_eq in Hz.
      repeat split; try lia; try discriminate; try assumption.
    + rewrite (wrap_int32_id (FrameQueue.count q - 1)) by int32_small.
      repeat split; try lia; try discriminate; try assumption.
Qed.

Lemma ring_run_ok ops : forall r r',
  ring_ok r -> ring_run ops r = Some r' -> ring_ok r'.
Proof.
  induction ops as [|op rest IH]; intros r r' Hok Hrun; cbn [ring_run] in Hrun.
  - injection Hrun as <-. exact Hok.
  - destruct (ring_step op r) as [r1|] eqn:Hstep; [|discriminate Hrun].
    apply (IH r1 r'); [|exact Hrun].
    apply (ring_step_ok op r r1 Hok Hstep).
Qed.

Lemma InitFrameQueue_ok capacity keepLast w queue w' :
  InitFrameQueue capacity keepLast w = (true, queue, w') ->
  ring_ok (mkRing queue false false).
Proof.
  unfold InitFrameQueue, bind, ret. intros H.
  set (cap := if to_uint32 capacity <? MAX_FRAME_QUEUE_COUNT
              then wrap_int32 (to_uint32 capacity) else MAX_FRAME_QUEUE_COUNT) in *.
  assert (Hcap : 0 <= cap <= MAX_FRAME_QUEUE_COUNT).
  { subst cap. unfold MAX_FRAME_QUEUE_COUNT, to_uint32.
    pose proof (Z.mod_pos_bound capacity (2 ^ 32) ltac:(lia)) as Hm.
    destruct (capacity mod 2 ^ 32 <? 8) eqn:Hlt; [|lia].
    apply Z.ltb_lt in Hlt. rewrite wrap_int32_id by int32_small. lia. }
  destruct (allocate_frames (Z.to_nat cap) w) as [[|] w1];
    [|discriminate H].
  injection H as <- <-.
  unfold ring_ok, ring_invariant. cbn. repeat split; try lia; try discriminate.
Qed.

(** C9 -- From the queue [InitFrameQueue] returns, every sequence of
    peeks, commits and advances in which [NextWritable] follows a
    successful [PeekWritableFromFrameQueue] and [NextReadable] a successful
    [PeekReadableFromFrameQueue] leaves [0 <= count <= capacity] and
    [count - readIndexShown >= 0], with [readIndexShown] either 0 or 1. *)
Theorem FrameQueue_ring_invariants :
  forall (capacity keepLast : Z) (w w' : World) (queue : FrameQueue.t)
         (ops : list FrameOp) (r : Ring),
    InitFrameQueue capacity keepLast w = (true, queue, w') ->
    ring_run ops (mkRing queue false false) = Some r ->
    0 <= FrameQueue.count (ring_queue r) <= FrameQueue.capacity (ring_queue r)
    /\ 0 <= FrameQueue.count (ring_queue r)
            - FrameQueue.readIndexShown (ring_queue r)
    /\ (FrameQueue.readIndexShown (ring_queue r) = 0
        \/ FrameQueue.readIndexShown (ring_queue r) = 1).
Proof.
  intros capacity keepLast w w' queue ops r Hinit Hrun.
  pose proof (InitFrameQueue_ok capacity keepLast w queue w' Hinit) as Hok.
  destruct (ring_run_ok ops _ r Hok Hrun) as (Hinv & _). exact Hinv.
Qed.

Lemma FrameQueue_ring_invariants_witness :
  option_map (fun r => (FrameQueue.count (ring_queue r),
                        FrameQueue.capacity (ring_queue r),
                        FrameQueue.readIndexShown (ring_queue r)))
    (ring_run sample_ring_ops (mkRing sample_ring false false))
  = Some (4, 4, 1)
  /\ (0 <= 4 <= 4 /\ 0 <= 4 - 1 /\ (1 = 0 \/ 1 = 1)).
Proof.
  split; [reflexivity|].
  exact (FrameQueue_ring_invariants MAX_VIDEO_FRAME_QUEUE_COUNT 1
           sample_world _ sample_ring sample_ring_ops
           (mkRing
              (FrameQueue.mk
                 (update_nth 0 FreeFrameData (FrameQueue.frames sample_ring))
                 1 1 4 4 1 1 true true)
              false false)
           eq_refl eq_refl).
Defined.

(* ================================================================== *)
(** ** Clocks *)
(* ================================================================== *)

Lemma isnan_NAN (x : double) : isnan x = true -> x = NAN.
Proof.
  intros H. apply isnan_Prim2SF in H. apply Prim2SF_inj. rewrite H. reflexivity.
Qed.

Lemma NAN_sub (y : double) : (NAN - y)%float = NAN.
Proof.
  apply Prim2SF_inj. rewrite sub_spec.
  change (Prim2SF NAN) with S754_nan. reflexivity.
Qed.

Lemma NAN_add (y : double) : (NAN + y)%float = NAN.
Proof.
  apply Prim2SF_inj. rewrite add_spec.
  change (Prim2SF NAN) with S754_nan. reflexivity.
Qed.

Lemma GetClock_stale mem clock w :
  mem (Clock.queueSerial clock) <> Clock.serial clock ->
  GetClock mem clock w = (NAN, w).
Proof.
  intros H. unfold GetClock. apply Z.eqb_neq in H. rewrite H. reflexivity.
Qed.

Lemma GetClock_current mem clock w :
  mem (Clock.queueSerial clock) = Clock.serial clock ->
  fst (GetClock mem clock w)
  = if Clock.isPaused clock then Clock.pts clock
    else drift_reading clock (gettime w (time_calls w)).
Proof.
  intros H. unfold GetClock. apply Z.eqb_eq in H. rewrite H. cbn [negb].
  destruct (Clock.isPaused clock); reflexivity.
Qed.

Lemma drift_reading_NAN clock t :
  isnan (Clock.ptsDrift clock) = true -> drift_reading clock t = NAN.
Proof.
  intros H. unfold drift_reading. rewrite (isnan_NAN _ H), NAN_add, NAN_sub.
  reflexivity.
Qed.

(** The external clock points to its own serial, so the two serials are
    always equal; yet it reads NaN after initialisation and after a
    byte-based seek. *)
Lemma GetClock_NaN_with_current_serial :
  (Clock.queueSerial (PlayerState.externalClock after_load) = ExternalClockSerial
   /\ load after_load ExternalClockSerial
      = Clock.serial (PlayerState.externalClock after_load)
   /\ isnan (external_reading after_load) = true)
  /\ (option_map (fun s => Clock.queueSerial (PlayerState.externalClock s))
        after_byte_seek = Some ExternalClockSerial
      /\ option_map (fun s => load s ExternalClockSerial
                              - Clock.serial (PlayerState.externalClock s))
           after_byte_seek = Some 0
      /\ option_map (fun s => isnan (external_reading s)) after_byte_seek
         = Some true).
Proof. repeat split; vm_compute; reflexivity. Qed.

(** C3 (amended) -- [GetClock] returns NaN whenever the serial the clock
    points to differs from the clock's own serial. When the two are equal
    it returns [pts] if the clock is paused and the drift-corrected time
    otherwise, and that value is NaN whenever the anchor ([pts], resp.
    [ptsDrift]) is NaN. *)
Theorem GetClock_reading :
  forall (mem : Memory) (clock : Clock.t) (w : World),
    (mem (Clock.queueSerial clock) <> Clock.serial clock ->
     fst (GetClock mem clock w) = NAN)
    /\ (mem (Clock.queueSerial clock) = Clock.serial clock ->
        fst (GetClock mem clock w)
        = if Clock.isPaused clock then Clock.pts clock
          else drift_reading clock (gettime w (time_calls w)))
    /\ (mem (Clock.queueSerial clock) = Clock.serial clock ->
        isnan (if Clock.isPaused clock then Clock.pts clock
               else Clock.ptsDrift clock) = true ->
        fst (GetClock mem clock w) = NAN).
Proof.
  intros mem clock w. repeat split.
  - intros H. rewrite (GetClock_stale mem clock w H). reflexivity.
  - apply GetClock_current.
  - intros H N. rewrite (GetClock_current mem clock w H).
    destruct (Clock.isPaused clock).
    + apply isnan_NAN. exact N.
    + apply drift_reading_NAN. exact N.
Qed.

Lemma GetClock_reading_witness :
  fst (GetClock (fun _ => 4) paused_clock sample_world) = NAN
  /\ fst (GetClock (fun _ => 3) paused_clock sample_world) = 2.5%float.
Proof.
  destruct (GetClock_reading (fun _ => 4) paused_clock sample_world) as (H1 & _).
  destruct (GetClock_reading (fun _ => 3) paused_clock sample_world) as (_ & H2 & _).
  split.
  - apply H1. cbn. discriminate.
  - rewrite H2; reflexivity.
Defined.

(** The external clock reads NaN, so the specification would snap it to
    the audio clock's serial 3; the code leaves it at serial -1, because
    the audio clock reads NaN as well. *)
Lemma SyncClockToSlave_keeps_clock_when_slave_is_NaN :
  snap_spec
    (fst (GetClock (load stale_audio) (PlayerState.externalClock stale_audio)
            sample_world))
    (fst (GetClock (load stale_audio) (audio_clock stale_audio) sample_world))
  = true
  /\ fst (SyncClockToSlave (load stale_audio)
            (PlayerState.externalClock stale_audio) (audio_clock stale_audio)
            sample_world)
     = PlayerState.externalClock stale_audio
  /\ Clock.serial (PlayerState.externalClock stale_audio) = -1
  /\ Clock.serial (audio_clock stale_audio) = 3.
Proof. repeat split; vm_compute; reflexivity. Qed.

(** C6 (amended) -- [SyncClockToSlave] sets the clock's [pts] and serial
    to the other clock's reading and serial exactly when the other reading
    is not NaN and either this clock's reading is NaN or the two readings
    differ by more than [AV_NOSYNC_THRESHOLD]; otherwise the clock is left
    as it is. *)
Theorem SyncClockToSlave_snaps :
  forall (mem : Memory) (c slave : Clock.t) (w : World),
    let clock := fst (GetClock mem c w) in
    let w1 := snd (GetClock mem c w) in
    let slaveClock := fst (GetClock mem slave w1) in
    let w2 := snd (GetClock mem slave w1) in
    let c' := fst (SyncClockToSlave mem c slave w) in
    (snap_condition clock slaveClock = true ->
     c' = SetClockAt c slaveClock (Clock.serial slave)
            (time_seconds (gettime w2 (time_calls w2)))
     /\ Clock.pts c' = slaveClock
     /\ Clock.serial c' = Clock.serial slave)
    /\ (snap_condition clock slaveClock = false -> c' = c).
Proof.
  intros mem c slave w. cbv zeta.
  unfold SyncClockToSlave, bind, snap_condition, snap_spec.
  destruct (GetClock mem c w) as [clock w1]. cbn [fst snd].
  destruct (GetClock mem slave w1) as [slaveClock w2]. cbn [fst snd].
  destruct (negb (isnan slaveClock)
            && (isnan clock || (AV_NOSYNC_THRESHOLD <? fabs (clock - slaveClock))%float)).
  - split; [intros _|discriminate]. repeat split.
  - split; [discriminate|intros _]. reflexivity.
Qed.

(** The external clock of a freshly loaded player follows a video clock
    that reads 2.5 s. *)
Lemma SyncClockToSlave_snaps_witness :
  Clock.pts (fst (SyncClockToSlave (fun _ => -1)
                    (PlayerState.externalClock after_load)
                    (Clock.mk 2.5%float 1.5%float 1.0%float 1.0%float
                       VideoQueueSerial (-1) true)
                    sample_world)) = 2.5%float.
Proof.
  destruct (SyncClockToSlave_snaps (fun _ => -1)
              (PlayerState.externalClock after_load)
              (Clock.mk 2.5%float 1.5%float 1.0%float 1.0%float
                 VideoQueueSerial (-1) true)
              sample_world) as (H & _).
  destruct (H eq_refl) as (_ & Hpts & _). exact Hpts.
Defined.

(* ================================================================== *)
(** ** Video delay *)
(* ================================================================== *)

Lemma sync_threshold_clamp (delay : double) :
  fplMax AV_SYNC_THRESHOLD_MIN (fplMin AV_SYNC_THRESHOLD_MAX delay)
  = clamp delay AV_SYNC_THRESHOLD_MIN AV_SYNC_THRESHOLD_MAX.
Proof.
  unfold fplMax, fplMin, clamp.
  destruct (AV_SYNC_THRESHOLD_MAX <? delay)%float eqn:Hhi.
  - destruct (delay <? AV_SYNC_THRESHOLD_MIN)%float eqn:Hlo; [|reflexivity].
    pose proof (ltb_trans _ _ _ Hhi Hlo) as H. vm_compute in H. discriminate H.
  - reflexivity.
Qed.

(** A threshold that some value reaches is positive. *)
Lemma clamp_threshold_pos (delay diff : double) :
  (clamp delay AV_SYNC_THRESHOLD_MIN AV_SYNC_THRESHOLD_MAX <=? diff)%float = true ->
  (0 <? clamp delay AV_SYNC_THRESHOLD_MIN AV_SYNC_THRESHOLD_MAX)%float = true.
Proof.
  unfold clamp.
  destruct (delay <? AV_SYNC_THRESHOLD_MIN)%float eqn:Hlo; [reflexivity|].
  destruct (AV_SYNC_THRESHOLD_MAX <? delay)%float eqn:Hhi; [reflexivity|].
  intros H. pose proof (leb_isnan_l _ _ H) as Hn.
  apply (ltb_leb_trans 0%float AV_SYNC_THRESHOLD_MIN delay); [reflexivity|].
  apply ltb_false_leb; [exact Hn|reflexivity|exact Hlo].
Qed.

Lemma ComputeVideoDelay_unfold state delay w :
  fst (ComputeVideoDelay state delay w)
  = match GetMasterSyncType state with
    | VideoMaster => delay
    | _ =>
        corrected_delay (PlayerState.maxFrameDuration state) delay
          (fst (GetClock (load state) (video_clock state) w)
           - fst (GetMasterClock state
                    (snd (GetClock (load state) (video_clock state) w))))%float
    end.
Proof.
  unfold ComputeVideoDelay, corrected_delay, bind, ret.
  rewrite <- sync_threshold_clamp.
  destruct (GetMasterSyncType state); try reflexivity;
    destruct (GetClock (load state) (video_clock state) w) as [v w1];
    cbn [fst snd];
    destruct (GetMasterClock state w1) as [m w2]; cbn [fst snd];
    repeat match goal with
    | |- context [if ?b then _ else _] => destruct b
    end; reflexivity.
Qed.

Lemma corrected_delay_cases maxFrameDuration delay diff :
  let threshold := clamp delay AV_SYNC_THRESHOLD_MIN AV_SYNC_THRESHOLD_MAX in
  let r := corrected_delay maxFrameDuration delay diff in
  (isnan diff = false -> (fabs diff <? maxFrameDuration)%float = true ->
   ((diff <=? - threshold)%float = true -> r = FFMAX 0%float (delay + diff)%float)
   /\ ((threshold <=? diff)%float = true ->
       (AV_SYNC_FRAMEDUP_THRESHOLD <? delay)%float = true ->
       r = (delay + diff)%float)
   /\ ((threshold <=? diff)%float = true ->
       (delay <=? AV_SYNC_FRAMEDUP_THRESHOLD)%float = true ->
       r = (2 * delay)%float)
   /\ ((fabs diff <? threshold)%float = true -> r = delay)
   /\ ((diff <=? - threshold)%float = false ->
       (threshold <=? diff)%float = false -> r = delay))
  /\ (isnan diff = true -> r = delay)
  /\ ((fabs diff <? maxFrameDuration)%float = false -> r = delay)
  /\ ((maxFrameDuration <=? fabs diff)%float = true -> r = delay).
Proof.
  cbv zeta. unfold corrected_delay.
  set (threshold := clamp delay AV_SYNC_THRESHOLD_MIN AV_SYNC_THRESHOLD_MAX).
  assert (Hneg : (threshold <=? diff)%float = true ->
                 (diff <=? - threshold)%float = false).
  { intros H. apply leb_opp_false; [|exact H].
    apply (clamp_threshold_pos delay diff H). }
  split; [|split; [|split]].
  - intros Hn Hmax. rewrite Hn, Hmax. cbn [negb andb]. repeat split.
    + intros H. rewrite H. reflexivity.
    + intros H Hd. rewrite (Hneg H), H, Hd. reflexivity.
    + intros H Hd. rewrite (Hneg H), H, (leb_ltb_false _ _ Hd). reflexivity.
    + intros H. destruct (fabs_ltb_inside _ _ H) as [H1 H2].
      rewrite H1, H2. reflexivity.
    + intros H1 H2. rewrite H1, H2. reflexivity.
  - intros Hn. rewrite Hn. reflexivity.
  - intros Hmax. rewrite Hmax, andb_false_r. reflexivity.
  - intros Hmax. rewrite (leb_ltb_false _ _ Hmax), andb_false_r. reflexivity.
Qed.

(** C2 -- [ComputeVideoDelay] returns the delay unchanged when the video
    clock is the master. Otherwise, with [diff] the video clock minus the
    master clock and the threshold the delay clamped to [0.04, 0.1]: when
    [diff] is not NaN and [|diff| < maxFrameDuration] it returns
    [max(0, delay + diff)] if [diff <= -threshold], [delay + diff] if
    [diff >= threshold] and [delay > 0.1], [2 * delay] if
    [diff >= threshold] and [delay <= 0.1]; in every remaining case
    ([|diff| < threshold], neither bound reached, [diff] NaN, or
    [|diff| >= maxFrameDuration]) it returns the delay. *)
Theorem ComputeVideoDelay_cases :
  forall (state : PlayerState.t) (delay : double) (w : World),
    let diff :=
      (fst (GetClock (load state) (video_clock state) w)
       - fst (GetMasterClock state
                (snd (GetClock (load state) (video_clock state) w))))%float in
    let threshold := clamp delay AV_SYNC_THRESHOLD_MIN AV_SYNC_THRESHOLD_MAX in
    let maxFrameDuration := PlayerState.maxFrameDuration state in
    let r := fst (ComputeVideoDelay state delay w) in
    (GetMasterSyncType state = VideoMaster -> r = delay)
    /\ (GetMasterSyncType state <> VideoMaster ->
        (isnan diff = false -> (fabs diff <? maxFrameDuration)%float = true ->
         ((diff <=? - threshold)%float = true ->
          r = FFMAX 0%float (delay + diff)%float)
         /\ ((threshold <=? diff)%float = true ->
             (AV_SYNC_FRAMEDUP_THRESHOLD <? delay)%float = true ->
             r = (delay + diff)%float)
         /\ ((threshold <=? diff)%float = true ->
             (delay <=? AV_SYNC_FRAMEDUP_THRESHOLD)%float = true ->
             r = (2 * delay)%float)
         /\ ((fabs diff <? threshold)%float = true -> r = delay)
         /\ ((diff <=? - threshold)%float = false ->
             (threshold <=? diff)%float = false -> r = delay))
        /\ (isnan diff = true -> r = delay)
        /\ ((fabs diff <? maxFrameDuration)%float = false -> r = delay)
        /\ ((maxFrameDuration <=? fabs diff)%float = true -> r = delay)).
Proof.
  intros state delay w. cbv zeta. rewrite ComputeVideoDelay_unfold. split.
  - intros H. rewrite H. reflexivity.
  - intros H.
    destruct (GetMasterSyncType state); [| congruence |];
      apply corrected_delay_cases.
Qed.

(** The video clock is a quarter of a second behind the audio clock for a
    40 ms frame: the delay shrinks to zero. *)
Lemma ComputeVideoDelay_cases_witness :
  fst (ComputeVideoDelay video_behind 0.04%float sample_world) = 0%float.
Proof.
  destruct (ComputeVideoDelay_cases video_behind 0.04%float sample_world)
    as (_ & H).
  destruct H as (H & _); [vm_compute; discriminate|].
  destruct (H eq_refl eq_refl) as (H1 & _).
  rewrite (H1 eq_refl). reflexivity.
Defined.

(* ================================================================== *)
(** ** The reader's back-pressure gate *)
(* ================================================================== *)

(** With 25 packets and two seconds in each queue the specification's gate
    is closed, but the reader goes on to read. *)
Lemma reader_reads_on_at_25_packets :
  PacketQueue.packetCount (audio_queue both_at_25) = 25
  /\ PacketQueue.packetCount (video_queue both_at_25) = 25
  /\ queued_seconds sample_avstream (audio_queue both_at_25) = 2.0%float
  /\ gate_spec sample_avstream sample_avstream both_at_25 = true
  /\ PacketReadThreadProc_limit both_at_25 = Some ReadOn.
Proof. repeat split; vm_compute; reflexivity. Qed.

Lemma StreamHasEnoughPackets_opened ms queue :
  stream_opened ms ->
  StreamHasEnoughPackets (MediaStream.stream ms) (MediaStream.streamIndex ms) queue
  = Some (enough_packets ms queue).
Proof.
  unfold StreamHasEnoughPackets, enough_packets, attached_pic, queued_seconds.
  intros [H|H].
  - apply Z.ltb_lt in H. rewrite H. reflexivity.
  - destruct (MediaStream.streamIndex ms <? 0); [reflexivity|].
    destruct (MediaStream.stream ms); [reflexivity|congruence].
Qed.

(** C7 (amended) -- The reader's back-pressure gate (the "Limit the
    queue?" test of [PacketReadThreadProc]) makes it sleep 10 ms and loop
    without reading a packet exactly when the buffer is not infinite and
    the summed byte size of the audio and video packet queues exceeds
    16 MiB, or both streams have enough packets; a stream has enough
    packets when its index is negative, its [AV_DISPOSITION_ATTACHED_PIC]
    flag is set, or its queue holds more than 25 packets and a queued
    duration that is zero or more than one second in the stream's time
    base. Otherwise the gate lets the reader go on to read; the sleep of
    the reader at the end of the file is no part of the gate. *)
Theorem reader_backpressure_gate :
  forall state : PlayerState.t,
    stream_opened (AudioContext.stream (PlayerState.audio state)) ->
    stream_opened (VideoContext.stream (PlayerState.video state)) ->
    PacketReadThreadProc_limit state
    = Some (if gate state then SleepAndContinue 10 else ReadOn).
Proof.
  intros state Ha Hv.
  unfold PacketReadThreadProc_limit, limit_queue, gate.
  rewrite (StreamHasEnoughPackets_opened _ (audio_queue state) Ha),
          (StreamHasEnoughPackets_opened _ (video_queue state) Hv).
  destruct (negb (PlayerState.isInfiniteBuffer state)
            && (MAX_PACKET_QUEUE_SIZE
                <? to_uint64 (PacketQueue.size (audio_queue state)
                              + PacketQueue.size (video_queue state))));
    [reflexivity|].
  cbn [orb].
  destruct (enough_packets _ (audio_queue state)); reflexivity.
Qed.

Lemma reader_backpressure_gate_witness :
  PacketReadThreadProc_limit both_at_26 = Some (SleepAndContinue 10).
Proof.
  rewrite (reader_backpressure_gate both_at_26).
  - reflexivity.
  - right. discriminate.
  - right. discriminate.
Defined.

(* ================================================================== *)
(** ** A failed seek *)
(* ================================================================== *)

#[local] Arguments time_seconds : simpl never.
#[local] Arguments double_of_Z : simpl never.

Lemma same_decoders_refl s : same_decoders s s.
Proof. repeat split. Qed.

Lemma same_decoders_trans s1 s2 s3 :
  same_decoders s1 s2 -> same_decoders s2 s3 -> same_decoders s1 s3.
Proof.
  unfold same_decoders. intros (A1 & A2 & A3 & A4) (B1 & B2 & B3 & B4).
  repeat split; congruence.
Qed.

Ltac open_state s :=
  destruct s as [? [? ? ?] [? ? ? ? ?] ? ? ? ? ? ? ? ? ? ? ? ? ? ? ?].

Lemma with_frameTimer_same s x :
  same_decoders s (with_frameTimer s x)
  /\ PlayerState.isPaused (with_frameTimer s x) = PlayerState.isPaused s.
Proof. open_state s. repeat split. Qed.

Lemma with_video_clock_same s c :
  same_decoders s (with_video s (with_video_clock (PlayerState.video s) c))
  /\ PlayerState.isPaused (with_video s (with_video_clock (PlayerState.video s) c))
     = PlayerState.isPaused s.
Proof. open_state s. repeat split. Qed.

Lemma with_externalClock_same s e :
  same_decoders s (with_externalClock s e)
  /\ PlayerState.isPaused (with_externalClock s e) = PlayerState.isPaused s.
Proof. open_state s. repeat split. Qed.

Lemma set_paused_same s p :
  same_decoders s (set_paused s p)
  /\ PlayerState.isPaused (set_paused s p) = p.
Proof. open_state s. repeat split. Qed.

(** *** Resuming re-anchors the clocks *)

Lemma GetClock_world mem c w :
  gettime (snd (GetClock mem c w)) = gettime w
  /\ (time_calls w <= time_calls (snd (GetClock mem c w)))%nat.
Proof.
  unfold GetClock, bind, ret, av_gettime_relative.
  destruct (negb (mem (Clock.queueSerial c) =? Clock.serial c));
    [split; [reflexivity|apply Nat.le_refl]|].
  destruct (Clock.isPaused c); cbn [snd gettime time_calls];
    split; try reflexivity; lia.
Qed.

Lemma SetClock_run c v serial w :
  SetClock c v serial w
  = (SetClockAt c v serial (time_seconds (gettime w (time_calls w))),
     mkWorld (gettime w) (S (time_calls w)) (alloc_ok w) (alloc_calls w)).
Proof. reflexivity. Qed.

Lemma with_frameTimer_clocks s x :
  video_clock (with_frameTimer s x) = video_clock s
  /\ audio_clock (with_frameTimer s x) = audio_clock s
  /\ PlayerState.externalClock (with_frameTimer s x)
     = PlayerState.externalClock s.
Proof. open_state s. repeat split. Qed.

Lemma with_video_clock_clocks s c :
  video_clock (with_video s (with_video_clock (PlayerState.video s) c)) = c
  /\ audio_clock (with_video s (with_video_clock (PlayerState.video s) c))
     = audio_clock s
  /\ PlayerState.externalClock
       (with_video s (with_video_clock (PlayerState.video s) c))
     = PlayerState.externalClock s.
Proof. open_state s. repeat split. Qed.

Lemma with_externalClock_clocks s e :
  video_clock (with_externalClock s e) = video_clock s
  /\ audio_clock (with_externalClock s e) = audio_clock s
  /\ PlayerState.externalClock (with_externalClock s e) = e.
Proof. open_state s. repeat split. Qed.

Lemma set_paused_clocks s p :
  video_clock (set_paused s p) = with_isPaused (video_clock s) p
  /\ audio_clock (set_paused s p) = with_isPaused (audio_clock s) p
  /\ PlayerState.externalClock (set_paused s p)
     = with_isPaused (PlayerState.externalClock s) p.
Proof. open_state s. repeat split. Qed.

Lemma with_step_clocks s n :
  video_clock (with_step s n) = video_clock s
  /\ audio_clock (with_step s n) = audio_clock s
  /\ PlayerState.externalClock (with_step s n) = PlayerState.externalClock s
  /\ PlayerState.isPaused (with_step s n) = PlayerState.isPaused s.
Proof. open_state s. repeat split. Qed.

Lemma seek_request_cleared_clocks s :
  video_clock (seek_request_cleared s) = video_clock s
  /\ audio_clock (seek_request_cleared s) = audio_clock s
  /\ PlayerState.externalClock (seek_request_cleared s)
     = PlayerState.externalClock s.
Proof. open_state s. repeat split. Qed.

Lemma SetClockAt_anchored c v serial (w w' : World) (n : nat) p :
  (time_calls w <= n < time_calls w')%nat ->
  anchored_between
    (with_isPaused (SetClockAt c v serial (time_seconds (gettime w n))) p)
    w w'.
Proof.
  intros Hn. split; [reflexivity|]. exists n. split; [exact Hn|reflexivity].
Qed.

(** Resuming a paused player: the video clock and the external clock are
    set anew at times read during the call, the audio clock only loses its
    pause flag, and all four pause flags are lowered. *)
Lemma StreamTogglePause_resume_anchors state w :
  PlayerState.isPaused state = true ->
  exists state' w',
    StreamTogglePause state w = (Some state', w')
    /\ same_decoders state state'
    /\ PlayerState.isPaused state' = false
    /\ Clock.isPaused (video_clock state') = false
    /\ Clock.isPaused (audio_clock state') = false
    /\ Clock.isPaused (PlayerState.externalClock state') = false
    /\ anchored_between (video_clock state') w w'
    /\ anchored_between (PlayerState.externalClock state') w w'
    /\ audio_clock state' = with_isPaused (audio_clock state) false.
Proof.
  intros Hp. unfold StreamTogglePause, bind, ret. rewrite Hp.
  destruct (av_gettime_relative w) as [t w0] eqn:E0.
  assert (W0 : gettime w0 = gettime w /\ time_calls w0 = S (time_calls w))
    by (unfold av_gettime_relative in E0; injection E0 as _ <-;
        split; reflexivity).
  clear E0. destruct W0 as [G0 T0].
  match goal with
  | |- context [with_frameTimer state ?x] =>
      destruct (with_frameTimer_same state x) as [S1 P1];
      destruct (with_frameTimer_clocks state x) as (V1 & A1 & X1);
      set (s1 := with_frameTimer state x) in *
  end.
  match goal with
  | |- context [with_video s1 (with_video_clock (PlayerState.video s1) ?c)] =>
      destruct (with_video_clock_same s1 c) as [S2 P2];
      destruct (with_video_clock_clocks s1 c) as (_ & A2 & X2);
      set (s2 := with_video s1 (with_video_clock (PlayerState.video s1) c)) in *
  end.
  destruct (GetClock_world (load s2) (video_clock s2) w0) as [G1 T1].
  destruct (GetClock (load s2) (video_clock s2) w0) as [v w1].
  cbn [snd] in G1, T1. rewrite SetClock_run.
  match goal with
  | |- context [with_video s2 (with_video_clock (PlayerState.video s2) ?c)] =>
      destruct (with_video_clock_same s2 c) as [S3 P3];
      destruct (with_video_clock_clocks s2 c) as (V3 & A3 & X3);
      set (s3 := with_video s2 (with_video_clock (PlayerState.video s2) c)) in *
  end.
  set (w2 := mkWorld (gettime w1) (S (time_calls w1)) (alloc_ok w1)
               (alloc_calls w1)).
  destruct (GetClock_world (load s3) (PlayerState.externalClock s3) w2)
    as [G3 T3].
  destruct (GetClock (load s3) (PlayerState.externalClock s3) w2) as [v' w3].
  cbn [snd] in G3, T3. rewrite SetClock_run.
  match goal with
  | |- context [with_externalClock s3 ?e] =>
      destruct (with_externalClock_same s3 e) as [S4 P4];
      destruct (with_externalClock_clocks s3 e) as (V4 & A4 & X4);
      set (s4 := with_externalClock s3 e) in *
  end.
  assert (P : PlayerState.isPaused s4 = true) by congruence.
  rewrite P. cbn [negb].
  destruct (set_paused_same s4 false) as [S5 P5].
  destruct (set_paused_clocks s4 false) as (V5 & A5 & X5).
  rewrite P5.
  eexists (set_paused s4 false), _. split; [reflexivity|].
  split.
  { repeat (eapply same_decoders_trans; [eassumption|]).
    apply same_decoders_refl. }
  split; [exact P5|]. rewrite V5, A5, X5.
  split; [reflexivity|]. split; [reflexivity|]. split; [reflexivity|].
  subst w2. cbn [gettime time_calls] in *.
  split.
  { rewrite V4, V3, G1, G0. apply SetClockAt_anchored.
    cbn [time_calls]. lia. }
  split.
  { rewrite X4, G3. cbn [gettime]. rewrite G1, G0.
    apply SetClockAt_anchored. cbn [time_calls] in *. lia. }
  rewrite A4, A3, A2, A1. reflexivity.
Qed.

(** The seek fails, and the reader's EOF flag is cleared all the same. *)
Lemma failed_seek_clears_reader_EOF :
  ReaderContext.isEOF (PlayerState.reader seek_pending_at_eof) = true
  /\ option_map (fun s => ReaderContext.isEOF (PlayerState.reader s))
       (fst (PacketReadThreadProc_seek seek_pending_at_eof (-1) sample_world))
     = Some false.
Proof. split; vm_compute; reflexivity. Qed.

(** C5 (amended) -- When [avformat_seek_file] returns a negative result,
    no decoder's packet queue is flushed or receives a flush packet and no
    decoder's EOF flag or resume signal is touched; the reader clears the
    pending request and its own EOF flag. If the player is running nothing
    else changes and no clock is read or set. If it is paused the reader
    still steps to the next frame: [step] is 1, playback is resumed (the
    pause flags of the player and of its three clocks are lowered), and
    the video clock and the external clock are re-anchored, each set anew
    at a time read from the wall clock during the call; the audio clock
    only loses its pause flag. *)
Theorem failed_seek_effects :
  forall (state : PlayerState.t) (seekResult : Z) (w : World),
    SeekState.isRequired (PlayerState.seek state) = true ->
    seekResult < 0 ->
    exists state',
      fst (PacketReadThreadProc_seek state seekResult w) = Some state'
      /\ VideoContext.decoder (PlayerState.video state')
         = VideoContext.decoder (PlayerState.video state)
      /\ AudioContext.decoder (PlayerState.audio state')
         = AudioContext.decoder (PlayerState.audio state)
      /\ SeekState.isRequired (PlayerState.seek state') = false
      /\ ReaderContext.isEOF (PlayerState.reader state') = false
      /\ (PlayerState.isPaused state = false ->
          state' = seek_request_cleared state
          /\ snd (PacketReadThreadProc_seek state seekResult w) = w)
      /\ (PlayerState.isPaused state = true ->
          PlayerState.step state' = 1
          /\ PlayerState.isPaused state' = false
          /\ Clock.isPaused (video_clock state') = false
          /\ Clock.isPaused (audio_clock state') = false
          /\ Clock.isPaused (PlayerState.externalClock state') = false
          /\ anchored_between (video_clock state') w
               (snd (PacketReadThreadProc_seek state seekResult w))
          /\ anchored_between (PlayerState.externalClock state') w
               (snd (PacketReadThreadProc_seek state seekResult w))
          /\ audio_clock state' = with_isPaused (audio_clock state) false).
Proof.
  intros state seekResult w Hreq Hfail.
  unfold PacketReadThreadProc_seek. rewrite Hreq.
  apply Z.ltb_lt in Hfail. rewrite Hfail. unfold bind, ret.
  fold (seek_request_cleared state).
  assert (Hp : PlayerState.isPaused (seek_request_cleared state)
               = PlayerState.isPaused state) by (destruct state; reflexivity).
  assert (Hv : VideoContext.decoder (PlayerState.video (seek_request_cleared state))
               = VideoContext.decoder (PlayerState.video state))
    by (destruct state; reflexivity).
  assert (Ha : AudioContext.decoder (PlayerState.audio (seek_request_cleared state))
               = AudioContext.decoder (PlayerState.audio state))
    by (destruct state; reflexivity).
  assert (Hs : SeekState.isRequired (PlayerState.seek (seek_request_cleared state))
               = false) by (destruct state; reflexivity).
  assert (He : ReaderContext.isEOF (PlayerState.reader (seek_request_cleared state))
               = false) by (destruct state; reflexivity).
  rewrite Hp. destruct (PlayerState.isPaused state) eqn:Hpaused.
  - unfold StepToNextFrame, bind, ret. rewrite Hp.
    destruct (StreamTogglePause_resume_anchors (seek_request_cleared state) w Hp)
      as (s1 & w1 & Hrun & (Hd1 & Hd2 & Hd3 & Hd4) & F0 & F1 & F2 & F3
          & Av & Ae & Hac).
    rewrite Hrun. cbn [fst snd option_map].
    exists (with_step s1 1).
    assert (Hw : forall s n,
               PlayerState.video (with_step s n) = PlayerState.video s
               /\ PlayerState.audio (with_step s n) = PlayerState.audio s
               /\ PlayerState.seek (with_step s n) = PlayerState.seek s
               /\ PlayerState.reader (with_step s n) = PlayerState.reader s
               /\ PlayerState.step (with_step s n) = n)
      by (intros [] n; repeat split).
    destruct (Hw s1 1) as (W1 & W2 & W3 & W4 & W5).
    destruct (with_step_clocks s1 1) as (C1 & C2 & C3 & C4).
    destruct (seek_request_cleared_clocks state) as (_ & R2 & _).
    rewrite W1, W2, W3, W4, W5, Hd1, Hd2, Hd3, Hd4, C1, C2, C3, C4.
    split; [reflexivity|]. split; [exact Hv|]. split; [exact Ha|].
    split; [exact Hs|]. split; [exact He|].
    split; [discriminate|]. intros _.
    split; [reflexivity|]. split; [exact F0|]. split; [exact F1|].
    split; [exact F2|]. split; [exact F3|]. split; [exact Av|].
    split; [exact Ae|]. rewrite Hac, R2. reflexivity.
  - cbn [fst snd]. exists (seek_request_cleared state).
    repeat split; try assumption; try discriminate.
Qed.

(** The failed seek of the running player at EOF: only the request and
    the reader's EOF flag change. The same seek on the paused player
    leaves it running, one frame to step. *)
Lemma failed_seek_effects_witness :
  fst (PacketReadThreadProc_seek seek_pending_at_eof (-1) sample_world)
  = Some (seek_request_cleared seek_pending_at_eof)
  /\ option_map (fun s => (PlayerState.step s, PlayerState.isPaused s,
                           Clock.isPaused (video_clock s),
                           Clock.isPaused (PlayerState.externalClock s)))
       (fst (PacketReadThreadProc_seek seek_pending_paused (-1) sample_world))
     = Some (1, false, false, false).
Proof.
  split.
  - destruct (failed_seek_effects seek_pending_at_eof (-1) sample_world eq_refl)
      as (s' & Hrun & _ & _ & _ & _ & Hrunning & _); [lia|].
    destruct (Hrunning eq_refl) as [-> _]. exact Hrun.
  - destruct (failed_seek_effects seek_pending_paused (-1) sample_world eq_refl)
      as (s' & Hrun & _ & _ & _ & _ & _ & Hpaused); [lia|].
    destruct (Hpaused eq_refl) as (E1 & E2 & E3 & _ & E4 & _).
    rewrite Hrun. cbn [option_map]. rewrite E1, E2, E3, E4. reflexivity.
Defined.

(* ================================================================== *)
(** ** External clock speed *)
(* ================================================================== *)

(** *** The finitely many reachable speeds *)

Lemma memb_In x l : memb x l = true -> In x l.
Proof.
  unfold memb. rewrite existsb_exists. intros (y & Hy & E).
  apply FloatAxioms.Leibniz.eqb_spec in E. subst y. exact Hy.
Qed.

Lemma reachable_speeds_closed : speeds_closed reachable_speeds = true.
Proof. vm_compute. reflexivity. Qed.

Lemma reachable_speeds_bounded : speeds_bounded reachable_speeds = true.
Proof. vm_compute. reflexivity. Qed.

Lemma reachable_speeds_step s :
  In s reachable_speeds ->
  In (slow_down s) reachable_speeds
  /\ In (speed_up s) reachable_speeds
  /\ In (nudge s) reachable_speeds.
Proof.
  intros H. pose proof reachable_speeds_closed as C. unfold speeds_closed in C.
  rewrite forallb_forall in C. specialize (C s H).
  apply andb_prop in C. destruct C as [C C3].
  apply andb_prop in C. destruct C as [C1 C2].
  repeat split; apply memb_In; assumption.
Qed.

Lemma SetClockSpeed_speed mem clock speed w :
  Clock.speed (fst (SetClockSpeed mem clock speed w)) = speed.
Proof.
  unfold SetClockSpeed, bind, ret.
  destruct (GetClock mem clock w) as [v w1].
  destruct (SetClock clock v (Clock.serial clock) w1) as [c w2].
  reflexivity.
Qed.

Lemma set_external_speed_speed state speed w :
  external_speed (fst (set_external_speed state speed w)) = speed.
Proof.
  unfold set_external_speed, bind, ret, external_speed.
  pose proof (SetClockSpeed_speed (load state) (PlayerState.externalClock state)
                speed w) as H.
  destruct (SetClockSpeed (load state) (PlayerState.externalClock state) speed w)
    as [c w1].
  cbn [fst] in *. destruct state. exact H.
Qed.

(** The speed after an update, whatever the packet counts are. *)
Lemma UpdateExternalClockSpeed_speed state w :
  external_speed (fst (UpdateExternalClockSpeed state w))
  = if queue_starved state then slow_down (external_speed state)
    else if queues_filled state then speed_up (external_speed state)
    else nudge (external_speed state).
Proof.
  unfold UpdateExternalClockSpeed, nudge.
  destruct (queue_starved state); [apply set_external_speed_speed|].
  destruct (queues_filled state); [apply set_external_speed_speed|].
  fold (external_speed state).
  destruct (negb (external_speed state =? 1.0)%float);
    [apply set_external_speed_speed|reflexivity].
Qed.

Lemma speed_reachable_listed s : speed_reachable s -> In s reachable_speeds.
Proof.
  induction 1 as [|state w _ IH].
  - apply memb_In. vm_compute. reflexivity.
  - rewrite UpdateExternalClockSpeed_speed.
    destruct (reachable_speeds_step _ IH) as (H1 & H2 & H3).
    destruct (queue_starved state); [exact H1|].
    destruct (queues_filled state); [exact H2|exact H3].
Qed.

(** The empty queue of the absent video stream holds at most two packets,
    so the specification's first case would slow the clock down; the code
    speeds it up. *)
Lemma audio_only_stream_speeds_up :
  external_speed audio_only = 1.0%float
  /\ PacketQueue.packetCount (video_queue audio_only) = 0
  /\ starved_spec audio_only = true
  /\ (slow_down (external_speed audio_only) <? 1.0)%float = true
  /\ (1.0 <? external_speed (fst (UpdateExternalClockSpeed audio_only sample_world)))%float
     = true.
Proof. repeat split; vm_compute; reflexivity. Qed.

(** C8 (amended) -- [UpdateExternalClockSpeed]: if a valid stream's packet
    queue holds at most 2 packets the speed is decreased by 0.001, bounded
    below by 0.900; otherwise, if every valid stream's queue holds more
    than 10 packets, it is increased by 0.001, bounded above by 1.010;
    otherwise a speed other than 1.0 is moved toward 1.0 by
    [0.001 * (1 - speed) / |1 - speed|]. Starting from speed 1.0 the speed
    therefore always stays within [0.900, 1.010]. *)
Theorem UpdateExternalClockSpeed_cases :
  (forall (state : PlayerState.t) (w : World),
     0 <= PacketQueue.packetCount (video_queue state) <= INT32_MAX ->
     0 <= PacketQueue.packetCount (audio_queue state) <= INT32_MAX ->
     external_speed (fst (UpdateExternalClockSpeed state w)) = next_speed state)
  /\ (forall speed : double,
        speed_reachable speed ->
        (EXTERNAL_CLOCK_SPEED_MIN <=? speed)%float = true
        /\ (speed <=? EXTERNAL_CLOCK_SPEED_MAX)%float = true).
Proof.
  split.
  - intros state w Hv Ha. rewrite UpdateExternalClockSpeed_speed.
    unfold next_speed, queue_starved, queues_filled, starved, filled.
    rewrite !to_uint32_id by (unfold INT32_MAX in *; lia).
    reflexivity.
  - intros speed H. apply speed_reachable_listed in H.
    pose proof reachable_speeds_bounded as B. unfold speeds_bounded in B.
    rewrite forallb_forall in B. specialize (B speed H).
    apply andb_prop in B. exact B.
Qed.

(** An update of the audio-only player: the speed goes up by one step and
    stays within the bounds. *)
Lemma UpdateExternalClockSpeed_cases_witness :
  external_speed (fst (UpdateExternalClockSpeed audio_only sample_world))
  = speed_up 1.0%float
  /\ (external_speed (fst (UpdateExternalClockSpeed audio_only sample_world))
      <=? EXTERNAL_CLOCK_SPEED_MAX)%float = true.
Proof.
  destruct UpdateExternalClockSpeed_cases as [Hstep Hbound].
  split.
  - rewrite (Hstep audio_only sample_world); [reflexivity| |];
      vm_compute; split; discriminate.
  - apply Hbound. apply (speed_updated audio_only sample_world).
    change (external_speed audio_only) with 1.0%float. apply speed_initial.
Defined.

(* ================================================================== *)
(** ** Packet queue: accounting *)
(* ================================================================== *)

Lemma to_uint64_add_l a b : to_uint64 (to_uint64 a + b) = to_uint64 (a + b).
Proof. unfold to_uint64. apply Zplus_mod_idemp_l. Qed.

Lemma to_uint64_add_r a b : to_uint64 (a + to_uint64 b) = to_uint64 (a + b).
Proof. unfold to_uint64. apply Zplus_mod_idemp_r. Qed.

Lemma to_uint64_sub_l a b : to_uint64 (to_uint64 a - b) = to_uint64 (a - b).
Proof. unfold to_uint64. apply Zminus_mod_idemp_l. Qed.

Lemma to_uint64_sub_r a b : to_uint64 (a - to_uint64 b) = to_uint64 (a - b).
Proof. unfold to_uint64. apply Zminus_mod_idemp_r. Qed.

Lemma wrap_int32_add_l a b : wrap_int32 (wrap_int32 a + b) = wrap_int32 (a + b).
Proof.
  unfold wrap_int32. f_equal.
  replace ((a + 2 ^ 31) mod 2 ^ 32 - 2 ^ 31 + b + 2 ^ 31)
    with ((a + 2 ^ 31) mod 2 ^ 32 + b) by lia.
  rewrite Zplus_mod_idemp_l. f_equal. lia.
Qed.

Lemma total_bytes_app l p : total_bytes (l ++ [p]) = total_bytes l + node_bytes p.
Proof. induction l as [|x l IH]; simpl; [lia|]. rewrite IH. lia. Qed.

Lemma total_duration_app l p :
  total_duration (l ++ [p])
  = total_duration l + AVPacket.duration (PacketList.packet p).
Proof. induction l as [|x l IH]; simpl; [lia|]. rewrite IH. lia. Qed.

Lemma PushPacket_accounted queue p :
  accounted queue -> accounted (PushPacket queue p).
Proof.
  unfold accounted, PushPacket. intros (Hs & Hd & Hc). cbn.
  rewrite Hs, Hd, Hc, total_bytes_app, total_duration_app, length_app.
  cbn [length]. fold (node_bytes p).
  rewrite to_uint64_add_r, to_uint64_add_l, to_uint64_add_l, wrap_int32_add_l.
  unfold node_bytes. cbn. repeat split; f_equal; lia.
Qed.

Lemma PopPacket_accounted queue p queue' :
  accounted queue -> PopPacket queue = Some (p, queue') -> accounted queue'.
Proof.
  unfold accounted, PopPacket. intros (Hs & Hd & Hc) H.
  destruct (PacketQueue.packets queue) as [|x rest] eqn:Hl; [discriminate H|].
  injection H as <- <-. cbn. rewrite Hs, Hd, Hc. cbn [total_bytes total_duration
    fold_right length]. fold (node_bytes x).
  rewrite to_uint64_sub_r, to_uint64_sub_l, to_uint64_sub_l.
  replace (wrap_int32 (Z.of_nat (S (length rest))) - 1)
    with (wrap_int32 (Z.of_nat (S (length rest))) + (-1)) by lia.
  rewrite wrap_int32_add_l.
  repeat split; f_equal; fold (total_bytes rest); fold (total_duration rest); lia.
Qed.

Lemma run_op_accounted op queue w :
  accounted queue -> accounted (snd (fst (run_op op queue w))).
Proof.
  intros H.
  destruct op;
    unfold run_op, StartPacketQueue, PushNullPacket, PushFlushPacket, AddPacket,
      bind, ret, allocate;
    cbn [fst snd];
    try destruct (alloc_ok w (alloc_calls w)); cbn [fst snd];
    try (apply PushPacket_accounted; exact H); try exact H.
  - destruct (PopPacket queue) as [[p q']|] eqn:Hp; [|exact H].
    apply (PopPacket_accounted queue p q' H Hp).
  - destruct (PopPacket queue) as [[p q']|] eqn:Hp; [|exact H].
    apply (PopPacket_accounted queue p q' H Hp).
  - repeat split.
  - repeat split.
Qed.

(** X1 -- The aggregates stay exact. From a queue whose [size],
    [duration] and [packetCount] agree with the nodes it holds (the zeroed
    queue does), every run of pushes, pops and flushes -- failed
    allocations included -- leaves a queue whose [size] is the sum of
    [packet.size + sizeof(PacketList)] over its nodes, whose [duration] is
    the sum of their durations (both modulo 2^64) and whose [packetCount]
    is their number. *)
Theorem PacketQueue_accounting :
  forall (ops : list QueueOp) (queue : PacketQueue.t) (w : World),
    accounted queue ->
    Forall (fun e => accounted (ev_after e)) (fst (fst (run_ops ops queue w)))
    /\ accounted (snd (fst (run_ops ops queue w))).
Proof.
  induction ops as [|op rest IH]; intros queue w H.
  - cbn. split; [constructor|exact H].
  - cbn [run_ops]. unfold bind, ret.
    pose proof (run_op_accounted op queue w H) as H1.
    destruct (run_op op queue w) as [[pushed q1] w1]. cbn [fst snd] in *.
    destruct (IH q1 w1 H1) as [IHa IHb].
    destruct (run_ops rest q1 w1) as [[events q2] w2]. cbn [fst snd] in *.
    split; [constructor; [exact H1|exact IHa]|exact IHb].
Qed.

Lemma PacketQueue_accounting_witness :
  PacketQueue.size queue_across_flush
  = (1500 + 104) + (900 + 104) + 104 + (700 + 104)
  /\ PacketQueue.duration queue_across_flush = 120
  /\ PacketQueue.packetCount queue_across_flush = 4.
Proof.
  assert (H0 : accounted zero_queue) by (repeat split).
  destruct (PacketQueue_accounting
              [OpStartPacketQueue;
               OpAddPacket (AVPacket.mk (Payload 4096) 1500 40 0 0 0);
               OpAddPacket (AVPacket.mk (Payload 8192) 900 40 0 40 40);
               OpPushFlushPacket;
               OpAddPacket (AVPacket.mk (Payload 12288) 700 40 0 5000 5000);
               OpPopPacket]
              zero_queue sample_world H0) as [_ (Hs & Hd & Hc)].
  fold queue_across_flush in Hs, Hd, Hc.
  rewrite Hs, Hd, Hc. repeat split; vm_compute; reflexivity.
Defined.

(* ================================================================== *)
(** ** Packet queue: the serial barrier *)
(* ================================================================== *)

Lemma tags_ordered_snoc l n :
  tags_ordered l ->
  Forall (fun x => PacketList.serial x <= PacketList.serial n
                   /\ (IsFlushPacket n = true ->
                       PacketList.serial x < PacketList.serial n)) l ->
  tags_ordered (l ++ [n]).
Proof.
  induction l as [|x l IH]; intros Ho Hn; cbn [app tags_ordered].
  - split; [constructor|exact I].
  - destruct Ho as [Hx Ho]. inversion Hn as [|? ? Hxn Hln]; subst.
    split; [|apply IH; assumption].
    apply Forall_app. split; [exact Hx|]. constructor; [exact Hxn|constructor].
Qed.

Lemma last_tag_cons queue x rest :
  PacketQueue.packets queue = x :: rest -> rest <> [] ->
  last_tag queue = option_map PacketList.serial (last (map Some rest) None).
Proof.
  intros Hl Hne. unfold last_tag. rewrite Hl.
  destruct rest as [|y rest']; [congruence|]. reflexivity.
Qed.

Lemma PushPacket_barrier queue p :
  barrier queue ->
  in_int32 (PacketQueue.serial queue) ->
  (IsFlushPacket p = true -> PacketQueue.serial queue < INT32_MAX) ->
  barrier (PushPacket queue p).
Proof.
  intros (Ho & Hle & _) Hr Hroom.
  assert (Hs : PacketQueue.serial queue <= push_serial queue p
               /\ (IsFlushPacket p = true ->
                   PacketQueue.serial queue < push_serial queue p)).
  { destruct (IsFlushPacket p) eqn:Hf.
    - rewrite (push_serial_flush queue p Hr (Hroom eq_refl) Hf). lia.
    - rewrite (push_serial_data queue p Hf). split; [lia|discriminate]. }
  destruct Hs as [Hs1 Hs2].
  unfold barrier. split; [|split].
  - cbn [PushPacket PacketQueue.packets]. apply tags_ordered_snoc; [exact Ho|].
    eapply Forall_impl; [|exact Hle]. cbn. intros x Hx.
    change (IsFlushPacket (PacketList.mk (PacketList.packet p) (push_serial queue p)))
      with (IsFlushPacket p).
    split; [lia|]. intros Hf. specialize (Hs2 Hf). lia.
  - cbn [PushPacket PacketQueue.packets PacketQueue.serial].
    apply Forall_app. split.
    + eapply Forall_impl; [|exact Hle]. cbn. intros x Hx. lia.
    + constructor; [cbn; lia|constructor].
  - right. rewrite PushPacket_last_tag, PushPacket_serial. reflexivity.
Qed.

Lemma PopPacket_shape queue p queue' :
  PopPacket queue = Some (p, queue') ->
  PacketQueue.packets queue = p :: PacketQueue.packets queue'
  /\ PacketQueue.serial queue' = PacketQueue.serial queue.
Proof.
  unfold PopPacket. destruct (PacketQueue.packets queue) as [|x rest];
    [discriminate|]. intros H. injection H as <- <-. split; reflexivity.
Qed.

Lemma PopPacket_barrier queue p queue' :
  barrier queue -> PopPacket queue = Some (p, queue') -> barrier queue'.
Proof.
  intros (Ho & Hle & Hlast) Hp.
  destruct (PopPacket_shape queue p queue' Hp) as [Hl Hs].
  rewrite Hl in Ho, Hle. cbn [tags_ordered] in Ho. destruct Ho as [_ Ho].
  inversion Hle as [|? ? _ Hle']; subst.
  unfold barrier. rewrite Hs. split; [exact Ho|]. split; [exact Hle'|].
  destruct (PacketQueue.packets queue') as [|y rest'] eqn:Hq'; [left; reflexivity|].
  right. destruct Hlast as [Hnil|Hlast]; [congruence|].
  rewrite <- Hlast. unfold last_tag. rewrite Hl, Hq'. reflexivity.
Qed.

Lemma run_op_barrier op queue w :
  barrier queue ->
  in_int32 (PacketQueue.serial queue) ->
  (pushed_flush (mkEvent queue op (fst (fst (run_op op queue w)))
                   (snd (fst (run_op op queue w)))) = true ->
   PacketQueue.serial queue < INT32_MAX) ->
  barrier (snd (fst (run_op op queue w))).
Proof.
  intros Hb Hr Hroom.
  destruct op;
    unfold run_op, StartPacketQueue, PushNullPacket, PushFlushPacket, AddPacket,
      bind, ret, allocate, pushed_flush in *;
    cbn [fst snd ev_pushed av_init_packet zeroed_packet] in *;
    try destruct (alloc_ok w (alloc_calls w));
    cbn [fst snd ev_pushed] in *;
    try (apply PushPacket_barrier;
         [exact Hb|exact Hr|first [exact Hroom|discriminate]]);
    try exact Hb.
  - destruct (PopPacket queue) as [[p q']|] eqn:Hp; [|exact Hb].
    apply (PopPacket_barrier queue p q' Hb Hp).
  - destruct (PopPacket queue) as [[p q']|] eqn:Hp; [|exact Hb].
    apply (PopPacket_barrier queue p q' Hb Hp).
  - unfold barrier. cbn. repeat split; constructor; reflexivity.
  - unfold barrier. cbn. repeat split; constructor; reflexivity.
Qed.

Lemma zero_queue_barrier : barrier zero_queue.
Proof. unfold barrier. cbn. repeat split; constructor; reflexivity. Qed.

Lemma queue_across_flush_barrier : barrier queue_across_flush.
Proof.
  unfold barrier, last_tag.
  set (l := PacketQueue.packets queue_across_flush).
  set (n := PacketQueue.serial queue_across_flush).
  vm_compute in l, n. subst l n. cbn [tags_ordered map last option_map].
  split; [|split; [|right; reflexivity]];
    repeat split; repeat constructor; try lia; try discriminate.
Qed.

(** X2 -- The serial barrier. As long as the serial does not overflow,
    every run of queue operations keeps the tags of the queued nodes in
    non-decreasing order from head to tail, gives every queued flush packet
    a tag greater than that of every node queued before it, keeps every
    tag at or below the queue's serial, and leaves the tail node tagged
    with the queue's serial. *)
Theorem PacketQueue_serial_barrier :
  forall (ops : list QueueOp) (queue : PacketQueue.t) (w : World),
    barrier queue ->
    in_int32 (PacketQueue.serial queue) ->
    PacketQueue.serial queue + flush_pushes (fst (fst (run_ops ops queue w)))
      <= INT32_MAX ->
    barrier (snd (fst (run_ops ops queue w))).
Proof.
  induction ops as [|op rest IH]; intros queue w Hb Hr Hroom.
  - exact Hb.
  - cbn [run_ops] in *. unfold bind, ret in *.
    destruct (run_op op queue w) as [[pushed q1] w1] eqn:Hop.
    cbn [fst snd] in *.
    destruct (run_ops rest q1 w1) as [[events q2] w2] eqn:Hrest.
    cbn [fst snd] in *. rewrite flush_pushes_cons in Hroom.
    pose proof (flush_pushes_nonneg events) as Hnn.
    assert (Hfree : pushed_flush (mkEvent queue op pushed q1) = true ->
                    PacketQueue.serial queue < INT32_MAX).
    { intros Hf. rewrite Hf in Hroom. lia. }
    assert (Hev : event_disciplined (mkEvent queue op pushed q1)).
    { pose proof (run_op_disciplined op queue w Hr) as H.
      rewrite Hop in H. cbn [fst snd] in H. apply H. exact Hfree. }
    pose proof (event_disciplined_serial _ Hev) as Hs.
    cbn [ev_before ev_after] in Hs.
    assert (Hb1 : barrier q1).
    { pose proof (run_op_barrier op queue w Hb Hr) as H.
      rewrite Hop in H. cbn [fst snd] in H. apply H. exact Hfree. }
    assert (Hr1 : in_int32 (PacketQueue.serial q1)).
    { unfold in_int32, INT32_MIN, INT32_MAX in *.
      destruct (pushed_flush (mkEvent queue op pushed q1)); lia. }
    specialize (IH q1 w1 Hb1 Hr1). rewrite Hrest in IH. cbn [fst snd] in IH.
    apply IH. lia.
Qed.

Lemma PacketQueue_serial_barrier_witness :
  map PacketList.serial (PacketQueue.packets queue_across_flush) = [1; 1; 2; 2]
  /\ barrier queue_across_flush.
Proof.
  split; [reflexivity|].
  apply (PacketQueue_serial_barrier
           [OpStartPacketQueue;
            OpAddPacket (AVPacket.mk (Payload 4096) 1500 40 0 0 0);
            OpAddPacket (AVPacket.mk (Payload 8192) 900 40 0 40 40);
            OpPushFlushPacket;
            OpAddPacket (AVPacket.mk (Payload 12288) 700 40 0 5000 5000);
            OpPopPacket]
           zero_queue sample_world zero_queue_barrier).
  - unfold in_int32, INT32_MIN, INT32_MAX. cbn. lia.
  - vm_compute. discriminate.
Defined.

(* ================================================================== *)
(** ** The decoder's packet fetch *)
(* ================================================================== *)

Lemma fetch_from_spec : forall (nodes : list PacketList.t)
    (queue : PacketQueue.t) (pktSerial : Z),
  nodes = PacketQueue.packets queue ->
  PacketQueue.serial (snd (fst (fetch_from nodes queue pktSerial)))
  = PacketQueue.serial queue
  /\ match fst (fst (fetch_from nodes queue pktSerial)) with
     | Some pkt =>
         snd (fetch_from nodes queue pktSerial) = PacketQueue.serial queue
         /\ PacketList.serial pkt = PacketQueue.serial queue
         /\ exists skipped,
              PacketQueue.packets queue
              = skipped ++ pkt
                :: PacketQueue.packets (snd (fst (fetch_from nodes queue pktSerial)))
              /\ Forall (fun x => PacketList.serial x <> PacketQueue.serial queue)
                   skipped
     | None =>
         PacketQueue.packets (snd (fst (fetch_from nodes queue pktSerial))) = []
         /\ Forall (fun x => PacketList.serial x <> PacketQueue.serial queue)
              (PacketQueue.packets queue)
     end.
Proof.
  induction nodes as [|x rest IH]; intros queue pktSerial Hn; cbn [fetch_from].
  - cbn [fst snd]. rewrite <- Hn. repeat split; constructor.
  - destruct (PopPacket queue) as [[pkt q']|] eqn:Hp.
    + destruct (PopPacket_shape queue pkt q' Hp) as [Hl Hs].
      assert (Hx : x = pkt /\ rest = PacketQueue.packets q').
      { rewrite Hl in Hn. injection Hn as -> ->. split; reflexivity. }
      destruct Hx as [-> Hrest].
      destruct (PacketQueue.serial q' =? PacketList.serial pkt) eqn:He;
        cbn [negb fst snd].
      * apply Z.eqb_eq in He. rewrite <- Hs.
        repeat split; try congruence.
        exists []. split; [exact Hl|constructor].
      * apply Z.eqb_neq in He.
        specialize (IH q' (PacketList.serial pkt) Hrest).
        destruct IH as [IH1 IH2]. rewrite Hs in IH1, IH2.
        split; [exact IH1|].
        destruct (fst (fst (fetch_from rest q' (PacketList.serial pkt))))
          as [found|].
        -- destruct IH2 as (E1 & E2 & skipped & E3 & E4).
           repeat split; try assumption.
           exists (pkt :: skipped). split.
           ++ rewrite Hl, E3. reflexivity.
           ++ constructor; [congruence|exact E4].
        -- destruct IH2 as [E1 E2]. split; [exact E1|].
           rewrite Hl. constructor; [congruence|exact E2].
    + unfold PopPacket in Hp. rewrite <- Hn in Hp. discriminate Hp.
Qed.

(** X3 -- The packet fetch of [DecodeFrame] never hands over a stale
    packet. The pending packet of a decoder is always the packet fetched
    last, tagged [pktSerial]: the theorem assumes it of the call and shows
    it again of whatever the call leaves pending, and no packet is pending
    before the first call. When the fetch leaves a packet in [pkt], the
    packet's tag and [pktSerial] both equal the queue's serial; the packet
    is either the pending one (and then nothing was popped) or a queued
    node, and every node popped before it carried another serial. When it
    gives up ([RequireMorePackets]) the queue is empty. On a queue that
    keeps the serial barrier and is not empty it never gives up. *)
Theorem DecodeFrame_fetch_never_stale :
  forall (pending : option PacketList.t) (queue : PacketQueue.t) (pktSerial : Z),
    pending_tagged pending pktSerial ->
    PacketQueue.serial (snd (fst (fetch_packet pending queue pktSerial)))
    = PacketQueue.serial queue
    /\ match fst (fst (fetch_packet pending queue pktSerial)) with
       | Some pkt =>
           snd (fetch_packet pending queue pktSerial) = PacketQueue.serial queue
           /\ PacketList.serial pkt = PacketQueue.serial queue
           /\ ((pending = Some pkt
                /\ snd (fst (fetch_packet pending queue pktSerial)) = queue)
               \/ (exists skipped,
                     PacketQueue.packets queue
                     = skipped ++ pkt
                       :: PacketQueue.packets
                            (snd (fst (fetch_packet pending queue pktSerial)))
                     /\ Forall (fun x => PacketList.serial x
                                         <> PacketQueue.serial queue) skipped))
       | None =>
           PacketQueue.packets (snd (fst (fetch_packet pending queue pktSerial)))
           = []
       end
    /\ (forall eagain : bool,
          pending_tagged
            (resubmit eagain (fst (fst (fetch_packet pending queue pktSerial))))
            (snd (fetch_packet pending queue pktSerial)))
    /\ (barrier queue -> PacketQueue.packets queue <> [] ->
        fst (fst (fetch_packet pending queue pktSerial)) <> None).
Proof.
  intros pending queue pktSerial Htag.
  pose proof (fetch_from_spec (PacketQueue.packets queue) queue pktSerial eq_refl)
    as [F1 F2].
  assert (Hnever : barrier queue -> PacketQueue.packets queue <> [] ->
            fst (fst (fetch_from (PacketQueue.packets queue) queue pktSerial))
            <> None).
  { intros (_ & _ & Hlast) Hne Hnone. rewrite Hnone in F2.
    destruct F2 as [_ Hall]. destruct Hlast as [Hnil|Hlast]; [congruence|].
    unfold last_tag in Hlast.
    destruct (PacketQueue.packets queue) as [|x l] using rev_ind; [congruence|].
    rewrite last_snoc_some in Hlast. cbn in Hlast. injection Hlast as Hlast.
    apply Forall_app in Hall. destruct Hall as [_ Hall].
    inversion Hall; subst. congruence. }
  assert (Hresubmit : forall (pkt : option PacketList.t) (serial : Z),
            (forall p, pkt = Some p -> PacketList.serial p = serial) ->
            forall eagain, pending_tagged (resubmit eagain pkt) serial).
  { intros [p|] serial Hp eagain q; cbn [resubmit]; [|discriminate].
    destruct (IsFlushPacket p); [discriminate|].
    destruct eagain; [|discriminate].
    intros E. injection E as <-. apply Hp. reflexivity. }
  assert (Hfrom :
    PacketQueue.serial
      (snd (fst (fetch_from (PacketQueue.packets queue) queue pktSerial)))
    = PacketQueue.serial queue
    /\ match fst (fst (fetch_from (PacketQueue.packets queue) queue pktSerial))
       with
       | Some pkt =>
           snd (fetch_from (PacketQueue.packets queue) queue pktSerial)
           = PacketQueue.serial queue
           /\ PacketList.serial pkt = PacketQueue.serial queue
           /\ ((pending = Some pkt
                /\ snd (fst (fetch_from (PacketQueue.packets queue) queue
                               pktSerial)) = queue)
               \/ (exists skipped,
                     PacketQueue.packets queue
                     = skipped ++ pkt
                       :: PacketQueue.packets
                            (snd (fst (fetch_from (PacketQueue.packets queue)
                                         queue pktSerial)))
                     /\ Forall (fun x => PacketList.serial x
                                         <> PacketQueue.serial queue) skipped))
       | None =>
           PacketQueue.packets
             (snd (fst (fetch_from (PacketQueue.packets queue) queue pktSerial)))
           = []
       end
    /\ (forall eagain : bool,
          pending_tagged
            (resubmit eagain
               (fst (fst (fetch_from (PacketQueue.packets queue) queue
                            pktSerial))))
            (snd (fetch_from (PacketQueue.packets queue) queue pktSerial)))
    /\ (barrier queue -> PacketQueue.packets queue <> [] ->
        fst (fst (fetch_from (PacketQueue.packets queue) queue pktSerial))
        <> None)).
  { split; [exact F1|].
    destruct (fst (fst (fetch_from (PacketQueue.packets queue) queue pktSerial)))
      as [found|] eqn:Efound.
    - destruct F2 as (E1 & E2 & E3).
      split; [split; [exact E1|split; [exact E2|right; exact E3]]|].
      split; [|exact Hnever].
      apply Hresubmit. intros p Ep. injection Ep as <-. congruence.
    - split; [apply F2|]. split; [|exact Hnever].
      apply Hresubmit. discriminate. }
  unfold fetch_packet.
  destruct pending as [pkt|]; [|exact Hfrom].
  destruct (PacketQueue.serial queue =? pktSerial) eqn:He; cbn [negb];
    [|exact Hfrom].
  apply Z.eqb_eq in He. cbn [fst snd].
  pose proof (Htag pkt eq_refl) as Hpkt.
  split; [reflexivity|].
  split; [split; [congruence|split; [congruence|left; split; reflexivity]]|].
  split; [apply Hresubmit; intros p Ep; injection Ep as <-; exact Hpkt|].
  discriminate.
Qed.

(** The decoder is still at serial 1 and holds a packet of serial 1
    pending when it fetches from the queue that holds two packets of
    serial 1 before the flush packet of serial 2: the pending packet and
    both queued ones are dropped, and the flush packet is handed over with
    the queue's serial. *)
Lemma DecodeFrame_fetch_never_stale_witness :
  option_map IsFlushPacket
    (fst (fst (fetch_packet (Some stale_pending) queue_across_flush 1)))
  = Some true
  /\ option_map PacketList.serial
       (fst (fst (fetch_packet (Some stale_pending) queue_across_flush 1)))
     = Some (PacketQueue.serial queue_across_flush).
Proof.
  split; [reflexivity|].
  assert (Htag : pending_tagged (Some stale_pending) 1)
    by (intros p E; injection E as <-; reflexivity).
  destruct (DecodeFrame_fetch_never_stale (Some stale_pending)
              queue_across_flush 1 Htag) as (_ & H & _ & Hsome).
  destruct (fst (fst (fetch_packet (Some stale_pending) queue_across_flush 1)))
    as [pkt|].
  - destruct H as (_ & E & _). cbn [option_map]. rewrite E. reflexivity.
  - exfalso. apply Hsome;
      [exact queue_across_flush_barrier|discriminate|reflexivity].
Defined.

(* ================================================================== *)
(** ** Frame queue: slots *)
(* ================================================================== *)

Lemma rem_mod_small a n : 0 <= a -> 0 < n -> Z.rem a n = a mod n.
Proof. intros. apply Z.rem_mod_nonneg; lia. Qed.

Lemma mod_succ_shift r c n :
  0 < n -> ((r + c) mod n + 1) mod n = (r + (c + 1)) mod n.
Proof. intros. rewrite Zplus_mod_idemp_l. f_equal. lia. Qed.

Lemma mod_pred_shift r c n :
  0 < n -> ((r + 1) mod n + (c - 1)) mod n = (r + c) mod n.
Proof. intros. rewrite Zplus_mod_idemp_l. f_equal. lia. Qed.

(** Two slots less than a ring apart are different. *)
Lemma mod_slots_differ r j k n :
  0 < n -> 0 <= j < k -> k - j < n -> (r + j) mod n <> (r + k) mod n.
Proof.
  intros Hn Hjk Hlt E.
  assert (H : ((r + k) - (r + j)) mod n = 0).
  { rewrite Zminus_mod, E, Z.sub_diag. apply Z.mod_0_l. lia. }
  replace (r + k - (r + j)) with (k - j) in H by lia.
  rewrite Z.mod_small in H; lia.
Qed.

Lemma ring_step_indexed op r r' :
  ring_ok r -> ring_indexed (ring_queue r) -> ring_step op r = Some r' ->
  ring_indexed (ring_queue r').
Proof.
  unfold ring_ok, ring_invariant, ring_indexed.
  intros ((Hc & Hrem & Hshown) & Hcap & Hslot & Hframe)
         (Hlen & Hr & Hw & Hwr) Hstep.
  destruct r as [q slot frm]. cbn [ring_queue holds_slot holds_frame] in *.
  destruct op; cbn [ring_step ring_queue holds_slot holds_frame] in Hstep.
  - destruct (PeekWritableFromFrameQueue q stopped1 stopped2);
      injection Hstep as <-; cbn; auto.
  - destruct slot; [|discriminate Hstep]. injection Hstep as <-.
    specialize (Hslot eq_refl). cbn.
    rewrite (wrap_int32_id (FrameQueue.writeIndex q + 1)) by int32_small.
    rewrite (wrap_int32_id (FrameQueue.count q + 1)) by int32_small.
    rewrite rem_mod_small by lia.
    pose proof (Z.mod_pos_bound (FrameQueue.writeIndex q + 1)
                  (FrameQueue.capacity q) ltac:(lia)).
    repeat split; try lia.
    rewrite Hwr at 1. apply mod_succ_shift. lia.
  - destruct (PeekReadableFromFrameQueue q stopped1 stopped2);
      injection Hstep as <-; cbn; auto.
  - destruct frm; [|discriminate Hstep]. injection Hstep as <-.
    specialize (Hframe eq_refl). unfold NextReadable.
    destruct (negb (FrameQueue.keepLast q =? 0) && (FrameQueue.readIndexShown q =? 0));
      cbn; [auto|].
    rewrite (wrap_int32_id (FrameQueue.readIndex q + 1)) by int32_small.
    rewrite (wrap_int32_id (FrameQueue.count q - 1)) by int32_small.
    rewrite rem_mod_small by lia.
    pose proof (Z.mod_pos_bound (FrameQueue.readIndex q + 1)
                  (FrameQueue.capacity q) ltac:(lia)).
    assert (Hl : forall (f : Frame.t -> Frame.t) n l,
               length (update_nth n f l) = length l).
    { intros f n l. revert n. induction l as [|x l IH]; intros [|n]; cbn;
        try reflexivity. rewrite IH. reflexivity. }
    rewrite Hl. repeat split; try lia.
    rewrite mod_pred_shift by lia. exact Hwr.
Qed.

Lemma ring_run_indexed ops : forall r r',
  ring_ok r -> ring_indexed (ring_queue r) -> ring_run ops r = Some r' ->
  ring_ok r' /\ ring_indexed (ring_queue r').
Proof.
  induction ops as [|op rest IH]; intros r r' Hok Hidx Hrun;
    cbn [ring_run] in Hrun.
  - injection Hrun as <-. split; assumption.
  - destruct (ring_step op r) as [r1|] eqn:Hstep; [|discriminate Hrun].
    apply (IH r1 r'); [| |exact Hrun].
    + apply (ring_step_ok op r r1 Hok Hstep).
    + apply (ring_step_indexed op r r1 Hok Hidx Hstep).
Qed.

Lemma InitFrameQueue_indexed capacity keepLast w queue w' :
  InitFrameQueue capacity keepLast w = (true, queue, w') ->
  0 < FrameQueue.capacity queue ->
  ring_indexed queue.
Proof.
  unfold InitFrameQueue, bind, ret. intros H.
  set (cap := if to_uint32 capacity <? MAX_FRAME_QUEUE_COUNT
              then wrap_int32 (to_uint32 capacity) else MAX_FRAME_QUEUE_COUNT) in *.
  assert (Hcap : 0 <= cap <= MAX_FRAME_QUEUE_COUNT).
  { subst cap. unfold MAX_FRAME_QUEUE_COUNT, to_uint32.
    pose proof (Z.mod_pos_bound capacity (2 ^ 32) ltac:(lia)) as Hm.
    destruct (capacity mod 2 ^ 32 <? 8) eqn:Hlt; [|lia].
    apply Z.ltb_lt in Hlt. rewrite wrap_int32_id by int32_small. lia. }
  destruct (allocate_frames (Z.to_nat cap) w) as [[|] w1];
    [|discriminate H].
  injection H as <- <-. cbn. intros Hpos. unfold ring_indexed. cbn.
  unfold MAX_FRAME_QUEUE_COUNT in *. try rewrite Z.mod_0_l by lia.
  repeat split; lia.
Qed.

(** X4 -- The ring keeps its indices. From the queue [InitFrameQueue]
    returns with a positive capacity, every sequence of peeks, commits and
    advances that follows the peek protocol keeps [readIndex] and
    [writeIndex] inside [[0, capacity)] and [writeIndex] exactly [count]
    slots after [readIndex]; every slot a peek returns lies inside the
    ring, and the slot [PeekWritableFromFrameQueue] hands to the producer
    is none of the slots that still hold a frame. *)
Theorem FrameQueue_ring_indices :
  forall (capacity keepLast : Z) (w w' : World) (queue : FrameQueue.t)
         (ops : list FrameOp) (r : Ring),
    InitFrameQueue capacity keepLast w = (true, queue, w') ->
    0 < FrameQueue.capacity queue ->
    ring_run ops (mkRing queue false false) = Some r ->
    ring_indexed (ring_queue r)
    /\ (forall s1 s2 i,
          PeekWritableFromFrameQueue (ring_queue r) s1 s2 = Some i ->
          0 <= i < FrameQueue.capacity (ring_queue r)
          /\ ~ In i (held_slots (ring_queue r)))
    /\ (forall s1 s2 i,
          PeekReadableFromFrameQueue (ring_queue r) s1 s2 = Some i ->
          0 <= i < FrameQueue.capacity (ring_queue r)).
Proof.
  intros capacity keepLast w w' queue ops r Hinit Hpos Hrun.
  pose proof (InitFrameQueue_ok capacity keepLast w queue w' Hinit) as Hok0.
  pose proof (InitFrameQueue_indexed capacity keepLast w queue w' Hinit Hpos)
    as Hidx0.
  destruct (ring_run_indexed ops _ r Hok0 Hidx0 Hrun) as [Hok Hidx].
  split; [exact Hidx|].
  destruct Hok as ((Hc & Hrem & Hshown) & Hcap & _).
  destruct Hidx as (Hlen & Hr & Hw & Hwr).
  split.
  - intros s1 s2 i Hpeek. unfold PeekWritableFromFrameQueue in Hpeek.
    destruct (FrameQueue.capacity (ring_queue r) <=? FrameQueue.count (ring_queue r))
      eqn:Hfull; cbn [orb] in Hpeek; [discriminate Hpeek|].
    apply Z.leb_gt in Hfull.
    destruct s1; cbn [orb] in Hpeek; [discriminate Hpeek|].
    destruct s2; [discriminate Hpeek|]. injection Hpeek as <-.
    split; [exact Hw|].
    unfold held_slots. rewrite in_map_iff. intros (k & Hk & Hin).
    apply in_seq in Hin. rewrite Hwr in Hk.
    apply (mod_slots_differ (FrameQueue.readIndex (ring_queue r)) (Z.of_nat k)
             (FrameQueue.count (ring_queue r)) (FrameQueue.capacity (ring_queue r)));
      try lia; exact Hk.
  - intros s1 s2 i Hpeek. unfold PeekReadableFromFrameQueue in Hpeek.
    destruct (_ || s1); [discriminate Hpeek|].
    destruct s2; [discriminate Hpeek|]. injection Hpeek as <-.
    unfold PeekFrameQueue.
    rewrite wrap_int32_id by int32_small.
    rewrite rem_mod_small by lia. apply Z.mod_pos_bound. lia.
Qed.

Lemma FrameQueue_ring_indices_witness :
  ring_indexed
    (FrameQueue.mk (update_nth 0 FreeFrameData (FrameQueue.frames sample_ring))
       1 1 4 4 1 1 true true).
Proof.
  apply (FrameQueue_ring_indices MAX_VIDEO_FRAME_QUEUE_COUNT 1
           sample_world _ sample_ring sample_ring_ops
           (mkRing
              (FrameQueue.mk
                 (update_nth 0 FreeFrameData (FrameQueue.frames sample_ring))
                 1 1 4 4 1 1 true true)
              false false)
           eq_refl); reflexivity.
Defined.

(* ================================================================== *)
(** ** Frame queue: first in, first out *)
(* ================================================================== *)

Lemma length_update_nth {A} (f : A -> A) n l :
  length (update_nth n f l) = length l.
Proof.
  revert n. induction l as [|x l IH]; intros [|n]; cbn; try reflexivity.
  rewrite IH. reflexivity.
Qed.

Lemma nth_update_nth_same {A} (f : A -> A) n l d :
  (n < length l)%nat -> nth n (update_nth n f l) d = f (nth n l d).
Proof.
  revert n. induction l as [|x l IH]; intros [|n] H; cbn in *; try lia.
  - reflexivity.
  - apply IH. lia.
Qed.

Lemma nth_update_nth_other {A} (f : A -> A) n m l d :
  n <> m -> nth m (update_nth n f l) d = nth m l d.
Proof.
  revert n m. induction l as [|x l IH]; intros [|n] [|m] H; cbn;
    try reflexivity; try congruence.
  apply IH. congruence.
Qed.

Lemma held_slots_snoc queue :
  0 <= FrameQueue.count queue ->
  map (fun k => (FrameQueue.readIndex queue + Z.of_nat k)
                mod FrameQueue.capacity queue)
    (seq 0 (Z.to_nat (FrameQueue.count queue + 1)))
  = held_slots queue
    ++ [(FrameQueue.readIndex queue + FrameQueue.count queue)
        mod FrameQueue.capacity queue].
Proof.
  intros Hc. unfold held_slots.
  replace (Z.to_nat (FrameQueue.count queue + 1))
    with (S (Z.to_nat (FrameQueue.count queue))) by lia.
  rewrite seq_S, map_app. cbn [map Nat.add]. rewrite Z2Nat.id by lia.
  reflexivity.
Qed.

Lemma held_slots_tail queue :
  0 < FrameQueue.count queue -> 0 < FrameQueue.capacity queue ->
  map (fun k => ((FrameQueue.readIndex queue + 1) mod FrameQueue.capacity queue
                 + Z.of_nat k) mod FrameQueue.capacity queue)
    (seq 0 (Z.to_nat (FrameQueue.count queue - 1)))
  = tl (held_slots queue).
Proof.
  intros Hc Hn. unfold held_slots.
  replace (Z.to_nat (FrameQueue.count queue))
    with (S (Z.to_nat (FrameQueue.count queue - 1))) by lia.
  cbn [seq map tl]. rewrite <- seq_shift, map_map.
  apply map_ext. intros k. rewrite Zplus_mod_idemp_l. f_equal. lia.
Qed.

Lemma held_slots_in queue i :
  0 < FrameQueue.capacity queue ->
  In i (held_slots queue) ->
  exists k, 0 <= k < FrameQueue.count queue
            /\ i = (FrameQueue.readIndex queue + k) mod FrameQueue.capacity queue
            /\ 0 <= i < FrameQueue.capacity queue.
Proof.
  intros Hn. unfold held_slots. rewrite in_map_iff. intros (k & Hk & Hin).
  apply in_seq in Hin. exists (Z.of_nat k). subst i.
  split; [lia|]. split; [reflexivity|]. apply Z.mod_pos_bound. exact Hn.
Qed.

Lemma held_slots_nth queue k :
  0 <= k < FrameQueue.count queue ->
  nth (Z.to_nat k) (held_slots queue) 0
  = (FrameQueue.readIndex queue + k) mod FrameQueue.capacity queue.
Proof.
  intros Hk. unfold held_slots.
  set (f := fun j => (FrameQueue.readIndex queue + Z.of_nat j)
                     mod FrameQueue.capacity queue).
  rewrite (nth_indep _ 0 (f 0%nat)) by (rewrite length_map, length_seq; lia).
  rewrite map_nth, seq_nth by lia. unfold f. cbn [Nat.add].
  rewrite Z2Nat.id by lia. reflexivity.
Qed.

Lemma held_frames_nth queue k :
  0 <= k < FrameQueue.count queue ->
  nth (Z.to_nat k) (held_frames queue) empty_frame
  = slot_frame queue
      ((FrameQueue.readIndex queue + k) mod FrameQueue.capacity queue).
Proof.
  intros Hk. unfold held_frames.
  rewrite (nth_indep _ empty_frame (slot_frame queue 0)).
  - rewrite map_nth, held_slots_nth by exact Hk. reflexivity.
  - unfold held_slots. rewrite !length_map, length_seq. lia.
Qed.

Lemma NextReadable_held_frames queue :
  ring_indexed queue ->
  ring_invariant queue ->
  FrameQueue.capacity queue <= MAX_FRAME_QUEUE_COUNT ->
  0 < FrameQueue.count queue - FrameQueue.readIndexShown queue ->
  held_frames (NextReadable queue)
  = (if negb (FrameQueue.keepLast queue =? 0)
        && (FrameQueue.readIndexShown queue =? 0)
     then held_frames queue
     else tl (held_frames queue)).
Proof.
  intros (Hlen & Hr & Hw & Hwr) ((Hc0 & Hc) & Hrem & Hshown) Hmax Hany.
  unfold NextReadable.
  destruct (negb (FrameQueue.keepLast queue =? 0)
            && (FrameQueue.readIndexShown queue =? 0)); [reflexivity|].
  unfold held_frames at 1. unfold held_slots at 1.
  cbn [FrameQueue.readIndex FrameQueue.capacity FrameQueue.count
       FrameQueue.frames].
  rewrite (wrap_int32_id (FrameQueue.readIndex queue + 1)) by int32_small.
  rewrite (wrap_int32_id (FrameQueue.count queue - 1)) by int32_small.
  rewrite rem_mod_small by lia.
  rewrite held_slots_tail by lia.
  unfold held_frames.
  assert (Htl : forall l, tl (map (slot_frame queue) l)
                          = map (slot_frame queue) (tl l))
    by (intros [|x l]; reflexivity).
  rewrite Htl. apply map_ext_in. intros i Hi.
  unfold slot_frame. cbn [FrameQueue.frames].
  apply nth_update_nth_other.
  assert (Hin : exists k, 1 <= k < FrameQueue.count queue
                  /\ i = (FrameQueue.readIndex queue + k)
                         mod FrameQueue.capacity queue).
  { rewrite <- held_slots_tail in Hi by lia.
    rewrite in_map_iff in Hi. destruct Hi as (k & Hk & Hin).
    apply in_seq in Hin. exists (Z.of_nat k + 1). split; [lia|].
    rewrite <- Hk, Zplus_mod_idemp_l. f_equal. lia. }
  destruct Hin as (k & Hk & Ei).
  assert (Hne : FrameQueue.readIndex queue <> i).
  { rewrite Ei.
    replace (FrameQueue.readIndex queue)
      with ((FrameQueue.readIndex queue + 0) mod FrameQueue.capacity queue)
      at 1 by (rewrite Z.add_0_r; apply Z.mod_small; lia).
    apply mod_slots_differ; lia. }
  pose proof (Z.mod_pos_bound (FrameQueue.readIndex queue + k)
                (FrameQueue.capacity queue) ltac:(lia)).
  lia.
Qed.

Lemma PeekFrameQueue_held queue :
  ring_indexed queue ->
  ring_invariant queue ->
  FrameQueue.capacity queue <= MAX_FRAME_QUEUE_COUNT ->
  0 < FrameQueue.count queue - FrameQueue.readIndexShown queue ->
  slot_frame queue (PeekFrameQueue queue)
  = nth (Z.to_nat (FrameQueue.readIndexShown queue))
      (held_frames queue) empty_frame.
Proof.
  intros (Hlen & Hr & Hw & Hwr) ((Hc0 & Hc) & Hrem & Hshown) Hmax Hany.
  unfold PeekFrameQueue.
  rewrite wrap_int32_id by int32_small.
  rewrite rem_mod_small by lia.
  rewrite held_frames_nth by lia. reflexivity.
Qed.

(** X5 -- The ring is a queue of frames. On a ring that keeps its
    invariants: [QueueSamples] into the slot the producer was handed
    appends its frame behind the frames held and changes none of them;
    [NextReadable] either keeps every frame (the first advance under
    keep-last, which only marks the oldest frame as shown) or drops exactly
    the oldest; the frame a reader peeks is the oldest frame not yet shown,
    and while a frame is shown [PeekFrameQueueLast] still finds it. *)
Theorem FrameQueue_first_in_first_out :
  forall queue : FrameQueue.t,
    ring_indexed queue ->
    ring_invariant queue ->
    FrameQueue.capacity queue <= MAX_FRAME_QUEUE_COUNT ->
    (forall (sourceFrame : AVFrame.t) (serial : Z),
       FrameQueue.count queue < FrameQueue.capacity queue ->
       held_frames (QueueSamples queue sourceFrame
                      (FrameQueue.writeIndex queue) serial)
       = held_frames queue
         ++ [queued_samples sourceFrame serial
               (slot_frame queue (FrameQueue.writeIndex queue))])
    /\ (0 < FrameQueue.count queue - FrameQueue.readIndexShown queue ->
        held_frames (NextReadable queue)
        = (if negb (FrameQueue.keepLast queue =? 0)
              && (FrameQueue.readIndexShown queue =? 0)
           then held_frames queue
           else tl (held_frames queue))
        /\ slot_frame queue (PeekFrameQueue queue)
           = nth (Z.to_nat (FrameQueue.readIndexShown queue))
               (held_frames queue) empty_frame)
    /\ (FrameQueue.readIndexShown queue = 1 ->
        slot_frame queue (PeekFrameQueueLast queue)
        = nth 0 (held_frames queue) empty_frame).
Proof.
  intros queue Hidx Hinv Hmax.
  pose proof Hidx as (Hlen & Hr & Hw & Hwr).
  pose proof Hinv as ((Hc0 & Hc) & Hrem & Hshown).
  split; [|split].
  - intros sourceFrame serial Hroom.
    unfold held_frames at 1. unfold held_slots at 1.
    unfold QueueSamples, AddFrameToDecoder, NextWritable.
    cbn [FrameQueue.readIndex FrameQueue.capacity FrameQueue.count
         FrameQueue.frames FrameQueue.writeIndex].
    rewrite (wrap_int32_id (FrameQueue.count queue + 1)) by int32_small.
    rewrite held_slots_snoc by lia. rewrite map_app. cbn [map].
    rewrite <- Hwr. f_equal.
    + unfold held_frames. apply map_ext_in. intros i Hi.
      destruct (held_slots_in queue i ltac:(lia) Hi) as (k & Hk & Ei & Hib).
      assert (Hne : i <> FrameQueue.writeIndex queue).
      { rewrite Ei, Hwr. apply mod_slots_differ; lia. }
      unfold slot_frame. cbn [FrameQueue.frames].
      rewrite !nth_update_nth_other by lia. reflexivity.
    + unfold slot_frame. cbn [FrameQueue.frames].
      rewrite !nth_update_nth_same
        by (rewrite ?length_update_nth; lia).
      reflexivity.
  - intros Hany. split.
    + apply NextReadable_held_frames; assumption.
    + apply PeekFrameQueue_held; assumption.
  - intros Hs. unfold PeekFrameQueueLast.
    change 0%nat with (Z.to_nat 0). rewrite held_frames_nth by lia.
    rewrite Z.add_0_r, Z.mod_small by lia. reflexivity.
Qed.

(** The audio ring after three frames and one release holds the second
    and the third frame, in that order; a fourth frame goes behind them. *)
Lemma FrameQueue_first_in_first_out_witness :
  map Frame.frame (held_frames audio_ring) = [Some 2; Some 3]
  /\ map Frame.frame
       (held_frames (QueueSamples audio_ring (sample_avframe 4 3072)
                       (FrameQueue.writeIndex audio_ring) 1))
     = [Some 2; Some 3; Some 4].
Proof.
  split; [reflexivity|].
  destruct (FrameQueue_first_in_first_out audio_ring) as (Hq & _).
  - unfold ring_indexed. vm_compute. repeat split; discriminate.
  - unfold ring_invariant. vm_compute. repeat split; try discriminate.
    right. reflexivity.
  - vm_compute. discriminate.
  - rewrite (Hq (sample_avframe 4 3072) 1 eq_refl). reflexivity.
Defined.

(* ================================================================== *)
(** ** Clocks: initialisation and speed changes *)
(* ================================================================== *)

(** X6 -- A clock fresh from [InitClock] runs at speed 1, is not paused,
    carries serial -1 and reads NaN, whatever the serial it points to holds
    and whenever it is read: its anchor is NaN until the first [SetClock]
    with a presentation time. *)
Theorem InitClock_reads_NaN :
  forall (queueSerial : SerialRef) (mem : Memory) (w w' : World),
    let c := fst (InitClock queueSerial w) in
    Clock.serial c = -1
    /\ Clock.speed c = 1.0%float
    /\ Clock.isPaused c = false
    /\ Clock.queueSerial c = queueSerial
    /\ fst (GetClock mem c w') = NAN.
Proof.
  intros queueSerial mem w w'. cbv zeta.
  unfold InitClock, SetClock, bind, ret, av_gettime_relative. cbn [fst].
  repeat split.
  destruct (Z.eq_dec (mem queueSerial) (-1)) as [E|E].
  - rewrite GetClock_current by exact E. cbn [Clock.isPaused SetClockAt].
    apply drift_reading_NAN. cbn [Clock.ptsDrift SetClockAt].
    rewrite NAN_sub. reflexivity.
  - rewrite GetClock_stale by exact E. reflexivity.
Qed.

(** X7 -- [SetClockSpeed] sets the speed and keeps the clock's serial,
    pause flag and pointer; a paused clock reads the same before and after
    the change, at any later time. *)
Theorem SetClockSpeed_keeps_paused_reading :
  forall (mem : Memory) (c : Clock.t) (speed : double) (w w' : World),
    let c' := fst (SetClockSpeed mem c speed w) in
    Clock.speed c' = speed
    /\ Clock.serial c' = Clock.serial c
    /\ Clock.isPaused c' = Clock.isPaused c
    /\ Clock.queueSerial c' = Clock.queueSerial c
    /\ (Clock.isPaused c = true ->
        fst (GetClock mem c' w') = fst (GetClock mem c w)).
Proof.
  intros mem c speed w w'. cbv zeta.
  unfold SetClockSpeed, SetClock, bind, ret.
  destruct (Z.eq_dec (mem (Clock.queueSerial c)) (Clock.serial c)) as [E|E].
  - pose proof (GetClock_current mem c w E) as Hv.
    destruct (GetClock mem c w) as [v w1]. cbn [fst snd] in *.
    destruct (av_gettime_relative w1) as [t w2]. cbn [fst].
    repeat split. intros Hp.
    rewrite GetClock_current by exact E.
    cbn [with_speed SetClockAt Clock.isPaused Clock.pts]. rewrite Hp.
    reflexivity.
  - rewrite (GetClock_stale mem c w E).
    destruct (av_gettime_relative w) as [t w2]. cbn [fst].
    repeat split. intros _.
    rewrite GetClock_stale by exact E. reflexivity.
Qed.

Lemma SetClockSpeed_keeps_paused_reading_witness :
  fst (GetClock (fun _ => 3)
         (fst (SetClockSpeed (fun _ => 3) paused_clock 0.9%float sample_world))
         sample_world) = 2.5%float.
Proof.
  destruct (SetClockSpeed_keeps_paused_reading (fun _ => 3) paused_clock
              0.9%float sample_world sample_world) as (_ & _ & _ & _ & H).
  rewrite (H eq_refl). reflexivity.
Defined.

(* ================================================================== *)
(** ** Seek requests *)
(* ================================================================== *)

Lemma wrap_int64_id z : INT64_MIN <= z <= INT64_MAX -> wrap_int64 z = z.
Proof.
  unfold wrap_int64, INT64_MIN, INT64_MAX. intros H.
  rewrite Z.mod_small; lia.
Qed.

Lemma SeekStream_seek state pos rel :
  SeekState.isRequired (PlayerState.seek state) = false ->
  PlayerState.seek (SeekStream state pos rel)
  = SeekState.mk pos rel
      (if PlayerState.seekByBytes state
       then Z.lor AVSEEK_FLAG_ANY AVSEEK_FLAG_BYTE else AVSEEK_FLAG_ANY)
      true.
Proof.
  intros H. unfold SeekStream. rewrite H. cbn [negb].
  destruct state. reflexivity.
Qed.

(** X8 -- A seek request placed by [SeekStream] reaches
    [avformat_seek_file] with the requested position as target, a window
    that is open on the side the seek comes from, and flags ANY, BYTE
    exactly for a player that seeks by bytes and BACKWARD exactly for a
    negative increment. The target lies inside the window unless the
    increment is +1 or -1, where the bound [target - rel +/- 2] passes it. *)
Theorem seek_window_and_flags :
  forall (state : PlayerState.t) (pos rel : Z),
    SeekState.isRequired (PlayerState.seek state) = false ->
    INT64_MIN <= pos - rel - 2 ->
    pos - rel + 2 <= INT64_MAX ->
    let '(seekMin, seekTarget, seekMax, seekFlags) :=
      seek_arguments (SeekStream state pos rel) in
    seekTarget = pos
    /\ (0 < rel -> seekMin = pos - rel + 2 /\ seekMax = INT64_MAX)
    /\ (rel < 0 -> seekMin = INT64_MIN /\ seekMax = pos - rel - 2)
    /\ (rel = 0 -> seekMin = INT64_MIN /\ seekMax = INT64_MAX)
    /\ (INT64_MIN <= pos <= INT64_MAX ->
        (target_in_window (seekMin, seekTarget, seekMax, seekFlags)
         <-> rel <> 1 /\ rel <> -1))
    /\ Z.testbit seekFlags 0 = (rel <? 0)
    /\ Z.testbit seekFlags 1 = PlayerState.seekByBytes state
    /\ Z.testbit seekFlags 2 = true.
Proof.
  intros state pos rel Hidle Hlo Hhi.
  unfold seek_arguments. rewrite (SeekStream_seek state pos rel Hidle).
  cbn [SeekState.pos SeekState.rel SeekState.seekFlags].
  rewrite (wrap_int64_id (pos - rel)) by (unfold INT64_MIN, INT64_MAX in *; lia).
  rewrite (wrap_int64_id (pos - rel + 2))
    by (unfold INT64_MIN, INT64_MAX in *; lia).
  rewrite (wrap_int64_id (pos - rel - 2))
    by (unfold INT64_MIN, INT64_MAX in *; lia).
  unfold target_in_window.
  destruct (Z.ltb_spec 0 rel) as [Hpos|Hpos];
    destruct (Z.ltb_spec rel 0) as [Hneg|Hneg]; try lia.
  - split; [reflexivity|]. split; [intros _; split; reflexivity|].
    split; [lia|]. split; [lia|].
    split; [intros Hp; unfold INT64_MAX in *; lia|].
    destruct (PlayerState.seekByBytes state); repeat split.
  - split; [reflexivity|]. split; [lia|].
    split; [intros _; split; reflexivity|]. split; [lia|].
    split; [intros Hp; unfold INT64_MIN in *; lia|].
    destruct (PlayerState.seekByBytes state); repeat split.
  - assert (rel = 0) by lia. subst rel.
    split; [reflexivity|]. split; [lia|]. split; [lia|].
    split; [intros _; split; reflexivity|].
    split; [intros Hp; unfold INT64_MIN, INT64_MAX in *; lia|].
    destruct (PlayerState.seekByBytes state); repeat split.
Qed.

(** Ten seconds forward to the 15th second: the window starts 2 us after
    the 5th second and has no upper end. *)
Lemma seek_window_and_flags_witness :
  seek_arguments forward_seek
  = (5000002, 15000000, INT64_MAX, AVSEEK_FLAG_ANY).
Proof.
  pose proof (seek_window_and_flags after_load 15000000 10000000 eq_refl)
    as H.
  unfold forward_seek.
  destruct (seek_arguments (SeekStream after_load 15000000 10000000))
    as [[[seekMin seekTarget] seekMax] seekFlags] eqn:E.
  destruct H as (Ht & Hf & _); [unfold INT64_MIN; lia|unfold INT64_MAX; lia|].
  destruct Hf as [Hmin Hmax]; [lia|]. subst.
  vm_compute in E. injection E as <-. reflexivity.
Defined.

(** X9 -- A seek request is recorded only while none is pending: a second
    [SeekStream] before the reader has served the first changes nothing.
    A request that is recorded holds the position, the range and the flags
    asked for and raises the reader's resume signal; every other field of
    the player, the reader's stop request and EOF flag included, is as it
    was. *)
Theorem SeekStream_pending_request_wins :
  forall (state : PlayerState.t) (pos rel pos' rel' : Z),
    let state1 := SeekStream state pos rel in
    SeekState.isRequired (PlayerState.seek state1) = true
    /\ SeekStream state1 pos' rel' = state1
    /\ (SeekState.isRequired (PlayerState.seek state) = true -> state1 = state)
    /\ (SeekState.isRequired (PlayerState.seek state) = false ->
        PlayerState.seek state1
        = SeekState.mk pos rel
            (if PlayerState.seekByBytes state
             then Z.lor AVSEEK_FLAG_ANY AVSEEK_FLAG_BYTE else AVSEEK_FLAG_ANY)
            true
        /\ ReaderContext.resumeSignal (PlayerState.reader state1) = true)
    /\ only_seek_and_resume state state1.
Proof.
  intros state pos rel pos' rel'. cbv zeta.
  assert (Hreq : SeekState.isRequired (PlayerState.seek (SeekStream state pos rel))
                 = true).
  { destruct (SeekState.isRequired (PlayerState.seek state)) eqn:E.
    - unfold SeekStream. rewrite E. exact E.
    - rewrite SeekStream_seek by exact E. reflexivity. }
  split; [exact Hreq|]. split.
  { unfold SeekStream at 1. rewrite Hreq. reflexivity. }
  destruct (SeekState.isRequired (PlayerState.seek state)) eqn:E.
  - unfold SeekStream. rewrite E. cbn [negb].
    split; [reflexivity|]. split; [discriminate|].
    unfold only_seek_and_resume.
    repeat match goal with |- _ /\ _ => split end; reflexivity.
  - rewrite SeekStream_seek by exact E.
    unfold SeekStream. rewrite E. cbn [negb].
    split; [discriminate|].
    split; [intros _; split; [reflexivity|destruct state; reflexivity]|].
    unfold only_seek_and_resume. destruct state. cbn.
    repeat match goal with |- _ /\ _ => split end; reflexivity.
Qed.

(* ================================================================== *)
(** ** Pausing and resuming *)
(* ================================================================== *)

Lemma clock_kept_refl c : clock_kept c c.
Proof. repeat split. Qed.

Lemma clock_kept_trans c1 c2 c3 :
  clock_kept c1 c2 -> clock_kept c2 c3 -> clock_kept c1 c3.
Proof.
  unfold clock_kept. intros (A1 & A2 & A3) (B1 & B2 & B3).
  repeat split; congruence.
Qed.

Lemma with_isPaused_kept c p : clock_kept c (with_isPaused c p).
Proof. repeat split. Qed.

Lemma SetClock_kept c v w :
  clock_kept c (fst (SetClock c v (Clock.serial c) w)).
Proof. repeat split. Qed.

Lemma pause_frame_refl s : pause_frame s s.
Proof. repeat split. Qed.

Lemma pause_frame_trans s1 s2 s3 :
  pause_frame s1 s2 -> pause_frame s2 s3 -> pause_frame s1 s3.
Proof.
  unfold pause_frame.
  intros (A1 & A2 & A3 & A4 & A5 & A6 & A7 & A8)
         (B1 & B2 & B3 & B4 & B5 & B6 & B7 & B8).
  split; [eapply same_decoders_trans; eassumption|].
  repeat match goal with |- _ /\ _ => split end;
    try congruence; eapply clock_kept_trans; eassumption.
Qed.

Lemma with_frameTimer_frame s x :
  pause_frame s (with_frameTimer s x)
  /\ PlayerState.isPaused (with_frameTimer s x) = PlayerState.isPaused s.
Proof. open_state s. repeat split. Qed.

Lemma with_video_clock_frame s c :
  clock_kept (video_clock s) c ->
  pause_frame s (with_video s (with_video_clock (PlayerState.video s) c))
  /\ PlayerState.isPaused (with_video s (with_video_clock (PlayerState.video s) c))
     = PlayerState.isPaused s.
Proof.
  open_state s. unfold clock_kept, pause_frame, video_clock. cbn.
  intros (A1 & A2 & A3). repeat split; assumption.
Qed.

Lemma with_externalClock_frame s e :
  clock_kept (PlayerState.externalClock s) e ->
  pause_frame s (with_externalClock s e)
  /\ PlayerState.isPaused (with_externalClock s e) = PlayerState.isPaused s.
Proof.
  open_state s. unfold clock_kept, pause_frame. cbn.
  intros (A1 & A2 & A3). repeat split; assumption.
Qed.

Lemma set_paused_frame s p :
  pause_frame s (set_paused s p) /\ pause_flags (set_paused s p) p.
Proof. open_state s. repeat split. Qed.

Lemma with_pause_record_frame s n c p :
  pause_flags s p ->
  pause_frame s (with_pause_record s n c)
  /\ pause_flags (with_pause_record s n c) p
  /\ PlayerState.pauseNumFrames (with_pause_record s n c) = n
  /\ PlayerState.pauseClock (with_pause_record s n c) = c.
Proof.
  open_state s. unfold pause_flags. cbn.
  intros (A1 & A2 & A3 & A4). repeat split; assumption.
Qed.

(** Resuming: the timers and clocks are re-anchored, nothing else moves. *)
Lemma StreamTogglePause_resume_frame state w :
  PlayerState.isPaused state = true ->
  exists state',
    fst (StreamTogglePause state w) = Some state'
    /\ pause_frame state state'
    /\ pause_flags state' false.
Proof.
  intros Hp. unfold StreamTogglePause, bind, ret. rewrite Hp.
  destruct (av_gettime_relative w) as [t w0].
  match goal with
  | |- context [with_frameTimer state ?x] =>
      destruct (with_frameTimer_frame state x) as [S1 P1];
      set (s1 := with_frameTimer state x) in *
  end.
  match goal with
  | |- context [with_video s1 (with_video_clock (PlayerState.video s1) ?c)] =>
      assert (K2 : clock_kept (video_clock s1) c)
        by (destruct (negb (PlayerState.readPauseReturn s1 =? AVERROR_ENOSYS));
            [apply with_isPaused_kept|apply clock_kept_refl]);
      destruct (with_video_clock_frame s1 c K2) as [S2 P2];
      set (s2 := with_video s1 (with_video_clock (PlayerState.video s1) c)) in *
  end.
  destruct (GetClock (load s2) (video_clock s2) w0) as [v w1].
  pose proof (SetClock_kept (video_clock s2) v w1) as K3.
  destruct (SetClock (video_clock s2) v (Clock.serial (video_clock s2)) w1)
    as [c w2]. cbn [fst] in K3.
  destruct (with_video_clock_frame s2 c K3) as [S3 P3].
  set (s3 := with_video s2 (with_video_clock (PlayerState.video s2) c)) in *.
  destruct (GetClock (load s3) (PlayerState.externalClock s3) w2) as [v' w3].
  pose proof (SetClock_kept (PlayerState.externalClock s3) v' w3) as K4.
  destruct (SetClock (PlayerState.externalClock s3) v'
              (Clock.serial (PlayerState.externalClock s3)) w3) as [e w4].
  cbn [fst] in K4.
  destruct (with_externalClock_frame s3 e K4) as [S4 P4].
  set (s4 := with_externalClock s3 e) in *.
  assert (P : PlayerState.isPaused s4 = true) by congruence.
  rewrite P. cbn [negb].
  destruct (set_paused_frame s4 false) as [S5 F5].
  rewrite (proj1 F5). cbn [fst].
  exists (set_paused s4 false). split; [reflexivity|]. split; [|exact F5].
  repeat (eapply pause_frame_trans; [eassumption|]).
  apply pause_frame_refl.
Qed.

(** Signs through a division: the quotient of two doubles that are not
    negative is not negative, and neither is its truncation to [int]. *)
Lemma ltb_zero_not_negative (x : double) :
  (x <? 0)%float = false -> not_negative (Prim2SF x).
Proof.
  rewrite ltb_spec. change (Prim2SF 0) with (S754_zero false).
  destruct (Prim2SF x) as [?|?| |[|] ? ?]; cbn; try exact (fun _ => I).
  discriminate.
Qed.

Lemma binary_round_aux_not_negative prec emax mx ex lx :
  not_negative (binary_round_aux prec emax false mx ex lx).
Proof.
  unfold binary_round_aux.
  destruct (shr_fexp prec emax mx ex lx) as [mrs' e'].
  destruct (shr_fexp prec emax _ e' loc_Exact) as [mrs'' e''].
  destruct (shr_m mrs''); try exact I.
  destruct (e'' <=? emax - prec); exact I.
Qed.

Lemma SFdiv_not_negative prec emax x y :
  not_negative x -> not_negative y -> not_negative (SFdiv prec emax x y).
Proof.
  destruct x as [?|?| |[|] mx ex]; destruct y as [?|?| |[|] my ey];
    cbn [not_negative]; intros Hx Hy; try contradiction; try exact I.
  unfold SFdiv. cbn [xorb].
  destruct (SFdiv_core_binary prec emax (Z.pos mx) ex (Z.pos my) ey)
    as [[mz ez] lz].
  apply binary_round_aux_not_negative.
Qed.

Lemma int_of_double_not_negative (x : double) n :
  not_negative (Prim2SF x) -> int_of_double x = Some n -> 0 <= n.
Proof.
  unfold int_of_double.
  destruct (Prim2SF x) as [?|?| |[|] m e]; cbn [not_negative];
    intros H E; try contradiction; try discriminate.
  - injection E as <-. lia.
  - assert (Ha : 0 <= (if 0 <=? e then Z.pos m * 2 ^ e
                       else Z.pos m / 2 ^ (- e))).
    { destruct (Z.leb_spec 0 e).
      - apply Z.mul_nonneg_nonneg; [lia|]. apply Z.pow_nonneg. lia.
      - apply Z.div_pos; [lia|]. apply Z.pow_pos_nonneg; lia. }
    revert E.
    set (a := if 0 <=? e then Z.pos m * 2 ^ e else Z.pos m / 2 ^ (- e)) in *.
    destruct ((INT32_MIN <=? a) && (a <=? INT32_MAX)); [|discriminate].
    intros E. injection E as <-. exact Ha.
Qed.

Lemma int_of_double_quotient_nonneg (c fr : double) n :
  (c <? 0)%float = false -> (fr <? 0)%float = false ->
  int_of_double (c / (1.0 / fr))%float = Some n -> 0 <= n.
Proof.
  intros Hc Hf. apply int_of_double_not_negative.
  rewrite div_spec. apply SFdiv_not_negative.
  - apply ltb_zero_not_negative. exact Hc.
  - rewrite div_spec. apply SFdiv_not_negative.
    + vm_compute. exact I.
    + apply ltb_zero_not_negative. exact Hf.
Qed.

(** Pausing: the external clock is re-anchored, the flags are raised and
    the position at the pause is recorded. *)
Lemma StreamTogglePause_pause_frame state w state' :
  PlayerState.isPaused state = false ->
  fst (StreamTogglePause state w) = Some state' ->
  pause_frame state state'
  /\ pause_flags state' true
  /\ isnan (PlayerState.pauseClock state') = false
  /\ (PlayerState.pauseClock state' <? 0)%float = false
  /\ 0 <= PlayerState.pauseNumFrames state'.
Proof.
  intros Hp. unfold StreamTogglePause, bind, ret. rewrite Hp.
  destruct (GetClock (load state) (PlayerState.externalClock state) w)
    as [v' w3].
  pose proof (SetClock_kept (PlayerState.externalClock state) v' w3) as K4.
  destruct (SetClock (PlayerState.externalClock state) v'
              (Clock.serial (PlayerState.externalClock state)) w3) as [e w4].
  cbn [fst] in K4.
  destruct (with_externalClock_frame state e K4) as [S4 P4].
  set (s4 := with_externalClock state e) in *.
  assert (P : PlayerState.isPaused s4 = false) by congruence.
  rewrite P. cbn [negb].
  destruct (set_paused_frame s4 true) as [S5 F5].
  rewrite (proj1 F5).
  set (s5 := set_paused s4 true) in *.
  assert (S : pause_frame state s5)
    by (eapply pause_frame_trans; eassumption).
  destruct (GetMasterFrameRate s5) as [frameRate|]; [|discriminate].
  destruct (GetMasterClock s5 w4) as [m w5].
  assert (Hclamp : forall x : double,
            let cc := if isnan x || (x <? 0)%float then 0%float else x in
            isnan cc = false /\ (cc <? 0)%float = false).
  { intros x. cbv zeta. destruct (isnan x) eqn:N; cbn [orb].
    - split; reflexivity.
    - destruct (x <? 0)%float eqn:L; split; try reflexivity; assumption. }
  assert (Hnonneg : forall x : double,
            ((if isnan x || (x <? 0)%float then 0%float else x) <? 0)%float
            = false) by (intros x; apply Hclamp).
  destruct (m <? 0)%float;
    [|destruct (GetMasterClock s5 w5) as [clockCurrent w6]];
    cbv beta iota;
    match goal with
    | |- context [if negb ?b then _ else _] => destruct (negb b)
    end;
    try match goal with
    | |- context [int_of_double (?c / (1 / ?fr))%float] =>
        assert (Hc : (c <? 0)%float = false)
          by first [reflexivity|apply Hnonneg];
        assert (Hf : (fr <? 0)%float = false) by apply Hnonneg;
        destruct (int_of_double (c / (1 / fr))%float) as [n|] eqn:En;
        [apply (int_of_double_quotient_nonneg c fr n Hc Hf) in En
        |discriminate]
    end;
    cbn [fst]; intros E; injection E as <-;
    match goal with
    | |- context [with_pause_record s5 ?n ?c] =>
        destruct (with_pause_record_frame s5 n c true F5)
          as (S6 & F6 & N6 & C6);
        rewrite C6, N6
    end;
    (split; [eapply pause_frame_trans; eassumption|]);
    (split; [exact F6|]);
    (split; [first [apply Hclamp|reflexivity]|]);
    (split; [first [apply Hnonneg|reflexivity]|]);
    first [assumption|reflexivity|lia].
Qed.

(** X10 -- Whenever [StreamTogglePause] returns, the player's pause flag
    is flipped and the flags of the video, audio and external clock agree
    with it; no decoder, stream, seek request or reader field is touched,
    and every clock keeps its serial, its pointer and its speed. Resuming
    always returns. *)
Theorem StreamTogglePause_flags_agree :
  forall (state : PlayerState.t) (w : World),
    (PlayerState.isPaused state = true ->
     fst (StreamTogglePause state w) <> None)
    /\ (forall state' : PlayerState.t,
          fst (StreamTogglePause state w) = Some state' ->
          pause_flags state' (negb (PlayerState.isPaused state))
          /\ pause_frame state state').
Proof.
  intros state w. split.
  - intros Hp.
    destruct (StreamTogglePause_resume_frame state w Hp) as (s' & E & _).
    rewrite E. discriminate.
  - intros state' E. destruct (PlayerState.isPaused state) eqn:Hp.
    + destruct (StreamTogglePause_resume_frame state w Hp) as (s' & E' & S & F).
      rewrite E in E'. injection E' as ->. split; assumption.
    + destruct (StreamTogglePause_pause_frame state w state' Hp E)
        as (S & F & _).
      split; assumption.
Qed.

(** Pausing the freshly loaded player and resuming it. *)
Lemma StreamTogglePause_flags_agree_witness :
  option_map PlayerState.isPaused paused_player = Some true
  /\ option_map (fun s => Clock.isPaused (audio_clock s)) paused_player
     = Some true.
Proof.
  destruct (StreamTogglePause_flags_agree after_load sample_world) as [_ H].
  unfold paused_player.
  destruct (fst (StreamTogglePause after_load sample_world)) as [s|] eqn:E;
    [|vm_compute in E; discriminate].
  destruct (H s eq_refl) as [(F1 & _ & F3 & _) _].
  cbn [option_map]. rewrite F1, F3. split; reflexivity.
Defined.

(* ================================================================== *)
(** ** A successful seek *)
(* ================================================================== *)

Lemma flush_decoder_run d w :
  in_int32 (PacketQueue.serial (Decoder.packetsQueue d) + 1) ->
  flush_decoder d w
  = (restarted d (queue_after_seek (alloc_ok w (alloc_calls w))
                    (Decoder.packetsQueue d)),
     allocated w).
Proof.
  intros Hs. unfold flush_decoder, PushFlushPacket, bind, ret, allocate.
  unfold queue_after_seek.
  destruct (alloc_ok w (alloc_calls w)); cbn [fst snd]; [|reflexivity].
  unfold PushPacket, push_serial, FlushPacketQueue, seek_flushed, restarted,
    resume_decoder, with_decoder_queue.
  cbn. rewrite wrap_int32_id by exact Hs. reflexivity.
Qed.

Lemma seek_success_run state seekResult (w : World) ok :
  SeekState.isRequired (PlayerState.seek state) = true ->
  0 <= seekResult ->
  (forall n, alloc_ok w n = ok) ->
  in_int32 (PacketQueue.serial (audio_queue state) + 1) ->
  in_int32 (PacketQueue.serial (video_queue state) + 1) ->
  exists state',
    fst (PacketReadThreadProc_seek state seekResult w) = Some state'
    /\ AudioContext.decoder (PlayerState.audio state')
       = (let d := AudioContext.decoder (PlayerState.audio state) in
          if audio_valid state
          then restarted d (queue_after_seek ok (Decoder.packetsQueue d))
          else d)
    /\ VideoContext.decoder (PlayerState.video state')
       = (let d := VideoContext.decoder (PlayerState.video state) in
          if video_valid state
          then restarted d (queue_after_seek ok (Decoder.packetsQueue d))
          else d)
    /\ SeekState.isRequired (PlayerState.seek state') = false
    /\ ReaderContext.isEOF (PlayerState.reader state') = false
    /\ PlayerState.isPaused state' = false
    /\ Clock.serial (PlayerState.externalClock state') = 0
    /\ clock_kept (audio_clock state) (audio_clock state')
    /\ clock_kept (video_clock state) (video_clock state').
Proof.
  intros Hreq Hres Hok Ha Hv.
  unfold PacketReadThreadProc_seek. rewrite Hreq.
  apply Z.ltb_ge in Hres. rewrite Hres.
  open_state state.
  unfold audio_queue, video_queue, audio_valid, video_valid, audio_clock,
    video_clock in *.
  cbn [PlayerState.audio PlayerState.video PlayerState.seek
       PlayerState.reader PlayerState.isPaused PlayerState.externalClock
       AudioContext.stream VideoContext.stream AudioContext.decoder
       VideoContext.decoder AudioContext.clock VideoContext.clock
       MediaStream.isValid SeekState.isRequired] in *.
  unfold bind, ret.
  assert (Hok' : forall n, alloc_ok (allocated w) n = ok) by exact Hok.
  repeat match goal with
  | |- context [MediaStream.isValid ?m] => is_var m; destruct m as [? ? []]
  end;
  cbn -[flush_decoder SetClock StepToNextFrame Z.land restarted
        queue_after_seek allocated NAN];
  repeat (rewrite flush_decoder_run by assumption;
          cbn -[flush_decoder SetClock StepToNextFrame Z.land restarted
                queue_after_seek allocated NAN]);
  rewrite ?Hok', ?Hok;
  match goal with
  | |- context [negb ?b] => destruct (negb b)
  end;
  unfold SetClock, bind, ret, av_gettime_relative;
  cbn -[StepToNextFrame restarted queue_after_seek allocated NAN];
  (destruct isPaused;
  [unfold StepToNextFrame, bind, ret; cbn [PlayerState.isPaused];
   match goal with
   | |- context [StreamTogglePause ?S ?W] =>
       destruct (StreamTogglePause_resume_frame S W eq_refl)
         as (s' & E & ((D1 & D2 & D3 & D4) & _ & _ & _ & _ & Kv & Ka & Ke)
             & (F1 & _));
       destruct (StreamTogglePause S W) as [r W']
   end;
   cbn [fst] in E; subst r; cbn [fst snd option_map];
   exists (with_step s' 1);
   unfold audio_clock, video_clock in *;
   destruct s'; cbn in *;
   rewrite ?D1, ?D2, ?D3, ?D4;
   repeat split; try apply Ke; try apply Ka; try apply Kv; assumption
  |cbn [fst]; eexists; split; [reflexivity|]; cbn; repeat split]).
Qed.

(** X13 -- A seek that [avformat_seek_file] carried out restarts every
    valid stream's decoder: its packet queue holds exactly the flush
    packet, tagged with the next serial, its EOF flag is cleared and its
    resume signal raised; the decoder of an absent stream is not touched.
    The request and the reader's EOF flag are cleared, the player runs, the
    external clock carries serial 0, and a stream clock that was set for a
    serial of its queue reads NaN from then on. When the flush packet
    cannot be allocated the queue is left empty with its old serial. *)
Theorem seek_restarts_decoders :
  forall (state : PlayerState.t) (seekResult : Z) (w : World) (ok : bool),
    SeekState.isRequired (PlayerState.seek state) = true ->
    0 <= seekResult ->
    (forall n, alloc_ok w n = ok) ->
    in_int32 (PacketQueue.serial (audio_queue state) + 1) ->
    in_int32 (PacketQueue.serial (video_queue state) + 1) ->
    exists state',
      fst (PacketReadThreadProc_seek state seekResult w) = Some state'
      /\ AudioContext.decoder (PlayerState.audio state')
         = (let d := AudioContext.decoder (PlayerState.audio state) in
            if audio_valid state
            then restarted d (queue_after_seek ok (Decoder.packetsQueue d))
            else d)
      /\ VideoContext.decoder (PlayerState.video state')
         = (let d := VideoContext.decoder (PlayerState.video state) in
            if video_valid state
            then restarted d (queue_after_seek ok (Decoder.packetsQueue d))
            else d)
      /\ SeekState.isRequired (PlayerState.seek state') = false
      /\ ReaderContext.isEOF (PlayerState.reader state') = false
      /\ PlayerState.isPaused state' = false
      /\ Clock.serial (PlayerState.externalClock state') = 0
      /\ (ok = true -> audio_valid state = true ->
          Clock.queueSerial (audio_clock state) = AudioQueueSerial ->
          Clock.serial (audio_clock state)
          <= PacketQueue.serial (audio_queue state) ->
          forall w', fst (GetClock (load state') (audio_clock state') w') = NAN)
      /\ (ok = true -> video_valid state = true ->
          Clock.queueSerial (video_clock state) = VideoQueueSerial ->
          Clock.serial (video_clock state)
          <= PacketQueue.serial (video_queue state) ->
          forall w', fst (GetClock (load state') (video_clock state') w') = NAN).
Proof.
  intros state seekResult w ok Hreq Hres Hok Ha Hv.
  destruct (seek_success_run state seekResult w ok Hreq Hres Hok Ha Hv)
    as (state' & Hrun & Da & Dv & Hs & He & Hp & Hx & Ka & Kv).
  exists state'. cbv zeta in Da, Dv.
  repeat match goal with |- _ /\ _ => split end; try assumption.
  - intros -> Hvalid Hptr Hle w'. rewrite Hvalid in Da.
    destruct Ka as (K1 & K2 & _).
    rewrite GetClock_stale; [reflexivity|].
    rewrite K1, K2, Hptr. unfold load, audio_queue. rewrite Da.
    unfold audio_queue in Hle. cbn. lia.
  - intros -> Hvalid Hptr Hle w'. rewrite Hvalid in Dv.
    destruct Kv as (K1 & K2 & _).
    rewrite GetClock_stale; [reflexivity|].
    rewrite K1, K2, Hptr. unfold load, video_queue. rewrite Dv.
    unfold video_queue in Hle. cbn. lia.
Qed.

(** The video clock reads 1 s before the seek and NaN after it. *)
Lemma seek_restarts_decoders_witness :
  fst (GetClock (load seek_pending_running) (video_clock seek_pending_running)
         sample_world) = 1.0%float
  /\ option_map
       (fun s => fst (GetClock (load s) (video_clock s) sample_world))
       (fst (PacketReadThreadProc_seek seek_pending_running 0 sample_world))
     = Some NAN.
Proof.
  split; [reflexivity|].
  assert (Ha : in_int32 (PacketQueue.serial (audio_queue seek_pending_running) + 1))
    by (vm_compute; split; discriminate).
  assert (Hv : in_int32 (PacketQueue.serial (video_queue seek_pending_running) + 1))
    by (vm_compute; split; discriminate).
  destruct (seek_restarts_decoders seek_pending_running 0 sample_world true
              eq_refl (Z.le_refl 0) (fun _ => eq_refl) Ha Hv)
    as (s' & E & _ & _ & _ & _ & _ & _ & _ & Hstale).
  rewrite E. cbn [option_map].
  rewrite (Hstale eq_refl eq_refl eq_refl); [reflexivity|].
  vm_compute. discriminate.
Defined.

(* ================================================================== *)
(** ** Pausing: the recorded position *)
(* ================================================================== *)




(** X12 -- [StepToNextFrame] always returns and leaves a running player
    with [step] set: a paused player is resumed, with its decoders, seek
    request and reader untouched; a running player changes in [step] only
    and no clock is read. *)
Theorem StepToNextFrame_runs_one_frame :
  forall (state : PlayerState.t) (w : World),
    exists state',
      fst (StepToNextFrame state w) = Some state'
      /\ PlayerState.isPaused state' = false
      /\ PlayerState.step state' = 1
      /\ same_decoders state state'
      /\ (PlayerState.isPaused state = false ->
          state' = with_step state 1 /\ snd (StepToNextFrame state w) = w).
Proof.
  intros state w. unfold StepToNextFrame, bind, ret.
  assert (Hstep : forall s n,
             PlayerState.isPaused (with_step s n) = PlayerState.isPaused s
             /\ PlayerState.step (with_step s n) = n
             /\ same_decoders s (with_step s n))
    by (intros [] n; repeat split).
  destruct (PlayerState.isPaused state) eqn:Hp.
  - destruct (StreamTogglePause_resume_frame state w Hp)
      as (s' & E & (D & _) & (F & _)).
    destruct (StreamTogglePause state w) as [r w']. cbn [fst] in E. subst r.
    cbn [fst snd option_map]. exists (with_step s' 1).
    destruct (Hstep s' 1) as (H1 & H2 & H3).
    split; [reflexivity|]. split; [congruence|]. split; [exact H2|].
    split; [eapply same_decoders_trans; eassumption|discriminate].
  - cbn [fst snd option_map]. exists (with_step state 1).
    destruct (Hstep state 1) as (H1 & H2 & H3).
    split; [reflexivity|]. split; [congruence|]. split; [exact H2|].
    split; [exact H3|]. intros _. split; reflexivity.
Qed.

(* ================================================================== *)
(** ** External clock speed: settling *)
(* ================================================================== *)

Lemma set_external_speed_streams state speed w :
  PlayerState.video (fst (set_external_speed state speed w))
  = PlayerState.video state
  /\ PlayerState.audio (fst (set_external_speed state speed w))
     = PlayerState.audio state.
Proof.
  unfold set_external_speed, bind, ret.
  destruct (SetClockSpeed (load state) (PlayerState.externalClock state) speed w)
    as [c w1].
  cbn [fst]. destruct state. split; reflexivity.
Qed.

Lemma UpdateExternalClockSpeed_streams state w :
  PlayerState.video (fst (UpdateExternalClockSpeed state w))
  = PlayerState.video state
  /\ PlayerState.audio (fst (UpdateExternalClockSpeed state w))
     = PlayerState.audio state.
Proof.
  unfold UpdateExternalClockSpeed.
  destruct (queue_starved state); [apply set_external_speed_streams|].
  destruct (queues_filled state); [apply set_external_speed_streams|].
  destruct (negb _); [apply set_external_speed_streams|].
  split; reflexivity.
Qed.

Lemma UpdateExternalClockSpeed_queues state w :
  queue_starved (fst (UpdateExternalClockSpeed state w)) = queue_starved state
  /\ queues_filled (fst (UpdateExternalClockSpeed state w)) = queues_filled state.
Proof.
  destruct (UpdateExternalClockSpeed_streams state w) as [Hv Ha].
  unfold queue_starved, queues_filled, video_valid, audio_valid, video_queue,
    audio_queue.
  rewrite Hv, Ha. split; reflexivity.
Qed.

Lemma refreshes_speed n : forall state w,
  queue_starved state = false ->
  queues_filled state = false ->
  external_speed (fst (refreshes n state w)) = nudges n (external_speed state).
Proof.
  induction n as [|n IH]; intros state w Hs Hf; [reflexivity|].
  cbn [refreshes nudges]. unfold bind.
  pose proof (UpdateExternalClockSpeed_speed state w) as Hspeed.
  destruct (UpdateExternalClockSpeed_queues state w) as [Qs Qf].
  destruct (UpdateExternalClockSpeed state w) as [s1 w1]. cbn [fst] in *.
  rewrite Hs, Hf in *. rewrite IH by assumption. rewrite Hspeed. reflexivity.
Qed.

Lemma refreshes_reachable n : forall state w,
  speed_reachable (external_speed state) ->
  speed_reachable (external_speed (fst (refreshes n state w))).
Proof.
  induction n as [|n IH]; intros state w H; [exact H|].
  cbn [refreshes]. unfold bind.
  pose proof (speed_updated state w H) as H1.
  destruct (UpdateExternalClockSpeed state w) as [s1 w1]. cbn [fst] in H1.
  apply IH. exact H1.
Qed.

Lemma nudges_add a : forall b s, nudges (a + b) s = nudges b (nudges a s).
Proof.
  induction a as [|a IH]; intros b s; [reflexivity|].
  cbn [Nat.add nudges]. apply IH.
Qed.

Lemma reachable_speeds_settle : speeds_settle reachable_speeds = true.
Proof. vm_compute. reflexivity. Qed.

Lemma settled_speeds_settled : speeds_settled settled_speeds = true.
Proof. vm_compute. reflexivity. Qed.

Lemma settled_speeds_step s :
  In s settled_speeds ->
  In (nudge s) settled_speeds
  /\ (0.999 <=? s)%float = true
  /\ (s <=? 1.001)%float = true
  /\ nudge (nudge s) = s.
Proof.
  intros H. pose proof settled_speeds_settled as C. unfold speeds_settled in C.
  rewrite forallb_forall in C. specialize (C s H).
  apply andb_prop in C. destruct C as [C C4].
  apply andb_prop in C. destruct C as [C C3].
  apply andb_prop in C. destruct C as [C1 C2].
  repeat split; try assumption.
  - apply memb_In. exact C1.
  - apply FloatAxioms.Leibniz.eqb_spec. exact C4.
Qed.

Lemma settled_speeds_nudges k : forall s,
  In s settled_speeds -> In (nudges k s) settled_speeds.
Proof.
  induction k as [|k IH]; intros s H; [exact H|].
  cbn [nudges]. apply IH. apply settled_speeds_step. exact H.
Qed.

(** X14 -- While the packet queues are neither starved nor filled, a
    hundred refreshes bring the external clock's speed from wherever
    [UpdateExternalClockSpeed] had taken it to within one step of 1.0, and
    there it stays; from then on the speed repeats every second refresh
    (it rests at 1.0 or, when rounding has made it miss 1.0, alternates
    between two values a step apart). *)
Theorem external_speed_settles :
  forall (state : PlayerState.t) (w : World) (n : nat),
    speed_reachable (external_speed state) ->
    queue_starved state = false ->
    queues_filled state = false ->
    (100 <= n)%nat ->
    let speed := external_speed (fst (refreshes n state w)) in
    (0.999 <=? speed)%float = true
    /\ (speed <=? 1.001)%float = true
    /\ external_speed (fst (refreshes (n + 2) state w)) = speed.
Proof.
  intros state w n Hreach Hs Hf Hn. cbv zeta.
  rewrite !refreshes_speed by assumption.
  destruct (Nat.le_exists_sub 100 n Hn) as (k & -> & _).
  replace (k + 100 + 2)%nat with (100 + (k + 2))%nat by lia.
  replace (k + 100)%nat with (100 + k)%nat by lia.
  rewrite !(nudges_add 100).
  set (s100 := nudges 100 (external_speed state)).
  assert (H100 : In s100 settled_speeds).
  { apply memb_In. pose proof reachable_speeds_settle as C.
    unfold speeds_settle in C. rewrite forallb_forall in C.
    apply C. apply speed_reachable_listed. exact Hreach. }
  pose proof (settled_speeds_nudges k s100 H100) as Hk.
  destruct (settled_speeds_step _ Hk) as (_ & Hlo & Hhi & Hper).
  split; [exact Hlo|]. split; [exact Hhi|].
  rewrite nudges_add. exact Hper.
Qed.

(** From the upper bound the speed comes down to within a step of 1.0,
    and misses 1.0. *)
Lemma external_speed_settles_witness :
  external_speed sped_up = EXTERNAL_CLOCK_SPEED_MAX
  /\ (external_speed (fst (refreshes 100 sped_up sample_world)) <=? 1.001)%float
     = true
  /\ (external_speed (fst (refreshes 100 sped_up sample_world)) =? 1.0)%float
     = false.
Proof.
  split; [vm_compute; reflexivity|].
  split; [|vm_compute; reflexivity].
  assert (Hreach : speed_reachable (external_speed sped_up)).
  { assert (E : external_speed sped_up
                = external_speed (fst (refreshes 11 audio_only sample_world)))
      by (vm_compute; reflexivity).
    rewrite E. apply refreshes_reachable.
    assert (E1 : external_speed audio_only = 1.0%float)
      by (vm_compute; reflexivity).
    rewrite E1. apply speed_initial. }
  assert (Hs : queue_starved sped_up = false) by (vm_compute; reflexivity).
  assert (Hf : queues_filled sped_up = false) by (vm_compute; reflexivity).
  apply (external_speed_settles sped_up sample_world 100 Hreach Hs Hf
           (le_n 100)).
Defined.

(* ================================================================== *)
(** ** Flipping a picture *)
(* ================================================================== *)

Lemma checked_int_some z r : checked_int z = Some r -> r = z /\ in_int32 z.
Proof.
  unfold checked_int, in_int32.
  destruct (Z.leb_spec INT32_MIN z); destruct (Z.leb_spec z INT32_MAX);
    cbn [andb]; intros E; try discriminate.
  injection E as <-. repeat split; assumption.
Qed.

Lemma checked_int_in z : in_int32 z -> checked_int z = Some z.
Proof.
  unfold checked_int, in_int32. intros [H1 H2].
  apply Z.leb_le in H1, H2. rewrite H1, H2. reflexivity.
Qed.

Lemma int_div_opp_opp a b : b <> 0 -> int_div (- a) (- b) = int_div a b.
Proof.
  intros Hb. unfold int_div.
  destruct (Z.eqb_spec (- b) 0); [lia|].
  destruct (Z.eqb_spec b 0); [lia|].
  rewrite Z.quot_opp_opp by exact Hb. reflexivity.
Qed.

Lemma last_row_opp h0 hi height :
  hi <> 0 -> last_row (- h0) (- hi) height = last_row h0 hi height.
Proof.
  intros Hi. unfold last_row.
  replace (- hi =? - h0) with (hi =? h0)
    by (destruct (Z.eqb_spec hi h0); destruct (Z.eqb_spec (- hi) (- h0)); lia).
  rewrite int_div_opp_opp by exact Hi. reflexivity.
Qed.

Lemma last_row_lower h0 hi height h :
  0 <= height -> 0 <= h0 -> 0 < hi ->
  last_row h0 hi height = Some h -> -1 <= h.
Proof.
  intros Hh H0 Hi. unfold last_row, int_div.
  destruct (negb (hi =? h0)).
  - destruct (Z.eqb_spec hi 0); [lia|].
    destruct (checked_int (Z.quot h0 hi)) as [div|] eqn:Ed; [|discriminate].
    apply checked_int_some in Ed. destruct Ed as [-> _].
    destruct (Z.eqb_spec (Z.quot h0 hi) 0); [discriminate|].
    destruct (checked_int (Z.quot height (Z.quot h0 hi))) as [q|] eqn:Eq;
      [|discriminate].
    apply checked_int_some in Eq. destruct Eq as [-> _].
    intros E. apply checked_int_some in E. destruct E as [-> _].
    assert (0 <= Z.quot h0 hi) by (apply Z.quot_pos; lia).
    assert (0 <= Z.quot height (Z.quot h0 hi)) by (apply Z.quot_pos; lia).
    lia.
  - intros E. apply checked_int_some in E. destruct E as [-> _]. lia.
Qed.

Lemma flip_planes_back n h0 height :
  0 <= height -> 0 <= h0 ->
  forall planes planes',
    Forall (fun plane => 0 <= snd plane <= INT32_MAX) planes ->
    flip_planes n h0 height planes = Some planes' ->
    flip_planes n (- h0) height planes' = Some planes.
Proof.
  intros Hh H0. induction n as [|n IH]; intros planes planes' Hpos E.
  - cbn [flip_planes] in *. injection E as <-. reflexivity.
  - cbn [flip_planes] in E. destruct planes as [|[data hi] rest];
      [discriminate|].
    apply Forall_cons_iff in Hpos. destruct Hpos as [Hhi Hrest].
    cbn [snd] in Hhi.
    destruct (Z.eqb_spec hi 0) as [Hz|Hz].
    + injection E as <-. cbn [flip_planes]. subst hi. reflexivity.
    + destruct (last_row h0 hi height) as [h|] eqn:Eh; [|discriminate].
      destruct (checked_int (hi * h)) as [offset|] eqn:Eo; [|discriminate].
      destruct (checked_int (- hi)) as [flipped|] eqn:Ef; [|discriminate].
      destruct (flip_planes n h0 height rest) as [rest'|] eqn:Er;
        [|discriminate].
      injection E as <-.
      apply checked_int_some in Eo, Ef.
      destruct Eo as [-> Ho]. destruct Ef as [-> Hf].
      pose proof (last_row_lower h0 hi height h Hh H0 ltac:(lia) Eh) as Hrow.
      cbn [flip_planes].
      destruct (Z.eqb_spec (- hi) 0); [lia|].
      rewrite last_row_opp, Eh by exact Hz.
      assert (Hlow : - hi <= hi * h) by nia.
      replace (- hi * h) with (- (hi * h)) by ring.
      rewrite (checked_int_in (- (hi * h)))
        by (unfold in_int32, INT32_MIN, INT32_MAX in *; lia).
      rewrite (checked_int_in (- - hi))
        by (unfold in_int32, INT32_MIN, INT32_MAX in *; lia).
      rewrite (IH rest rest' Hrest Er).
      f_equal. f_equal. f_equal; lia.
Qed.

Lemma flip_planes_head n h0 height data hi rest planes' :
  flip_planes (S n) h0 height ((data, hi) :: rest) = Some planes' ->
  exists data' rest', planes' = (data', - hi) :: rest'.
Proof.
  cbn [flip_planes]. destruct (Z.eqb_spec hi 0) as [Hz|Hz].
  - intros E. injection E as <-. subst hi. exists data, rest. reflexivity.
  - destruct (last_row h0 hi height); [|discriminate].
    destruct (checked_int (hi * _)); [|discriminate].
    destruct (checked_int (- hi)) as [f|] eqn:Ef; [|discriminate].
    destruct (flip_planes n h0 height rest) as [rest'|]; [|discriminate].
    intros E. injection E as <-. apply checked_int_some in Ef.
    destruct Ef as [-> _]. eexists. eexists. reflexivity.
Qed.

(** X15 -- Flipping a picture twice gives the picture back: when
    [FlipSourcePicture] has a defined result on planes whose line sizes
    and height are not negative, a second call on its result is defined as
    well and restores every data pointer and every line size. *)
Theorem FlipSourcePicture_twice :
  forall (planes planes' : list (Z * Z)) (height : Z),
    0 <= height ->
    Forall (fun plane => 0 <= snd plane <= INT32_MAX) planes ->
    FlipSourcePicture planes height = Some planes' ->
    FlipSourcePicture planes' height = Some planes.
Proof.
  intros planes planes' height Hh Hpos E.
  unfold FlipSourcePicture in *.
  destruct planes as [|[data h0] rest]; [discriminate|].
  assert (H0 : 0 <= h0).
  { apply Forall_cons_iff in Hpos. destruct Hpos as [H _]. apply H. }
  pose proof (flip_planes_back 8 h0 height Hh H0 _ _ Hpos E) as Hback.
  apply flip_planes_head in E. destruct E as (data' & rest' & ->).
  exact Hback.
Qed.

(** The planes of a 640x480 YUV 4:2:0 picture: the flipped luma plane
    starts at its last row and is read upwards. *)
Lemma FlipSourcePicture_twice_witness :
  option_map (hd (0, 0)) (FlipSourcePicture yuv420_planes 480)
  = Some (4096 + 640 * 479, -640)
  /\ match FlipSourcePicture yuv420_planes 480 with
     | Some flipped => FlipSourcePicture flipped 480
     | None => None
     end = Some yuv420_planes.
Proof.
  split; [reflexivity|].
  destruct (FlipSourcePicture yuv420_planes 480) as [flipped|] eqn:E;
    [|vm_compute in E; discriminate].
  apply (FlipSourcePicture_twice yuv420_planes flipped 480); [lia| |exact E].
  unfold yuv420_planes, INT32_MAX. repeat constructor; cbn [snd]; lia.
Defined.

(* ================================================================== *)
(** ** Audio synchronisation *)
(* ================================================================== *)

Lemma av_clip_between a amin amax :
  amin <= amax -> amin <= av_clip a amin amax <= amax.
Proof.
  intros H. unfold av_clip.
  destruct (Z.ltb_spec a amin); [lia|].
  destruct (Z.ltb_spec amax a); lia.
Qed.

Lemma percent_bounds n :
  0 <= n -> n * 90 / 100 <= n <= n * 110 / 100.
Proof.
  intros H. split.
  - apply Z.div_le_upper_bound; lia.
  - apply Z.div_le_lower_bound; lia.
Qed.

(** X17 -- [SyncronizeAudio] never changes the number of samples by more
    than ten percent: whatever the clocks read, the count it returns lies
    between 90 % and 110 % of the count it was given. It returns that count
    unchanged while audio is the master and while the filter has seen
    fewer than [AV_AUDIO_DIFF_AVG_NB] measures. *)
Theorem SyncronizeAudio_within_ten_percent :
  forall (state : PlayerState.t) (sync sync' : AudioSync.t)
         (sampleCount result : Z) (w : World),
    0 <= sampleCount ->
    sampleCount * 110 <= INT32_MAX ->
    fst (SyncronizeAudio state sync sampleCount w) = Some (result, sync') ->
    sampleCount * 90 / 100 <= result <= sampleCount * 110 / 100
    /\ (GetMasterSyncType state = AudioMaster ->
        result = sampleCount /\ sync' = sync)
    /\ (AudioSync.audioDiffAvgCount sync < AV_AUDIO_DIFF_AVG_NB ->
        result = sampleCount).
Proof.
  intros state sync sync' sampleCount result w Hn Hmax.
  pose proof (percent_bounds sampleCount Hn) as Hpc.
  assert (Hlo : 0 <= sampleCount * 90 / 100) by (apply Z.div_pos; lia).
  assert (Hhi : sampleCount * 110 / 100 <= INT32_MAX)
    by (apply Z.div_le_upper_bound; unfold INT32_MAX in *; lia).
  assert (Hid : wrap_int32 sampleCount = sampleCount)
    by (apply wrap_int32_id; unfold in_int32, INT32_MIN, INT32_MAX in *; lia).
  unfold SyncronizeAudio. rewrite Hid.
  assert (Hsame : forall s : AudioSync.t,
             Some (sampleCount, s) = Some (result, sync') ->
             sampleCount * 90 / 100 <= result <= sampleCount * 110 / 100
             /\ result = sampleCount)
    by (intros s E; injection E as <- _; split; [exact Hpc|reflexivity]).
  destruct (GetMasterSyncType state) eqn:Hmaster.
  1: { cbn [ret fst]. intros E. injection E as <- <-.
       repeat split; try apply Hpc. }
  all: unfold bind, ret;
    destruct (GetClock (load state) (audio_clock state) w) as [audioClock w1];
    destruct (GetMasterClock state w1) as [masterClock w2];
    destruct (negb (isnan _) && _);
    cbn [AudioSync.audioDiffAvgCount AudioSync.audioDiffAbgCoef
         AudioSync.audioDiffThreshold AudioSync.sampleRate];
    [destruct (Z.ltb_spec (AudioSync.audioDiffAvgCount sync)
                 AV_AUDIO_DIFF_AVG_NB) as [Hfew|Hmany];
     [|destruct (_ <=? _)%float;
       [destruct (int_of_double _) as [correction|];
        [|cbn [fst]; discriminate]|]]|].
  all: cbn [fst]; intros E.
  all: try (apply Hsame in E; destruct E as [E1 E2];
            split; [exact E1|]; split; [discriminate|intros _; exact E2]).
  all: injection E as <- _; clear Hsame.
  all: set (corrected := wrap_int32 (to_uint32 (sampleCount + correction))).
  all: unfold AV_SAMPLE_CORRECTION_PERCENT_MAX.
  all: change (100 - 10) with 90; change (100 + 10) with 110.
  all: rewrite !to_uint32_id by (unfold INT32_MAX in *; lia).
  all: rewrite !wrap_int32_id
         by (unfold in_int32, INT32_MIN, INT32_MAX in *; lia).
  all: split; [apply av_clip_between; lia|].
  all: split; [discriminate|unfold AV_AUDIO_DIFF_AVG_NB in *; lia].
Qed.

(** The audio a quarter second ahead of the master: 1024 samples become
    1126, the most the correction allows. *)
Lemma SyncronizeAudio_within_ten_percent_witness :
  option_map (fun r => (1024 * 90 / 100 <=? fst r) && (fst r <=? 1024 * 110 / 100))
    (fst (SyncronizeAudio audio_ahead measured_sync 1024 sample_world))
  = Some true
  /\ option_map fst
       (fst (SyncronizeAudio audio_ahead measured_sync 1024 sample_world))
     = Some 1126.
Proof.
  split; [|vm_compute; reflexivity].
  destruct (fst (SyncronizeAudio audio_ahead measured_sync 1024 sample_world))
    as [[r s']|] eqn:E; [|vm_compute in E; discriminate].
  destruct (SyncronizeAudio_within_ten_percent audio_ahead measured_sync s'
              1024 r sample_world) as ((Hlo & Hhi) & _);
    [lia|unfold INT32_MAX; lia|exact E|].
  cbn [option_map fst]. apply Z.leb_le in Hlo, Hhi. rewrite Hlo, Hhi.
  reflexivity.
Defined.

(* ================================================================== *)
(** ** Sample formats *)
(* ================================================================== *)

(** X16 -- The sample format chosen for the audio device is never planar,
    and mapping it back gives the device's format again whenever the
    format is one [MapAudioFormatType] knows (U8, S16, S32, F32, F64); every
    other format, S64 included, is mapped to NONE although
    [MapAVSampleFormat] knows S64 in the other direction. Going back and
    forth from a sample format forgets at most whether it was planar. *)
Theorem audio_format_round_trip :
  (forall format : fplAudioFormatType,
     IsPlanarAVSampleFormat (MapAudioFormatType format) = false
     /\ (MapAudioFormatType format <> AV_SAMPLE_FMT_NONE ->
         MapAVSampleFormat (MapAudioFormatType format) = format)
     /\ (MapAudioFormatType format = AV_SAMPLE_FMT_NONE <->
         format <> fplAudioFormatType_U8 /\ format <> fplAudioFormatType_S16
         /\ format <> fplAudioFormatType_S32 /\ format <> fplAudioFormatType_F32
         /\ format <> fplAudioFormatType_F64))
  /\ MapAudioFormatType (MapAVSampleFormat AV_SAMPLE_FMT_S64) = AV_SAMPLE_FMT_NONE
  /\ (forall format : AVSampleFormat,
        MapAudioFormatType (MapAVSampleFormat format) <> AV_SAMPLE_FMT_NONE ->
        MapAVSampleFormat (MapAudioFormatType (MapAVSampleFormat format))
        = MapAVSampleFormat format
        /\ (IsPlanarAVSampleFormat format = false ->
            MapAudioFormatType (MapAVSampleFormat format) = format)).
Proof.
  split; [|split].
  - intros format. split; [destruct format; reflexivity|]. split.
    + destruct format; cbn; intros H; try reflexivity; contradiction.
    + destruct format; cbn; split; intros H;
        try discriminate; try (repeat split; discriminate);
        destruct H as (H1 & H2 & H3 & H4 & H5); congruence.
  - reflexivity.
  - intros format. destruct format; cbn; intros H;
      try contradiction; split; try reflexivity; discriminate.
Qed.

(* ================================================================== *)
(** ** The refresh loop: frames of an old serial *)
(* ================================================================== *)

Lemma skipn_nth_cons {A} (d : A) n : forall l : list A,
  (n < length l)%nat -> skipn n l = nth n l d :: skipn (S n) l.
Proof.
  induction n as [|n IH]; intros [|x l] H; cbn [length] in H; try lia.
  - reflexivity.
  - cbn [skipn nth]. rewrite (IH l) by lia. reflexivity.
Qed.

Lemma skipn_tl {A} n (l : list A) : skipn n (tl l) = skipn (S n) l.
Proof. destruct l; [destruct n|]; reflexivity. Qed.

Lemma held_frames_length queue :
  length (held_frames queue) = Z.to_nat (FrameQueue.count queue).
Proof.
  unfold held_frames, held_slots. rewrite !length_map, length_seq. reflexivity.
Qed.

Lemma GetFrameQueueRemainingCount_exact queue :
  ring_invariant queue ->
  FrameQueue.capacity queue <= MAX_FRAME_QUEUE_COUNT ->
  GetFrameQueueRemainingCount queue
  = FrameQueue.count queue - FrameQueue.readIndexShown queue.
Proof.
  intros ((Hc0 & Hc) & Hrem & Hshown) Hmax. unfold GetFrameQueueRemainingCount.
  apply wrap_int32_id. int32_small.
Qed.

Lemma pending_frames_length queue :
  ring_invariant queue ->
  length (pending_frames queue)
  = Z.to_nat (FrameQueue.count queue - FrameQueue.readIndexShown queue).
Proof.
  intros ((Hc0 & Hc) & Hrem & Hshown). unfold pending_frames.
  rewrite length_skipn, held_frames_length. lia.
Qed.

Lemma NextReadable_invariants queue :
  ring_indexed queue ->
  ring_invariant queue ->
  FrameQueue.capacity queue <= MAX_FRAME_QUEUE_COUNT ->
  0 < FrameQueue.count queue - FrameQueue.readIndexShown queue ->
  ring_indexed (NextReadable queue)
  /\ ring_invariant (NextReadable queue)
  /\ FrameQueue.capacity (NextReadable queue) <= MAX_FRAME_QUEUE_COUNT.
Proof.
  intros Hidx Hinv Hmax Hany.
  assert (Hok : ring_ok (mkRing queue false true)).
  { split; [exact Hinv|]. split; [exact Hmax|].
    split; [discriminate|intros _; exact Hany]. }
  assert (Hstep : ring_step OpNextReadable (mkRing queue false true)
                  = Some (mkRing (NextReadable queue) false false))
    by reflexivity.
  pose proof (ring_step_indexed _ _ _ Hok Hidx Hstep) as H1.
  pose proof (ring_step_ok _ _ _ Hok Hstep) as (H2 & H3 & _).
  split; [exact H1|]. split; [exact H2|exact H3].
Qed.

Lemma pending_frames_head queue :
  ring_indexed queue ->
  ring_invariant queue ->
  FrameQueue.capacity queue <= MAX_FRAME_QUEUE_COUNT ->
  0 < FrameQueue.count queue - FrameQueue.readIndexShown queue ->
  pending_frames queue
  = slot_frame queue (PeekFrameQueue queue) :: pending_frames (NextReadable queue).
Proof.
  intros Hidx Hinv Hmax Hany.
  rewrite (PeekFrameQueue_held queue Hidx Hinv Hmax Hany).
  unfold pending_frames at 1.
  rewrite (skipn_nth_cons empty_frame)
    by (rewrite held_frames_length;
        destruct Hinv as ((Hc0 & Hc) & Hrem & Hshown); lia).
  f_equal. unfold pending_frames.
  rewrite (NextReadable_held_frames queue Hidx Hinv Hmax Hany).
  destruct Hinv as ((Hc0 & Hc) & Hrem & [Hshown|Hshown]).
  - unfold NextReadable. rewrite Hshown. cbn [Z.eqb andb].
    destruct (negb (FrameQueue.keepLast queue =? 0)); cbn [andb].
    + reflexivity.
    + cbn [FrameQueue.readIndexShown]. symmetry. apply skipn_tl.
  - unfold NextReadable. rewrite Hshown.
    replace (1 =? 0) with false by reflexivity. rewrite andb_false_r.
    cbn [FrameQueue.readIndexShown]. symmetry. apply skipn_tl.
Qed.

Lemma VideoRefresh_skip_stale_run queueSerial fuel : forall queue,
  ring_indexed queue ->
  ring_invariant queue ->
  FrameQueue.capacity queue <= MAX_FRAME_QUEUE_COUNT ->
  (length (pending_frames queue) < fuel)%nat ->
  exists queue',
    VideoRefresh_skip_stale fuel queueSerial queue = Some queue'
    /\ ring_indexed queue'
    /\ ring_invariant queue'
    /\ FrameQueue.capacity queue' <= MAX_FRAME_QUEUE_COUNT
    /\ pending_frames queue' = drop_stale queueSerial (pending_frames queue).
Proof.
  induction fuel as [|fuel IH]; intros queue Hidx Hinv Hmax Hfuel; [lia|].
  cbn [VideoRefresh_skip_stale].
  rewrite (GetFrameQueueRemainingCount_exact queue Hinv Hmax).
  pose proof (pending_frames_length queue Hinv) as Hlen.
  destruct (Z.ltb_spec 0 (FrameQueue.count queue - FrameQueue.readIndexShown queue))
    as [Hany|Hnone].
  - pose proof (pending_frames_head queue Hidx Hinv Hmax Hany) as Hhead.
    rewrite Hhead. cbn [drop_stale].
    destruct (Frame.serial (slot_frame queue (PeekFrameQueue queue)) =? queueSerial).
    + cbn [negb]. exists queue. rewrite <- Hhead.
      repeat match goal with |- _ /\ _ => split end;
        try assumption; reflexivity.
    + cbn [negb].
      destruct (NextReadable_invariants queue Hidx Hinv Hmax Hany)
        as (Hidx' & Hinv' & Hmax').
      apply IH; try assumption.
      rewrite Hhead in Hfuel. cbn [length] in Hfuel. lia.
  - exists queue.
    assert (Hempty : pending_frames queue = []).
    { apply length_zero_iff_nil. rewrite Hlen. lia. }
    rewrite Hempty.
    repeat match goal with |- _ /\ _ => split end;
      try assumption; reflexivity.
Qed.

Lemma drop_stale_head serial l f r :
  drop_stale serial l = f :: r -> Frame.serial f = serial.
Proof.
  induction l as [|x l IH]; cbn [drop_stale]; [discriminate|].
  destruct (Z.eqb_spec (Frame.serial x) serial) as [E|E].
  - intros H. injection H as <- _. exact E.
  - exact IH.
Qed.

(** X18 -- The refresh loop never goes on with a frame of an old serial.
    On a ring that keeps its invariants the loop ends within one round per
    remaining frame; it releases exactly the frames in front of the first
    one that carries the packet queue's serial, keeps the others in order,
    and afterwards either no frame remains or the frame a peek returns
    carries that serial. *)
Theorem VideoRefresh_skips_stale_frames :
  forall (queue : FrameQueue.t) (queueSerial : Z) (fuel : nat),
    ring_indexed queue ->
    ring_invariant queue ->
    FrameQueue.capacity queue <= MAX_FRAME_QUEUE_COUNT ->
    (Z.to_nat (GetFrameQueueRemainingCount queue) < fuel)%nat ->
    exists queue',
      VideoRefresh_skip_stale fuel queueSerial queue = Some queue'
      /\ ring_indexed queue'
      /\ ring_invariant queue'
      /\ pending_frames queue' = drop_stale queueSerial (pending_frames queue)
      /\ (GetFrameQueueRemainingCount queue' = 0
          \/ Frame.serial (slot_frame queue' (PeekFrameQueue queue'))
             = queueSerial).
Proof.
  intros queue queueSerial fuel Hidx Hinv Hmax Hfuel.
  rewrite (GetFrameQueueRemainingCount_exact queue Hinv Hmax) in Hfuel.
  rewrite <- (pending_frames_length queue Hinv) in Hfuel.
  destruct (VideoRefresh_skip_stale_run queueSerial fuel queue Hidx Hinv Hmax
              Hfuel) as (queue' & Hrun & Hidx' & Hinv' & Hmax' & Hpending).
  exists queue'. split; [exact Hrun|]. split; [exact Hidx'|].
  split; [exact Hinv'|]. split; [exact Hpending|].
  rewrite (GetFrameQueueRemainingCount_exact queue' Hinv' Hmax').
  pose proof (pending_frames_length queue' Hinv') as Hlen.
  destruct (Z.ltb_spec 0 (FrameQueue.count queue'
                          - FrameQueue.readIndexShown queue')) as [Hany|Hnone].
  - right.
    pose proof (pending_frames_head queue' Hidx' Hinv' Hmax' Hany) as Hhead.
    rewrite Hhead in Hpending. symmetry in Hpending.
    apply drop_stale_head in Hpending. exact Hpending.
  - left. destruct Hinv' as (_ & Hrem & _). lia.
Qed.

(** Two frames from before a seek and one from after it: the loop leaves
    the third frame. *)
Lemma VideoRefresh_skips_stale_frames_witness :
  map Frame.frame (pending_frames ring_across_seek) = [Some 1; Some 2; Some 3]
  /\ option_map (fun q => map Frame.frame (pending_frames q))
       (VideoRefresh_skip_stale 4 2 ring_across_seek)
     = Some [Some 3].
Proof.
  split; [reflexivity|].
  assert (Hidx : ring_indexed ring_across_seek)
    by (unfold ring_indexed; vm_compute; repeat split; discriminate).
  assert (Hinv : ring_invariant ring_across_seek)
    by (unfold ring_invariant; vm_compute; repeat split; try discriminate;
        left; reflexivity).
  assert (Hmax : FrameQueue.capacity ring_across_seek <= MAX_FRAME_QUEUE_COUNT)
    by (vm_compute; discriminate).
  destruct (VideoRefresh_skips_stale_frames ring_across_seek 2 4 Hidx Hinv Hmax)
    as (q & -> & _ & _ & Hpending & _); [vm_compute; lia|].
  cbn [option_map]. rewrite Hpending. reflexivity.
Defined.

(* ================================================================== *)
(** ** Frame duration: sanity *)
(* ================================================================== *)

(** X19 -- [GetFrameDuration] returns a number that is not negative
    whenever the first frame's own duration is one: the gap between two
    presentation times is used only when it is positive, and a NaN or
    negative gap never gets through. *)
Theorem GetFrameDuration_not_negative :
  forall (state : PlayerState.t) (a b : Frame.t),
    isnan (Frame.duration a) = false ->
    (0 <=? Frame.duration a)%float = true ->
    isnan (GetFrameDuration state a b) = false
    /\ (0 <=? GetFrameDuration state a b)%float = true.
Proof.
  intros state a b Hnan Hpos. unfold GetFrameDuration.
  destruct (Frame.serial a =? Frame.serial b); [|split; reflexivity].
  set (d := (Frame.pts b - Frame.pts a)%float).
  destruct (isnan d) eqn:Hd; cbn [orb]; [split; assumption|].
  destruct (d <=? 0)%float eqn:Hle; cbn [orb]; [split; assumption|].
  destruct (PlayerState.maxFrameDuration state <? d)%float;
    [split; assumption|].
  split; [exact Hd|]. apply ltb_leb.
  apply (leb_false_ltb d 0%float Hd eq_refl Hle).
Qed.

Lemma GetFrameDuration_not_negative_witness :
  (0 <=? GetFrameDuration (blank_player no_stream no_stream AudioMaster)
           (frame_at 1.25 0.5 1) (frame_at 1.0 0.5 1))%float = true.
Proof.
  apply (GetFrameDuration_not_negative
           (blank_player no_stream no_stream AudioMaster)
           (frame_at 1.25 0.5 1) (frame_at 1.0 0.5 1)); reflexivity.
Defined.

(* ================================================================== *)
(** ** The reader at the end of the file *)
(* ================================================================== *)

Lemma push_null_run d streamIndex w :
  push_null d streamIndex w
  = (with_decoder_queue d
       (if alloc_ok w (alloc_calls w)
        then drained (Decoder.packetsQueue d) streamIndex
        else Decoder.packetsQueue d),
     allocated w).
Proof.
  unfold push_null, PushNullPacket, bind, ret, allocate.
  destruct (alloc_ok w (alloc_calls w)); reflexivity.
Qed.

(** X20 -- The end of the file is signalled once. The first read that
    reports it queues one null packet, carrying the stream's index and the
    queue's current serial, behind the packets of every valid stream and
    sets the reader's EOF flag; while the flag stands, further reads that
    report the end queue nothing, allocate nothing and change nothing. The
    queue of an absent stream is never touched, and a null packet that
    cannot be allocated is dropped silently. *)
Theorem PacketReadThreadProc_eof_signals_once :
  forall (state : PlayerState.t) (w : World) (ok : bool),
    (forall n, alloc_ok w n = ok) ->
    let state1 := fst (PacketReadThreadProc_eof state w) in
    ReaderContext.isEOF (PlayerState.reader state1) = true
    /\ (forall w', PacketReadThreadProc_eof state1 w' = (state1, w'))
    /\ (ReaderContext.isEOF (PlayerState.reader state) = true -> state1 = state)
    /\ (ReaderContext.isEOF (PlayerState.reader state) = false ->
        video_queue state1
        = (if video_valid state && ok
           then drained (video_queue state)
                  (MediaStream.streamIndex
                     (VideoContext.stream (PlayerState.video state)))
           else video_queue state)
        /\ audio_queue state1
           = (if audio_valid state && ok
              then drained (audio_queue state)
                     (MediaStream.streamIndex
                        (AudioContext.stream (PlayerState.audio state)))
              else audio_queue state))
    /\ PacketQueue.serial (video_queue state1)
       = PacketQueue.serial (video_queue state)
    /\ PacketQueue.serial (audio_queue state1)
       = PacketQueue.serial (audio_queue state).
Proof.
  intros state w ok Hok. cbv zeta.
  assert (Hok' : forall n, alloc_ok (allocated w) n = ok) by exact Hok.
  assert (Hagain : forall s : PlayerState.t,
             ReaderContext.isEOF (PlayerState.reader s) = true ->
             forall w', PacketReadThreadProc_eof s w' = (s, w')).
  { intros s Hs w'. unfold PacketReadThreadProc_eof. rewrite Hs. reflexivity. }
  destruct (ReaderContext.isEOF (PlayerState.reader state)) eqn:Heof.
  - rewrite (Hagain state Heof w). cbn [fst].
    split; [exact Heof|]. split; [exact (Hagain state Heof)|].
    split; [reflexivity|]. split; [discriminate|]. split; reflexivity.
  - set (state1 := fst (PacketReadThreadProc_eof state w)).
    pose proof (eq_refl state1) as E1. unfold state1 at 2 in E1.
    clearbody state1.
    unfold PacketReadThreadProc_eof in E1. rewrite Heof in E1.
    cbn [negb] in E1. clear Heof.
    open_state state.
    unfold audio_queue, video_queue, audio_valid, video_valid, bind, ret in *.
    cbn [PlayerState.audio PlayerState.video PlayerState.reader
         AudioContext.stream VideoContext.stream AudioContext.decoder
         VideoContext.decoder MediaStream.isValid MediaStream.streamIndex]
      in *.
    repeat match goal with
    | |- context [MediaStream.isValid ?m] => is_var m; destruct m as [? ? []]
    end;
    cbn -[push_null drained allocated] in E1;
    repeat (rewrite push_null_run in E1;
            cbn -[push_null drained allocated] in E1);
    rewrite ?Hok', ?Hok in E1; subst state1;
    (split; [reflexivity|]);
    (split; [intros w'; apply Hagain; reflexivity|]);
    (split; [discriminate|]);
    destruct ok; cbn -[drained]; repeat split.
Qed.

(** The freshly loaded player at the end of the file: one null packet for
    stream 1 in the audio queue, and none added by a second report. *)
Lemma PacketReadThreadProc_eof_signals_once_witness :
  map (fun p => AVPacket.stream_index (PacketList.packet p))
    (PacketQueue.packets
       (audio_queue (fst (PacketReadThreadProc_eof after_load sample_world))))
  = [1]
  /\ PacketReadThreadProc_eof
       (fst (PacketReadThreadProc_eof after_load sample_world)) sample_world
     = (fst (PacketReadThreadProc_eof after_load sample_world), sample_world).
Proof.
  destruct (PacketReadThreadProc_eof_signals_once after_load sample_world true
              (fun _ => eq_refl)) as (_ & Hagain & _ & Hq & _).
  destruct (Hq eq_refl) as [_ Ha].
  split; [rewrite Ha; reflexivity|apply Hagain].
Defined.

(* ================================================================== *)
(** ** The audio callback: frame accounting *)
(* ================================================================== *)

Lemma NextReadable_frames_to_play queue :
  ring_invariant queue ->
  FrameQueue.capacity queue <= MAX_FRAME_QUEUE_COUNT ->
  0 < frames_to_play queue ->
  frames_to_play (NextReadable queue) = frames_to_play queue - 1.
Proof.
  unfold frames_to_play. intros ((Hc0 & Hc) & Hrem & Hshown) Hmax Hany.
  unfold NextReadable.
  destruct (negb (FrameQueue.keepLast queue =? 0)) eqn:Hk; cbn [andb].
  - destruct (Z.eqb_spec (FrameQueue.readIndexShown queue) 0) as [E|E].
    + cbn [FrameQueue.count FrameQueue.readIndexShown]. lia.
    + cbn [FrameQueue.count FrameQueue.readIndexShown].
      rewrite wrap_int32_id by int32_small. lia.
  - cbn [FrameQueue.count FrameQueue.readIndexShown].
    rewrite wrap_int32_id by int32_small. lia.
Qed.

Lemma PeekReadableFromFrameQueue_some queue stopped1 stopped2 slot :
  ring_invariant queue ->
  FrameQueue.capacity queue <= MAX_FRAME_QUEUE_COUNT ->
  PeekReadableFromFrameQueue queue stopped1 stopped2 = Some slot ->
  0 < frames_to_play queue /\ slot = PeekFrameQueue queue.
Proof.
  unfold frames_to_play, PeekReadableFromFrameQueue.
  intros ((Hc0 & Hc) & Hrem & Hshown) Hmax.
  rewrite wrap_int32_id by int32_small.
  destruct (Z.leb_spec (FrameQueue.count queue - FrameQueue.readIndexShown queue) 0);
    cbn [orb]; [discriminate|].
  destruct stopped1; cbn [orb]; [discriminate|].
  destruct stopped2; [discriminate|].
  intros E. injection E as <-. split; [lia|reflexivity].
Qed.

Lemma rounds_left_bounds bound p :
  0 <= frames_to_play (pb_queue p) <= bound ->
  remainingFrameCount p * (4 * bound + 4)
  <= rounds_left bound p
  <= remainingFrameCount p * (4 * bound + 4) + 4 * bound + 3.
Proof.
  intros H. unfold rounds_left.
  destruct (AudioBuffer.pendingAudioFrame (pb_audio p));
    destruct (AudioBuffer.conversionAudioFramesRemaining (pb_audio p) =? 0);
    lia.
Qed.

Lemma filled_upto_app copies : forall start upto source frames,
  0 < frames ->
  filled_upto start copies = Some upto ->
  filled_upto start (copies ++ [(source, upto, frames)]) = Some (upto + frames).
Proof.
  induction copies as [|[[s d] n] rest IH]; intros start upto source frames Hn H.
  - cbn [filled_upto app] in *. injection H as <-.
    rewrite Z.eqb_refl. apply Z.ltb_lt in Hn. rewrite Hn. reflexivity.
  - cbn [filled_upto app] in *.
    destruct ((d =? start) && (0 <? n)); [|discriminate].
    apply IH; assumption.
Qed.

Ltac playback_fields :=
  cbn [pb_audio pb_queue remainingFrameCount pb_result pb_converted pb_copies
       AudioBuffer.conversionAudioFramesRemaining
       AudioBuffer.conversionAudioFrameIndex AudioBuffer.pendingAudioFrame
       WriteSilenceSamples fst snd] in *.

Ltac playback_done :=
  unfold playback_invariant; playback_fields;
  repeat match goal with |- _ /\ _ => split end;
  try assumption; try (unfold INT32_MAX in *; lia);
  try (intros H; first [contradiction|discriminate]);
  try (intros _; repeat split; assumption).

Lemma consume_converted_spec input bound p :
  playback_invariant input bound p ->
  0 < remainingFrameCount p ->
  playback_invariant input bound (consume_converted input p)
  /\ pb_queue (consume_converted input p) = pb_queue p
  /\ AudioBuffer.pendingAudioFrame (pb_audio (consume_converted input p))
     = AudioBuffer.pendingAudioFrame (pb_audio p)
  /\ ((AudioBuffer.conversionAudioFramesRemaining (pb_audio p) = 0
       /\ consume_converted input p = p)
      \/ (0 < AudioBuffer.conversionAudioFramesRemaining (pb_audio p)
          /\ AudioBuffer.pendingAudioFrame (pb_audio p) = None
          /\ remainingFrameCount (consume_converted input p)
             < remainingFrameCount p
          /\ (remainingFrameCount (consume_converted input p) = 0
              \/ AudioBuffer.conversionAudioFramesRemaining
                   (pb_audio (consume_converted input p)) = 0))).
Proof.
  intros (Hidx & Hinv & Hcap & Hftp & Hfc & Hswr & Hr & Hres & Hsum & Hcr & Hpend
          & Hcopies) Hrem.
  unfold consume_converted.
  destruct p as [[cr ci pe] q r res cv cp].
  cbn [pb_audio pb_queue remainingFrameCount pb_result pb_converted pb_copies
       AudioBuffer.conversionAudioFramesRemaining
       AudioBuffer.conversionAudioFrameIndex AudioBuffer.pendingAudioFrame] in *.
  destruct (Z.ltb_spec 0 cr) as [Hpos|Hzero].
  - assert (Hnone : pe = None).
    { destruct pe as [slot|]; [|reflexivity].
      destruct Hpend as (H0 & _); [discriminate|lia]. }
    set (f := if r <? cr then r else cr).
    assert (Hf : 1 <= f /\ f <= r /\ f <= cr /\ (f = r \/ f = cr))
      by (unfold f; destruct (Z.ltb_spec r cr); lia).
    cbn [pb_audio pb_queue remainingFrameCount pb_result pb_converted pb_copies
         AudioBuffer.conversionAudioFramesRemaining
         AudioBuffer.conversionAudioFrameIndex AudioBuffer.pendingAudioFrame].
    rewrite (to_uint32_id (cr - f)), (to_uint32_id (r - f)),
      (to_uint32_id (res + f)), (to_uint32_id (frameCount input - r)) by lia.
    split.
    + unfold playback_invariant. playback_fields.
      repeat match goal with |- _ /\ _ => split end;
        try assumption; try lia.
      * intros H. contradiction.
      * replace (frameCount input - r) with res by lia.
        apply filled_upto_app; [lia|exact Hcopies].
    + split; [reflexivity|]. split; [reflexivity|]. right.
      repeat split; try assumption; lia.
  - split.
    + unfold playback_invariant. playback_fields.
      repeat match goal with |- _ /\ _ => split end; try assumption; lia.
    + split; [reflexivity|]. split; [reflexivity|]. left.
      split; [lia|reflexivity].
Qed.

Lemma convert_pending_spec input bound p :
  playback_invariant input bound p ->
  playback_invariant input bound (snd (convert_pending input p))
  /\ remainingFrameCount (snd (convert_pending input p)) = remainingFrameCount p
  /\ match AudioBuffer.pendingAudioFrame (pb_audio p) with
     | None => convert_pending input p = (NextRound, p)
     | Some _ =>
         AudioBuffer.pendingAudioFrame (pb_audio (snd (convert_pending input p)))
         = None
         /\ frames_to_play (pb_queue (snd (convert_pending input p)))
            = frames_to_play (pb_queue p) - 1
         /\ match fst (convert_pending input p) with
            | LeaveLoop => exists n, swr_convert input n <= 0
            | NextRound =>
                0 < AudioBuffer.conversionAudioFramesRemaining
                      (pb_audio (snd (convert_pending input p)))
            end
     end.
Proof.
  intros (Hidx & Hinv & Hcap & Hftp & Hfc & Hswr & Hr & Hres & Hsum & Hcr & Hpend
          & Hcopies).
  unfold convert_pending.
  destruct p as [[cr ci pe] q r res cv cp]. playback_fields.
  destruct pe as [slot|].
  - destruct Hpend as (Hzero & Hrun & Hany); [discriminate|].
    destruct (NextReadable_invariants q Hidx Hinv Hcap Hany)
      as (Hidx' & Hinv' & Hcap').
    pose proof (NextReadable_frames_to_play q Hinv Hcap Hany) as Hless.
    pose proof (Hswr cv) as Hint.
    destruct (Z.leb_spec (swr_convert input cv) 0) as [Hfail|Hgood];
      playback_fields.
    + split.
      * playback_done.
      * split; [reflexivity|]. split; [reflexivity|].
        split; [exact Hless|]. exists cv. exact Hfail.
    + rewrite to_uint32_id by (unfold INT32_MAX in *; lia).
      split.
      * playback_done.
      * split; [reflexivity|]. split; [reflexivity|].
        split; [exact Hless|exact Hgood].
  - playback_fields. split.
    + playback_done.
    + split; reflexivity.
Qed.

Lemma fetch_frame_spec input bound p :
  playback_invariant input bound p ->
  0 < remainingFrameCount p ->
  playback_invariant input bound (snd (fetch_frame input p))
  /\ remainingFrameCount (snd (fetch_frame input p)) = remainingFrameCount p
  /\ fst (fetch_frame input p) = NextRound
  /\ (snd (fetch_frame input p) = p
      /\ (AudioBuffer.pendingAudioFrame (pb_audio p) <> None
          \/ AudioBuffer.conversionAudioFramesRemaining (pb_audio p) <> 0)
      \/ rounds_left bound (snd (fetch_frame input p)) < rounds_left bound p).
Proof.
  intros (Hidx & Hinv & Hcap & Hftp & Hfc & Hswr & Hr & Hres & Hsum & Hcr & Hpend
          & Hcopies) Hrem.
  unfold fetch_frame, rounds_left.
  destruct p as [[cr ci pe] q r res cv cp]. playback_fields.
  destruct pe as [slot|].
  - playback_fields. split.
    + playback_done.
    + split; [reflexivity|]. split; [reflexivity|]. left.
      split; [reflexivity|left; discriminate].
  - destruct (Z.eqb_spec cr 0) as [Hzero|Hsome].
    + subst cr.
      destruct (if negb (cb_isPaused input)
                then PeekReadableFromFrameQueue q (cb_stopped input)
                       (cb_stopped input)
                else None) as [newAudioFrame|] eqn:Hpeek.
      * assert (Hrun : cb_isPaused input = false)
          by (destruct (cb_isPaused input); [discriminate|reflexivity]).
        rewrite Hrun in Hpeek. cbn [negb] in Hpeek.
        destruct (PeekReadableFromFrameQueue_some _ _ _ _ Hinv Hcap Hpeek)
          as [Hany _].
        destruct (NextReadable_invariants q Hidx Hinv Hcap Hany)
          as (Hidx' & Hinv' & Hcap').
        pose proof (NextReadable_frames_to_play q Hinv Hcap Hany) as Hless.
        destruct (negb (Frame.serial (slot_frame q newAudioFrame)
                        =? cb_queueSerial input)); playback_fields.
        -- split.
           ++ playback_done.
           ++ split; [reflexivity|]. split; [reflexivity|]. right.
              cbn [Z.eqb]. lia.
        -- split.
           ++ playback_done.
           ++ split; [reflexivity|]. split; [reflexivity|]. right.
              cbn [Z.eqb]. lia.
      * destruct (Z.ltb_spec 0 r) as [_|Hno]; [|lia]. playback_fields.
        split.
        -- playback_done.
        -- split; [reflexivity|]. split; [reflexivity|]. right.
           destruct (Z.eqb_spec r 0); [lia|]. cbn [Z.eqb]. lia.
    + playback_fields. split.
      * playback_done.
      * split; [reflexivity|]. split; [reflexivity|]. left.
        split; [reflexivity|right; exact Hsome].
Qed.

Lemma rounds_left_consumed bound p p' :
  0 <= frames_to_play (pb_queue p) <= bound ->
  0 <= frames_to_play (pb_queue p') <= bound ->
  0 <= remainingFrameCount p' < remainingFrameCount p ->
  rounds_left bound p' < rounds_left bound p.
Proof.
  intros Hp Hp' Hless.
  pose proof (rounds_left_bounds bound p Hp) as [Hlow _].
  pose proof (rounds_left_bounds bound p' Hp') as [_ Hhigh].
  assert (Hmul : remainingFrameCount p' * (4 * bound + 4)
                 <= (remainingFrameCount p - 1) * (4 * bound + 4))
    by (apply Z.mul_le_mono_nonneg_r; lia).
  lia.
Qed.

Lemma playback_frames_to_play input bound p :
  playback_invariant input bound p ->
  0 <= frames_to_play (pb_queue p) <= bound.
Proof.
  intros (_ & (_ & Hrem & _) & _ & Hftp & _). unfold frames_to_play in *. lia.
Qed.

(** One round keeps the invariant; it either goes on, nearer to the end
    and with frames still asked for, or leaves the loop with no frame
    pending, because every frame was delivered or a conversion failed. *)
Lemma callback_round_spec input bound p :
  playback_invariant input bound p ->
  0 < remainingFrameCount p ->
  playback_invariant input bound (snd (callback_round input p))
  /\ match fst (callback_round input p) with
     | NextRound =>
         rounds_left bound (snd (callback_round input p)) < rounds_left bound p
         /\ 0 < remainingFrameCount (snd (callback_round input p))
     | LeaveLoop =>
         AudioBuffer.pendingAudioFrame (pb_audio (snd (callback_round input p)))
         = None
         /\ (remainingFrameCount (snd (callback_round input p)) = 0
             \/ exists n, swr_convert input n <= 0)
     end.
Proof.
  intros Hinv Hrem. unfold callback_round.
  set (p0 := if cb_isPaused input
             then mkPlayback
                    (WriteSilenceSamples (pb_audio p) (remainingFrameCount p))
                    (pb_queue p) (remainingFrameCount p) (pb_result p)
                    (pb_converted p) (pb_copies p)
             else p).
  assert (H0 : playback_invariant input bound p0
               /\ remainingFrameCount p0 = remainingFrameCount p
               /\ pb_queue p0 = pb_queue p
               /\ (cb_isPaused input = true ->
                   AudioBuffer.conversionAudioFramesRemaining (pb_audio p0)
                   = remainingFrameCount p)
               /\ (cb_isPaused input = false -> p0 = p)).
  { unfold p0. destruct (cb_isPaused input) eqn:Hpaused.
    - destruct Hinv as (Hidx & Hri & Hcap & Hftp & Hfc & Hswr & Hr & Hres & Hsum
                        & Hcr & Hpend & Hcopies).
      destruct p as [[cr ci pe] q r res cv cp]. playback_fields.
      split; [|repeat split; discriminate].
      playback_done. intros H. destruct (Hpend H) as (_ & Hno & _). congruence.
    - split; [exact Hinv|]. repeat split; discriminate. }
  destruct H0 as (Hinv0 & Hrem0 & Hq0 & Hsilence & Hsame).
  assert (Hpos0 : 0 < remainingFrameCount p0) by lia.
  destruct (consume_converted_spec input bound p0 Hinv0 Hpos0)
    as (Hinv1 & Hq1 & Hpe1 & Hcase).
  set (p1 := consume_converted input p0) in *.
  pose proof (playback_frames_to_play input bound p Hinv) as Hftp.
  pose proof (playback_frames_to_play input bound p1 Hinv1) as Hftp1.
  assert (Hr1 : 0 <= remainingFrameCount p1)
    by (destruct Hinv1 as (_ & _ & _ & _ & _ & _ & H & _); exact H).
  destruct (Z.eqb_spec (remainingFrameCount p1) 0) as [Hdone|Hmore].
  - cbn [fst snd]. split; [exact Hinv1|]. split; [|left; exact Hdone].
    destruct Hcase as [(Hz & Heq)|(_ & Hnone & _)].
    + rewrite Heq in Hdone. lia.
    + rewrite Hpe1. exact Hnone.
  - destruct (convert_pending_spec input bound p1 Hinv1)
      as (Hinv2 & Hrem2 & Hconv).
    destruct (convert_pending input p1) as [flow2 p2] eqn:E2.
    cbn [fst snd] in *.
    assert (Hpos2 : 0 < remainingFrameCount p2) by lia.
    destruct (fetch_frame_spec input bound p2 Hinv2 Hpos2)
      as (Hinv3 & Hrem3 & Hflow3 & Hfetch).
    pose proof (playback_frames_to_play input bound p2 Hinv2) as Hftp2.
    pose proof (playback_frames_to_play input bound (snd (fetch_frame input p2))
                  Hinv3) as Hftp3.
    destruct Hcase as [(Hz & Heq)|(Hsome & Hnone & Hless & Hempty)].
    + (* nothing was consumed: the player runs and the buffer is empty *)
      assert (Hrun : cb_isPaused input = false).
      { destruct (cb_isPaused input) eqn:Hp; [|reflexivity].
        rewrite (Hsilence eq_refl) in Hz. lia. }
      specialize (Hsame Hrun). rewrite Heq, Hsame in *.
      destruct (AudioBuffer.pendingAudioFrame (pb_audio p)) as [slot|] eqn:Hpe.
      * destruct Hconv as (Hpe2 & Hless2 & Hout).
        destruct flow2.
        -- rewrite Hflow3. split; [exact Hinv3|].
           split; [|lia].
           destruct Hfetch as [(Heq3 & _)|Hlow].
           ++ rewrite Heq3. unfold rounds_left.
              rewrite Hpe2, Hpe, Hz, Hrem2, Hless2.
              destruct (Z.eqb_spec (AudioBuffer.conversionAudioFramesRemaining
                                      (pb_audio p2)) 0); cbn [Z.eqb]; lia.
           ++ assert (Hbefore : rounds_left bound p2 < rounds_left bound p).
              { unfold rounds_left.
                rewrite Hpe2, Hpe, Hz, Hrem2, Hless2.
                destruct (Z.eqb_spec (AudioBuffer.conversionAudioFramesRemaining
                                        (pb_audio p2)) 0); cbn [Z.eqb]; lia. }
              lia.
        -- split; [exact Hinv2|]. split; [exact Hpe2|right; exact Hout].
      * injection Hconv as -> ->.
        rewrite Hflow3. split; [exact Hinv3|]. split; [|lia].
        destruct Hfetch as [(_ & [Habs|Habs])|Hlow];
          [contradiction|contradiction|exact Hlow].
    + (* frames were consumed and more are asked for *)
      rewrite Hpe1, Hnone in Hconv. injection Hconv as -> ->.
      rewrite Hflow3. split; [exact Hinv3|]. split; [|lia].
      apply rounds_left_consumed; lia.
Qed.

Lemma callback_loop_spec input bound fuel : forall p,
  playback_invariant input bound p ->
  rounds_left bound p < Z.of_nat fuel ->
  AudioBuffer.pendingAudioFrame (pb_audio p) = None
  \/ 0 < remainingFrameCount p ->
  exists p',
    callback_loop fuel input p = Some p'
    /\ playback_invariant input bound p'
    /\ AudioBuffer.pendingAudioFrame (pb_audio p') = None
    /\ (remainingFrameCount p' = 0 \/ exists n, swr_convert input n <= 0).
Proof.
  induction fuel as [|fuel IH]; intros p Hinv Hfuel Hstart.
  - pose proof (playback_frames_to_play input bound p Hinv) as Hftp.
    pose proof (rounds_left_bounds bound p Hftp) as [Hlow _].
    destruct Hinv as (_ & _ & _ & _ & _ & _ & Hr & _).
    assert (0 <= remainingFrameCount p * (4 * bound + 4))
      by (apply Z.mul_nonneg_nonneg; lia).
    lia.
  - cbn [callback_loop].
    destruct (Z.ltb_spec 0 (remainingFrameCount p)) as [Hrem|Hnone].
    + destruct (callback_round_spec input bound p Hinv Hrem) as (Hinv' & Hout).
      destruct (callback_round input p) as [flow p'].
      cbn [fst snd] in *. destruct flow.
      * destruct Hout as [Hless Hpos]. apply IH; [exact Hinv'|lia|right; exact Hpos].
      * exists p'. split; [reflexivity|]. split; [exact Hinv'|exact Hout].
    + exists p. split; [reflexivity|]. split; [exact Hinv|].
      destruct Hstart as [Hpe|Hpos]; [|lia].
      split; [exact Hpe|]. left.
      destruct Hinv as (_ & _ & _ & _ & _ & _ & Hr & _). lia.
Qed.

(** X21 -- The audio callback delivers what it is asked for. On a frame
    queue that keeps its invariants, with no frame pending at its start,
    the loop of [AudioReadCallback] ends; the number of frames it reports
    never exceeds [frameCount] and equals it unless a conversion returned
    no samples; the copies into the output follow one another from frame 0
    to the reported frame, without gap or overlap; no frame is left pending;
    and an invalid stream reports no frame at all. *)
Theorem AudioReadCallback_delivers :
  forall (input : CallbackInput) (audio : AudioBuffer.t) (queue : FrameQueue.t)
         (streamIsValid : bool) (fuel : nat),
    ring_indexed queue ->
    ring_invariant queue ->
    FrameQueue.capacity queue <= MAX_FRAME_QUEUE_COUNT ->
    0 <= frameCount input < 2 ^ 32 ->
    (forall n, swr_convert input n <= INT32_MAX) ->
    0 <= AudioBuffer.conversionAudioFramesRemaining audio < 2 ^ 32 ->
    AudioBuffer.pendingAudioFrame audio = None ->
    (frameCount input + 1) * (4 * frames_to_play queue + 4) <= Z.of_nat fuel ->
    exists p,
      AudioReadCallback_frames fuel input streamIsValid audio queue = Some p
      /\ 0 <= pb_result p <= frameCount input
      /\ (streamIsValid = false -> pb_result p = 0)
      /\ (streamIsValid = true -> (forall n, 0 < swr_convert input n) ->
          pb_result p = frameCount input)
      /\ filled_upto 0 (pb_copies p) = Some (pb_result p)
      /\ AudioBuffer.pendingAudioFrame (pb_audio p) = None
      /\ ring_indexed (pb_queue p)
      /\ ring_invariant (pb_queue p).
Proof.
  intros input audio queue streamIsValid fuel Hidx Hinv Hcap Hfc Hswr Hcr Hpe
    Hfuel.
  unfold AudioReadCallback_frames.
  set (start := mkPlayback audio queue (frameCount input) 0 0 []).
  destruct streamIsValid.
  - assert (Hstart : playback_invariant input (frames_to_play queue) start).
    { unfold start. playback_done. reflexivity. }
    assert (Hrounds : rounds_left (frames_to_play queue) start < Z.of_nat fuel).
    { pose proof (playback_frames_to_play _ _ _ Hstart) as Hftp.
      pose proof (rounds_left_bounds _ start Hftp) as [_ Hhigh].
      unfold start in Hhigh at 2. playback_fields. lia. }
    destruct (callback_loop_spec input (frames_to_play queue) fuel start Hstart
                Hrounds (or_introl Hpe))
      as (p & Hrun & Hinv' & Hpe' & Hend).
    exists p. split; [exact Hrun|].
    destruct Hinv' as (Hidx' & Hri' & _ & _ & _ & _ & Hr & Hres & Hsum & _ & _
                       & Hcopies).
    split; [lia|]. split; [discriminate|]. split.
    { intros _ Hgood. destruct Hend as [Hzero|(n & Hbad)]; [lia|].
      specialize (Hgood n). lia. }
    split; [exact Hcopies|]. split; [exact Hpe'|].
    split; [exact Hidx'|exact Hri'].
  - exists start. split; [reflexivity|]. unfold start. playback_fields.
    split; [lia|]. split; [reflexivity|]. split; [discriminate|].
    split; [reflexivity|]. split; [exact Hpe|].
    split; [exact Hidx|exact Hinv].
Qed.

(** 64 frames asked for on the audio ring, which has one frame left to
    play: its 40 converted frames are copied first, 24 frames of silence
    behind them. *)
Lemma AudioReadCallback_delivers_witness :
  option_map pb_copies
    (AudioReadCallback_frames 1000 sample_callback true
       (AudioBuffer.mk 0 0 None) audio_ring)
  = Some [(0, 0, 40); (0, 40, 24)]
  /\ option_map pb_result
       (AudioReadCallback_frames 1000 sample_callback true
          (AudioBuffer.mk 0 0 None) audio_ring)
     = Some 64.
Proof.
  split; [vm_compute; reflexivity|].
  assert (Hidx : ring_indexed audio_ring)
    by (unfold ring_indexed; vm_compute; repeat split; discriminate).
  assert (Hinv : ring_invariant audio_ring)
    by (unfold ring_invariant; vm_compute; repeat split; try discriminate;
        right; reflexivity).
  assert (Hcap : FrameQueue.capacity audio_ring <= MAX_FRAME_QUEUE_COUNT)
    by (vm_compute; discriminate).
  destruct (AudioReadCallback_delivers sample_callback (AudioBuffer.mk 0 0 None)
              audio_ring true 1000 Hidx Hinv Hcap)
    as (p & -> & _ & _ & Hall & _).
  - cbn. lia.
  - intros n. cbn. unfold INT32_MAX. lia.
  - cbn. lia.
  - reflexivity.
  - vm_compute. discriminate.
  - cbn [option_map]. rewrite Hall; [reflexivity|reflexivity|].
    intros n. cbn. lia.
Defined.

(* ================================================================== *)
(** ** The video refresh *)
(* ================================================================== *)

Lemma leb_refl (x : double) : isnan x = false -> (x <=? x)%float = true.
Proof.
  rewrite leb_spec, isnan_false_Prim2SF. unfold SFleb.
  destruct (Prim2SF x) as [[|]|[|]| |[|] m e]; cbn; try congruence;
    rewrite Z.compare_refl;
    change (Pos.compare_cont Eq m m) with (Pos.compare m m);
    rewrite Pos.compare_refl; reflexivity.
Qed.

Lemma fplMin_below (a b : double) :
  isnan b = false ->
  isnan (fplMin a b) = false /\ (fplMin a b <=? b)%float = true.
Proof.
  intros Hb. unfold fplMin. destruct (a <? b)%float eqn:Hlt.
  - pose proof (ltb_leb a b Hlt) as Hle.
    split; [exact (leb_isnan_l a b Hle)|exact Hle].
  - split; [exact Hb|exact (leb_refl b Hb)].
Qed.

Lemma refresh_kept_refl s : refresh_kept s s.
Proof. repeat split. left. reflexivity. Qed.

Lemma refresh_kept_trans s1 s2 s3 :
  refresh_kept s1 s2 -> refresh_kept s2 s3 -> refresh_kept s1 s3.
Proof.
  unfold refresh_kept.
  intros (A1 & A2 & A3 & A4 & A5 & A6 & A7 & A8)
         (B1 & B2 & B3 & B4 & B5 & B6 & B7 & B8).
  repeat match goal with |- _ /\ _ => split end; try congruence.
  destruct B8 as [B8|B8]; [rewrite B8; exact A8|right; congruence].
Qed.

Lemma with_frameTimer_kept s x :
  refresh_kept s (with_frameTimer s x)
  /\ video_frames (with_frameTimer s x) = video_frames s.
Proof. open_state s. repeat split. left. reflexivity. Qed.

Lemma with_video_frames_kept s q :
  refresh_kept s (with_video_frames s q)
  /\ video_frames (with_video_frames s q) = q.
Proof.
  open_state s. unfold refresh_kept. cbn.
  repeat split. left. reflexivity.
Qed.

Lemma with_externalClock_kept s e :
  refresh_kept s (with_externalClock s e)
  /\ video_frames (with_externalClock s e) = video_frames s.
Proof. open_state s. repeat split. left. reflexivity. Qed.

Lemma UpdateVideoClock_kept s pts w :
  refresh_kept s
    (fst (UpdateVideoClock s pts (PacketQueue.serial (video_queue s)) w))
  /\ video_frames
       (fst (UpdateVideoClock s pts (PacketQueue.serial (video_queue s)) w))
     = video_frames s.
Proof.
  unfold UpdateVideoClock, bind, ret.
  assert (Hserial : Clock.serial
            (fst (SetClock (video_clock s) pts
                    (PacketQueue.serial (video_queue s)) w))
          = PacketQueue.serial (video_queue s)) by reflexivity.
  destruct (SetClock (video_clock s) pts (PacketQueue.serial (video_queue s)) w)
    as [c w1].
  cbn [fst] in Hserial.
  set (s1 := with_video s (with_video_clock (PlayerState.video s) c)).
  assert (H1 : refresh_kept s s1 /\ video_frames s1 = video_frames s).
  { unfold s1. clear s1. open_state s. unfold refresh_kept. cbn in *.
    repeat split. right. exact Hserial. }
  destruct H1 as [K1 F1].
  destruct (SyncClockToSlave (load s1) (PlayerState.externalClock s1)
              (video_clock s1) w1) as [e w2].
  cbn [fst].
  destruct (with_externalClock_kept s1 e) as [K2 F2].
  split; [eapply refresh_kept_trans; eassumption|congruence].
Qed.

Lemma UpdateExternalClockSpeed_kept s w :
  refresh_kept s (fst (UpdateExternalClockSpeed s w))
  /\ video_frames (fst (UpdateExternalClockSpeed s w)) = video_frames s.
Proof.
  assert (Hset : forall speed,
             refresh_kept s (fst (set_external_speed s speed w))
             /\ video_frames (fst (set_external_speed s speed w))
                = video_frames s).
  { intros speed. unfold set_external_speed, bind, ret.
    destruct (SetClockSpeed (load s) (PlayerState.externalClock s) speed w)
      as [c w1].
    cbn [fst]. apply with_externalClock_kept. }
  unfold UpdateExternalClockSpeed.
  destruct (queue_starved s); [apply Hset|].
  destruct (queues_filled s); [apply Hset|].
  destruct (negb _); [apply Hset|].
  split; [apply refresh_kept_refl|reflexivity].
Qed.

Lemma ring_facts_NextReadable queue :
  ring_facts queue ->
  0 < frames_to_play queue ->
  ring_facts (NextReadable queue)
  /\ frames_to_play (NextReadable queue) = frames_to_play queue - 1
  /\ rest_of (pending_frames (NextReadable queue)) (pending_frames queue).
Proof.
  intros (Hidx & Hinv & Hcap) Hany.
  split; [exact (NextReadable_invariants queue Hidx Hinv Hcap Hany)|].
  split; [exact (NextReadable_frames_to_play queue Hinv Hcap Hany)|].
  exists 1%nat.
  rewrite (pending_frames_head queue Hidx Hinv Hcap Hany). reflexivity.
Qed.

Lemma rest_of_refl {A} (l : list A) : rest_of l l.
Proof. exists 0%nat. reflexivity. Qed.

Lemma rest_of_trans {A} (l1 l2 l3 : list A) :
  rest_of l2 l1 -> rest_of l3 l2 -> rest_of l3 l1.
Proof.
  intros [k1 ->] [k2 ->]. exists (k1 + k2)%nat.
  rewrite skipn_skipn. f_equal. lia.
Qed.

Lemma refresh_counted_refl r :
  isnan (Refresh.remainingTime r) = false -> refresh_counted r r.
Proof.
  intros H. repeat split; try exact H. apply leb_refl. exact H.
Qed.

Lemma frame_step_kept_after s a r out :
  refresh_kept s a ->
  video_frames a = video_frames s ->
  frame_step_kept a r out ->
  frame_step_kept s r out.
Proof.
  intros K F. destruct out as [s' r'|s' r'|]; cbn [frame_step_kept];
    rewrite ?F; [| |exact (fun H => H)].
  - intros (K' & H). split; [exact (refresh_kept_trans _ _ _ K K')|exact H].
  - intros (K' & H). split; [exact (refresh_kept_trans _ _ _ K K')|exact H].
Qed.

Lemma reset_frame_timer_kept s lastvp vp w :
  refresh_kept s (fst (reset_frame_timer s lastvp vp w))
  /\ video_frames (fst (reset_frame_timer s lastvp vp w)) = video_frames s.
Proof.
  unfold reset_frame_timer, bind, ret.
  destruct (negb (Frame.serial lastvp =? Frame.serial vp)).
  - destruct (av_gettime_relative w) as [t w1]. cbn [fst].
    apply with_frameTimer_kept.
  - split; [apply refresh_kept_refl|reflexivity].
Qed.

Lemma advance_frame_kept s r vp delay time w :
  PlayerState.step s = 0 ->
  isnan (Refresh.remainingTime r) = false ->
  0 < frames_to_play (video_frames s) ->
  Frame.serial vp = PacketQueue.serial (video_queue s) ->
  frame_step_kept s r (fst (advance_frame s r vp delay time w)).
Proof.
  intros Hstep Hnan Hany Hserial. unfold advance_frame.
  destruct (with_frameTimer_kept s (PlayerState.frameTimer s + delay)%float)
    as [K1 F1].
  set (s1 := with_frameTimer s (PlayerState.frameTimer s + delay)%float) in *.
  set (s2 := if (0 <? delay)%float
                && (AV_SYNC_THRESHOLD_MAX <? time - PlayerState.frameTimer s1)%float
             then with_frameTimer s1 time else s1).
  assert (H2 : refresh_kept s s2 /\ video_frames s2 = video_frames s).
  { unfold s2.
    destruct ((0 <? delay)%float
              && (AV_SYNC_THRESHOLD_MAX <? time - PlayerState.frameTimer s1)%float).
    - destruct (with_frameTimer_kept s1 time) as [K F].
      split; [exact (refresh_kept_trans _ _ _ K1 K)|congruence].
    - split; assumption. }
  clearbody s2. destruct H2 as [K2 F2]. unfold bind.
  set (run3 := (if negb (isnan (Frame.pts vp))
                then UpdateVideoClock s2 (Frame.pts vp) (Frame.serial vp)
                else ret s2) w).
  assert (H3 : refresh_kept s (fst run3)
               /\ video_frames (fst run3) = video_frames s).
  { unfold run3. destruct (negb (isnan (Frame.pts vp))).
    - assert (E : Frame.serial vp = PacketQueue.serial (video_queue s2))
        by (destruct K2 as (-> & _); exact Hserial).
      rewrite E.
      destruct (UpdateVideoClock_kept s2 (Frame.pts vp) w) as [K F].
      split; [exact (refresh_kept_trans _ _ _ K2 K)|congruence].
    - split; assumption. }
  clearbody run3. destruct run3 as [s3 w3]. cbn [fst] in H3.
  destruct H3 as [K3 F3].
  destruct (with_video_frames_kept s3 (NextReadable (video_frames s3)))
    as [K4 F4].
  set (s4 := with_video_frames s3 (NextReadable (video_frames s3))) in *.
  assert (Hstep4 : PlayerState.step s4 = 0).
  { destruct K4 as (_ & _ & _ & -> & _). destruct K3 as (_ & _ & _ & -> & _).
    exact Hstep. }
  destruct (drops_late s3 r vp time); unfold ret; cbn [fst frame_step_kept].
  - split; [exact (refresh_kept_trans _ _ _ K3 K4)|].
    split; [destruct (refresh_counted_refl r Hnan) as (A & B & C & D & E & F);
            repeat split; assumption|].
    split; [reflexivity|]. split; [exact Hany|]. rewrite F4, F3. reflexivity.
  - rewrite Hstep4. cbn [Z.eqb negb andb fst frame_step_kept].
    split; [exact (refresh_kept_trans _ _ _ K3 K4)|].
    split; [destruct (refresh_counted_refl r Hnan) as (A & B & C & D & E & F);
            repeat split; assumption|].
    right. split; [exact Hany|]. rewrite F4, F3. reflexivity.
Qed.

Lemma time_frame_kept s r lastvp vp w :
  PlayerState.step s = 0 ->
  isnan (Refresh.remainingTime r) = false ->
  0 < frames_to_play (video_frames s) ->
  Frame.serial vp = PacketQueue.serial (video_queue s) ->
  frame_step_kept s r (fst (time_frame s r lastvp vp w)).
Proof.
  intros Hstep Hnan Hany Hserial. unfold time_frame, bind.
  destruct (ComputeVideoDelay s (GetFrameDuration s lastvp vp) w) as [delay w1].
  destruct (av_gettime_relative w1) as [t w2].
  destruct (time_seconds t <? PlayerState.frameTimer s + delay)%float.
  - unfold ret. cbn [fst frame_step_kept].
    split; [apply refresh_kept_refl|].
    destruct (fplMin_below
                (PlayerState.frameTimer s + delay - time_seconds t)%float
                (Refresh.remainingTime r) Hnan) as [N L].
    split; [repeat split; assumption|left; reflexivity].
  - apply advance_frame_kept; assumption.
Qed.

Lemma VideoRefresh_frame_kept s r w :
  ring_facts (video_frames s) ->
  PlayerState.step s = 0 ->
  isnan (Refresh.remainingTime r) = false ->
  frame_step_kept s r (fst (VideoRefresh_frame s r w)).
Proof.
  intros (Hidx & Hinv & Hmax) Hstep Hnan. unfold VideoRefresh_frame.
  rewrite (GetFrameQueueRemainingCount_exact _ Hinv Hmax).
  fold (frames_to_play (video_frames s)).
  destruct (Z.ltb_spec 0 (frames_to_play (video_frames s))) as [Hany|Hnone].
  - set (vp := slot_frame (video_frames s) (PeekFrameQueue (video_frames s))).
    set (lastvp := slot_frame (video_frames s)
                     (PeekFrameQueueLast (video_frames s))).
    destruct (Z.eqb_spec (Frame.serial vp) (PacketQueue.serial (video_queue s)))
      as [Hserial|Hstale]; cbn [negb].
    + unfold bind.
      destruct (reset_frame_timer_kept s lastvp vp w) as [K1 F1].
      destruct (reset_frame_timer s lastvp vp w) as [s1 w1]. cbn [fst] in K1, F1.
      apply (frame_step_kept_after s s1); [exact K1|exact F1|].
      destruct (PlayerState.isPaused s1).
      * unfold ret. cbn [fst frame_step_kept].
        split; [apply refresh_kept_refl|].
        split; [apply refresh_counted_refl; exact Hnan|left; reflexivity].
      * apply time_frame_kept.
        -- destruct K1 as (_ & _ & _ & -> & _). exact Hstep.
        -- exact Hnan.
        -- rewrite F1. exact Hany.
        -- destruct K1 as (-> & _). exact Hserial.
    + unfold ret. cbn [fst frame_step_kept].
      destruct (with_video_frames_kept s (NextReadable (video_frames s)))
        as [K F].
      split; [exact K|]. split; [apply refresh_counted_refl; exact Hnan|].
      split; [reflexivity|]. split; [exact Hany|exact F].
  - unfold ret. cbn [fst frame_step_kept].
    split; [apply refresh_kept_refl|].
    split; [apply refresh_counted_refl; exact Hnan|left; reflexivity].
Qed.

Lemma VideoRefresh_retry_ends fuel :
  forall s r w,
    ring_facts (video_frames s) ->
    PlayerState.step s = 0 ->
    isnan (Refresh.remainingTime r) = false ->
    (Z.to_nat (frames_to_play (video_frames s)) < fuel)%nat ->
    exists s' r',
      fst (VideoRefresh_retry fuel s r w) = Returned (s', r')
      /\ refresh_kept s s'
      /\ refresh_counted r r'
      /\ ring_facts (video_frames s')
      /\ rest_of (pending_frames (video_frames s'))
           (pending_frames (video_frames s)).
Proof.
  induction fuel as [|k IH]; intros s r w Hring Hstep Hnan Hfuel; [lia|].
  cbn [VideoRefresh_retry]. unfold bind.
  pose proof (VideoRefresh_frame_kept s r w Hring Hstep Hnan) as Hkept.
  destruct (VideoRefresh_frame s r w) as [[s1 r1|s1 r1|] w1];
    cbn [fst frame_step_kept] in Hkept; [| |contradiction].
  - destruct Hkept as (K & C & T & Hany & F).
    destruct (ring_facts_NextReadable _ Hring Hany) as (Hring1 & Hless & Hrest).
    rewrite <- F in Hring1, Hless, Hrest.
    assert (Hstep1 : PlayerState.step s1 = 0)
      by (destruct K as (_ & _ & _ & -> & _); exact Hstep).
    assert (Hnan1 : isnan (Refresh.remainingTime r1) = false)
      by (rewrite T; exact Hnan).
    destruct (IH s1 r1 w1 Hring1 Hstep1 Hnan1 ltac:(lia))
      as (s' & r' & E & K' & C' & Hring' & Hrest').
    exists s', r'. split; [exact E|].
    split; [exact (refresh_kept_trans _ _ _ K K')|].
    split.
    + destruct C as (A1 & A2 & A3 & A4 & _).
      destruct C' as (B1 & B2 & B3 & B4 & B5 & B6).
      rewrite T in B6. repeat split; congruence.
    + split; [exact Hring'|exact (rest_of_trans _ _ _ Hrest Hrest')].
  - destruct Hkept as (K & C & [F|[Hany F]]).
    + exists s1, r1. unfold ret. cbn [fst]. split; [reflexivity|].
      split; [exact K|]. split; [exact C|]. rewrite F.
      split; [exact Hring|apply rest_of_refl].
    + destruct (ring_facts_NextReadable _ Hring Hany) as (Hring1 & _ & Hrest).
      exists s1, r1. unfold ret. cbn [fst]. split; [reflexivity|].
      split; [exact K|]. split; [exact C|]. rewrite F.
      split; [exact Hring1|exact Hrest].
Qed.

Lemma upload_keeps_pending queue f :
  ring_indexed queue ->
  ring_invariant queue ->
  FrameQueue.readIndexShown queue <> 0 ->
  let queue' :=
    FrameQueue.mk
      (update_nth (Z.to_nat (FrameQueue.readIndex queue)) f
         (FrameQueue.frames queue))
      (FrameQueue.readIndex queue) (FrameQueue.writeIndex queue)
      (FrameQueue.count queue) (FrameQueue.capacity queue)
      (FrameQueue.keepLast queue) (FrameQueue.readIndexShown queue)
      (FrameQueue.signal queue) (FrameQueue.isValid queue) in
  ring_indexed queue' /\ ring_invariant queue'
  /\ FrameQueue.capacity queue' = FrameQueue.capacity queue
  /\ pending_frames queue' = pending_frames queue.
Proof.
  intros Hidx Hinv Hshown0 queue'.
  pose proof Hidx as (Hlen & Hr & Hw & Hwr).
  pose proof Hinv as ((Hc0 & Hc) & Hrem & Hshown).
  split.
  { unfold ring_indexed, queue'.
    cbn [FrameQueue.frames FrameQueue.readIndex FrameQueue.writeIndex
         FrameQueue.count FrameQueue.capacity].
    rewrite length_update_nth. exact Hidx. }
  split; [exact Hinv|]. split; [reflexivity|].
  assert (E1 : FrameQueue.readIndexShown queue = 1) by lia.
  unfold pending_frames.
  change (FrameQueue.readIndexShown queue') with (FrameQueue.readIndexShown queue).
  rewrite E1. change (Z.to_nat 1) with 1%nat.
  rewrite <- !(skipn_tl (A := Frame.t) 0). cbn [skipn].
  unfold held_frames.
  change (held_slots queue') with (held_slots queue).
  assert (Htl : forall (g : Z -> Frame.t) l, tl (map g l) = map g (tl l))
    by (intros g [|x l]; reflexivity).
  rewrite !Htl. apply map_ext_in. intros i Hi.
  unfold slot_frame, queue'. cbn [FrameQueue.frames].
  apply nth_update_nth_other.
  assert (Hin : exists k, 1 <= k < FrameQueue.count queue
                  /\ i = (FrameQueue.readIndex queue + k)
                         mod FrameQueue.capacity queue).
  { rewrite <- held_slots_tail in Hi by lia.
    rewrite in_map_iff in Hi. destruct Hi as (k & Hk & Hin).
    apply in_seq in Hin. exists (Z.of_nat k + 1). split; [lia|].
    rewrite <- Hk, Zplus_mod_idemp_l. f_equal. lia. }
  destruct Hin as (k & Hk & Ei).
  assert (Hne : FrameQueue.readIndex queue <> i).
  { rewrite Ei.
    replace (FrameQueue.readIndex queue)
      with ((FrameQueue.readIndex queue + 0) mod FrameQueue.capacity queue)
      at 1 by (rewrite Z.add_0_r; apply Z.mod_small; lia).
    apply mod_slots_differ; lia. }
  pose proof (Z.mod_pos_bound (FrameQueue.readIndex queue + k)
                (FrameQueue.capacity queue) ltac:(lia)).
  lia.
Qed.

Lemma VideoRefresh_display_kept s r :
  ring_facts (video_frames s) ->
  refresh_kept s (fst (VideoRefresh_display s r))
  /\ ring_facts (video_frames (fst (VideoRefresh_display s r)))
  /\ pending_frames (video_frames (fst (VideoRefresh_display s r)))
     = pending_frames (video_frames s)
  /\ FrameQueue.readIndex (video_frames (fst (VideoRefresh_display s r)))
     = FrameQueue.readIndex (video_frames s)
  /\ Refresh.remainingTime (snd (VideoRefresh_display s r))
     = Refresh.remainingTime r
  /\ ((Refresh.displayCount (snd (VideoRefresh_display s r))
       = Refresh.displayCount r
       /\ Refresh.rendered (snd (VideoRefresh_display s r))
          = Refresh.rendered r)
      \/ (Refresh.displayCount (snd (VideoRefresh_display s r))
          = wrap_int32 (Refresh.displayCount r + 1)
          /\ Refresh.rendered (snd (VideoRefresh_display s r))
             = Refresh.rendered r
               ++ [FrameQueue.readIndex (video_frames s)])).
Proof.
  intros (Hidx & Hinv & Hmax). unfold VideoRefresh_display.
  destruct (negb (Refresh.isVideoDisabled r)
            && negb (Refresh.forceRefresh r =? 0)) eqn:Hforce; cbn [andb].
  2: destruct (FrameQueue.count (video_frames s)
               <? FrameQueue.capacity (video_frames s)).
  1: destruct (Z.eqb_spec (FrameQueue.readIndexShown (video_frames s)) 0)
       as [Hshown|Hshown]; cbn [negb].
  1: destruct (FrameQueue.count (video_frames s)
               <? FrameQueue.capacity (video_frames s)).
  all: cbn [fst snd].
  all: try (split; [apply refresh_kept_refl|];
            split; [split; [exact Hidx|split; [exact Hinv|exact Hmax]]|];
            split; [reflexivity|]; split; [reflexivity|];
            split; [reflexivity|]; left; split; reflexivity).
  all: try (match goal with
            | |- context [with_video_frames ?p ?q] =>
                destruct (with_video_frames_kept p q) as [K F]
            end;
            split; [exact K|]; rewrite F;
            split; [split; [exact Hidx|split; [exact Hinv|exact Hmax]]|];
            split; [reflexivity|]; split; [reflexivity|];
            split; [reflexivity|]; left; split; reflexivity).
  unfold RenderVideoFrame, PeekFrameQueueLast.
  match goal with
  | |- context [with_video_frames s ?q] =>
      destruct (with_video_frames_kept s q) as [K F]
  end.
  match type of F with
  | context [update_nth _ ?f _] =>
      destruct (upload_keeps_pending (video_frames s) f Hidx Hinv Hshown)
        as (Hidx' & Hinv' & Hcap' & Hpending)
  end.
  split; [exact K|]. rewrite F.
  split; [split; [exact Hidx'|split; [exact Hinv'|exact Hmax]]|].
  split; [exact Hpending|]. split; [reflexivity|]. split; [reflexivity|].
  right. split; reflexivity.
Qed.

(* ================================================================== *)
(** ** The video refresh: frames leave the queue in order *)
(* ================================================================== *)

(** X22 -- [VideoRefresh] on a player that is not stepping, with a video
    ring that keeps its invariants, returns after at most one pass of its
    [retry] loop for every frame waiting plus one. What it leaves in the
    ring to be played is what was there without some of its first frames;
    the remaining time handed in is never raised and stays a number; at
    most one frame is rendered, the one at the read index, and the display
    count follows it; [forceRefresh] is cleared; the packet queues and the
    audio side are untouched, and the video clock is either untouched or
    set for the serial of the video packet queue. Without a valid video
    stream the ring is not touched at all. *)
Theorem VideoRefresh_shows_frames_in_order :
  forall (state : PlayerState.t) (r : Refresh.t) (fuel : nat) (w : World),
    ring_facts (video_frames state) ->
    PlayerState.step state = 0 ->
    isnan (Refresh.remainingTime r) = false ->
    (Z.to_nat (frames_to_play (video_frames state)) < fuel)%nat ->
    exists state' r',
      fst (VideoRefresh fuel state r w) = Returned (state', r')
      /\ Refresh.forceRefresh r' = 0
      /\ isnan (Refresh.remainingTime r') = false
      /\ (Refresh.remainingTime r' <=? Refresh.remainingTime r)%float = true
      /\ ((Refresh.displayCount r' = Refresh.displayCount r
           /\ Refresh.rendered r' = Refresh.rendered r)
          \/ (Refresh.displayCount r' = wrap_int32 (Refresh.displayCount r + 1)
              /\ Refresh.rendered r'
                 = Refresh.rendered r
                   ++ [FrameQueue.readIndex (video_frames state')]))
      /\ ring_facts (video_frames state')
      /\ rest_of (pending_frames (video_frames state'))
           (pending_frames (video_frames state))
      /\ refresh_kept state state'
      /\ (video_valid state = false -> video_frames state' = video_frames state).
Proof.
  intros state r fuel w Hring Hstep Hnan Hfuel.
  unfold VideoRefresh, bind.
  set (run0 := (if negb (PlayerState.isPaused state)
                   && is_ExternalClock (GetMasterSyncType state)
                   && PlayerState.isRealTime state
                then UpdateExternalClockSpeed state
                else ret state) w).
  assert (H0 : refresh_kept state (fst run0)
               /\ video_frames (fst run0) = video_frames state).
  { unfold run0.
    destruct (negb (PlayerState.isPaused state)
              && is_ExternalClock (GetMasterSyncType state)
              && PlayerState.isRealTime state).
    - apply UpdateExternalClockSpeed_kept.
    - split; [apply refresh_kept_refl|reflexivity]. }
  clearbody run0. destruct run0 as [s0 w0]. cbn [fst] in H0.
  destruct H0 as [K0 F0].
  assert (Hvalid : video_valid s0 = video_valid state).
  { unfold video_valid. destruct K0 as (_ & _ & -> & _). reflexivity. }
  rewrite Hvalid. destruct (video_valid state) eqn:Hv.
  - assert (Hstep0 : PlayerState.step s0 = 0)
      by (destruct K0 as (_ & _ & _ & -> & _); exact Hstep).
    rewrite <- F0 in Hring, Hfuel.
    destruct (VideoRefresh_retry_ends fuel s0 r w0 Hring Hstep0 Hnan Hfuel)
      as (s1 & r1 & E & K1 & C1 & Hring1 & Hrest1).
    destruct (VideoRefresh_retry fuel s0 r w0) as [out w1].
    cbn [fst] in E. subst out. unfold ret. cbn [fst].
    destruct (VideoRefresh_display_kept s1 r1 Hring1)
      as (K2 & Hring2 & Hpending & Hread & Htime & Hcount).
    destruct (VideoRefresh_display s1 r1) as [s2 r2]. cbn [fst snd] in *.
    exists s2, (with_forceRefresh r2 0). split; [reflexivity|].
    destruct C1 as (A1 & A2 & A3 & A4 & A5 & A6).
    split; [reflexivity|]. cbn [with_forceRefresh Refresh.remainingTime
                                Refresh.displayCount Refresh.rendered].
    rewrite Htime. split; [exact A5|]. split; [exact A6|].
    split.
    { destruct Hcount as [[B1 B2]|[B1 B2]]; [left|right];
        split; congruence. }
    split; [exact Hring2|]. split; [rewrite Hpending, <- F0; exact Hrest1|].
    split; [exact (refresh_kept_trans _ _ _ K0 (refresh_kept_trans _ _ _ K1 K2))|].
    discriminate.
  - unfold ret. cbn [fst].
    exists s0, (with_forceRefresh r 0). split; [reflexivity|].
    split; [reflexivity|]. cbn [with_forceRefresh Refresh.remainingTime
                                Refresh.displayCount Refresh.rendered].
    split; [exact Hnan|]. split; [apply leb_refl; exact Hnan|].
    split; [left; split; reflexivity|]. rewrite F0.
    split; [exact Hring|]. split; [apply rest_of_refl|].
    split; [exact K0|]. intros _. reflexivity.
Qed.

(** The player after a seek, refreshed at the refresh rate of the main
    loop: the two frames of serial 1 are skipped, the frame of serial 2 in
    slot 2 is rendered, and nothing is left in the ring to be played. *)
Lemma VideoRefresh_shows_frames_in_order_witness :
  exists state' r',
    fst (VideoRefresh 8 refreshing_player sample_refresh sample_world)
    = Returned (state', r')
    /\ Refresh.forceRefresh r' = 0
    /\ isnan (Refresh.remainingTime r') = false
    /\ (Refresh.remainingTime r' <=? Refresh.remainingTime sample_refresh)%float
       = true
    /\ ((Refresh.displayCount r' = Refresh.displayCount sample_refresh
         /\ Refresh.rendered r' = Refresh.rendered sample_refresh)
        \/ (Refresh.displayCount r'
            = wrap_int32 (Refresh.displayCount sample_refresh + 1)
            /\ Refresh.rendered r'
               = Refresh.rendered sample_refresh
                 ++ [FrameQueue.readIndex (video_frames state')]))
    /\ ring_facts (video_frames state')
    /\ rest_of (pending_frames (video_frames state'))
         (pending_frames (video_frames refreshing_player))
    /\ refresh_kept refreshing_player state'
    /\ (video_valid refreshing_player = false ->
        video_frames state' = video_frames refreshing_player).
Proof.
  apply VideoRefresh_shows_frames_in_order.
  - unfold ring_facts, ring_indexed, ring_invariant, MAX_FRAME_QUEUE_COUNT.
    assert (E : video_frames refreshing_player = ring_across_seek)
      by (vm_compute; reflexivity).
    rewrite E. vm_compute.
    repeat split; try discriminate. left. reflexivity.
  - reflexivity.
  - reflexivity.
  - assert (E : frames_to_play (video_frames refreshing_player) = 3)
      by (vm_compute; reflexivity).
    rewrite E. vm_compute. lia.
Defined.
